(** * HTML-editor: a shallow embedding of [html_editor.py] and its checked properties

    The embedding follows the layering of the program:

    - Python strings, with the character classes the program relies on
      ([str.isspace], [\s], [\w], case folding);
    - the fragment of Python's [re] module the program uses, as a backtracking
      matcher over a small regular-expression syntax;
    - the document tree the program sees through BeautifulSoup ([Tag],
      [NavigableString] and its subclasses), with [find_all], [.string], [get_text],
      [decompose] and the in-place mutations, elements being addressed by
      their path from the root so that a list of found tags keeps denoting
      the same elements after a mutation;
    - the parser and the serializer ([BeautifulSoup(html, "html.parser")],
      [str(soup)], [decode_contents()]), the base64 decoder and the Pillow
      size probe, which are outside the program: they are the fields of the
      classes [TreeAdapter] and [ImageCodec], and every function of the
      program is defined for an arbitrary instance;
    - the functions of [html_editor.py], under their own names;
    - [MiniSoup], one concrete [TreeAdapter], a reader and a writer of plain
      markup, on which the functions are run on examples.

    Characters are the 256 code points of [ascii], read as the first 256
    Unicode code points. *)

From Stdlib Require Import List String Ascii ZArith Lia Bool Arith.
From Stdlib Require Import Numbers.DecimalString Numbers.DecimalNat.
Import ListNotations.

Local Open Scope list_scope.
Local Open Scope string_scope.

Set Implicit Arguments.
Set Warnings "-register-all".

(* ------------------------------------------------------------------ *)
(** * Python strings *)
(* ------------------------------------------------------------------ *)

Module PyStr.

Definition chars (s : string) : list ascii := list_ascii_of_string s.
Definition of_chars (l : list ascii) : string := string_of_list_ascii l.

(** The double quote, which a string literal of this file cannot hold. *)
Definition dq : string := String (ascii_of_nat 34) EmptyString.
Definition dq_char : ascii := ascii_of_nat 34.
(** The line feed. *)
Definition nl : string := String (ascii_of_nat 10) EmptyString.

Definition in_range (lo hi : nat) (c : ascii) : bool :=
  let n := nat_of_ascii c in (lo <=? n)%nat && (n <=? hi)%nat.

(** [str.isspace] on one character, which is also what [\s] matches in a
    [str] pattern: TAB..CR, FS..US, SPACE, NEL and NBSP. *)
Definition isspace (c : ascii) : bool :=
  in_range 9 13 c || in_range 28 32 c || in_range 133 133 c
  || in_range 160 160 c.

(** [\w] in a [str] pattern: alphanumeric characters and the underscore. *)
Definition isword (c : ascii) : bool :=
  in_range 48 57 c || in_range 65 90 c || in_range 97 122 c
  || in_range 95 95 c
  || in_range 170 170 c || in_range 178 179 c || in_range 181 181 c
  || in_range 185 186 c || in_range 188 190 c
  || in_range 192 214 c || in_range 216 246 c || in_range 248 255 c.

Definition isdigit (c : ascii) : bool := in_range 48 57 c.

(** Lower-casing of one character: the letters A..Z, and the accented
    capitals of the upper half of the code page. *)
Definition lower_char (c : ascii) : ascii :=
  if in_range 65 90 c || in_range 192 214 c || in_range 216 222 c
  then ascii_of_nat (nat_of_ascii c + 32) else c.

Definition lower (s : string) : string := of_chars (map lower_char (chars s)).

Fixpoint lstrip_chars (l : list ascii) : list ascii :=
  match l with
  | c :: l' => if isspace c then lstrip_chars l' else l
  | [] => []
  end.

Definition rstrip_chars (l : list ascii) : list ascii :=
  rev (lstrip_chars (rev l)).

(** [s.strip()] *)
Definition strip (s : string) : string :=
  of_chars (rstrip_chars (lstrip_chars (chars s))).

Definition slice (a b : nat) (l : list ascii) : list ascii :=
  firstn (b - a) (skipn a l).

Fixpoint starts_with (p l : list ascii) : bool :=
  match p, l with
  | [], _ => true
  | a :: p', b :: l' => Ascii.eqb a b && starts_with p' l'
  | _ :: _, [] => false
  end.

(** [s.startswith(p)] *)
Definition startswith (p s : string) : bool := starts_with (chars p) (chars s).

(** [p in s] *)
Fixpoint contains_chars (p l : list ascii) : bool :=
  starts_with p l ||
  match l with
  | [] => false
  | _ :: l' => contains_chars p l'
  end.

Definition contains (p s : string) : bool := contains_chars (chars p) (chars s).

(** [s.replace(old, new, 1)]: the first occurrence of [old], scanning from
    the left, is replaced; an empty [old] occurs at position 0. *)
Fixpoint replace_first_chars (old new l : list ascii) : list ascii :=
  if starts_with old l then (new ++ skipn (List.length old) l)%list
  else match l with
       | [] => []
       | c :: l' => c :: replace_first_chars old new l'
       end.

Definition replace_first (old new s : string) : string :=
  of_chars (replace_first_chars (chars old) (chars new) (chars s)).

(** [sep.join(l)] *)
Definition join (sep : string) (l : list string) : string := String.concat sep l.

(** [s.split(sep, maxsplit)] for a one-character separator. *)
Fixpoint split_chars (sep : ascii) (maxsplit : nat) (acc l : list ascii)
  : list (list ascii) :=
  match l with
  | [] => [rev acc]
  | c :: l' =>
      match maxsplit with
      | O => [(rev acc ++ l)%list]
      | S n =>
          if Ascii.eqb c sep then rev acc :: split_chars sep n [] l'
          else split_chars sep maxsplit (c :: acc) l'
      end
  end.

Definition split (sep : ascii) (maxsplit : nat) (s : string) : list string :=
  map of_chars (split_chars sep maxsplit [] (chars s)).

(** [str(n)] and [format(n, "03d")] for a natural number. *)
Definition of_nat (n : nat) : string := NilEmpty.string_of_uint (Nat.to_uint n).

Fixpoint zeros (n : nat) : string :=
  match n with O => "" | S n' => "0" ++ zeros n' end.

Definition of_nat_03d (n : nat) : string :=
  let s := of_nat n in zeros (3 - String.length s) ++ s.

(** The white space [int] drops around a number: the ASCII blanks TAB..CR
    and SPACE, and the white space beyond ASCII. *)
Definition int_space (c : ascii) : bool :=
  in_range 9 13 c || in_range 32 32 c || in_range 133 133 c || in_range 160 160 c.

Fixpoint lstrip_int (l : list ascii) : list ascii :=
  match l with
  | c :: l' => if int_space c then lstrip_int l' else l
  | [] => []
  end.

(** [int(s)] on a string: surrounding white space is dropped, one sign is
    allowed, then decimal digits, single underscores allowed between two
    digits; more than 4300 digits are refused. [None] stands for
    [ValueError]. *)
Fixpoint digits_value (acc : Z) (after_digit : bool) (l : list ascii) : option Z :=
  match l with
  | [] => if after_digit then Some acc else None
  | c :: l' =>
      if isdigit c
      then digits_value (10 * acc + Z.of_nat (nat_of_ascii c - 48)) true l'
      else if Ascii.eqb c "_"%char && after_digit
           then match l' with
                | d :: _ => if isdigit d then digits_value acc false l' else None
                | [] => None
                end
           else None
  end.

Definition int (s : string) : option Z :=
  match rev (lstrip_int (rev (lstrip_int (chars s)))) with
  | [] => None
  | c :: l =>
      if (4300 <? Z.of_nat (List.length (filter isdigit (c :: l))))%Z then None
      else if Ascii.eqb c "-"%char then option_map Z.opp (digits_value 0 false l)
      else if Ascii.eqb c "+"%char then digits_value 0 false l
      else digits_value 0 false (c :: l)
  end.

Definition is_empty (s : string) : bool :=
  match s with EmptyString => true | _ => false end.

End PyStr.

(* ------------------------------------------------------------------ *)
(** * The fragment of Python's [re] the program uses *)
(* ------------------------------------------------------------------ *)

Module Re.
Import PyStr.

(** Patterns. [Star true r] is [r*], [Star false r] is [r*?]; [Group i r] is
    the [i]-th capturing group; [Ahead r] is [(?=r)]; [WordB] is [\b]; [Eos]
    is [$] without [re.MULTILINE]. *)
Inductive regex : Type :=
| Eps
| Class (p : ascii -> bool)
| Seq (a b : regex)
| Alt (a b : regex)
| Star (greedy : bool) (a : regex)
| Group (i : nat) (a : regex)
| Ahead (a : regex)
| WordB
| Eos.

(** A position in the subject: its offset, the character before it, the
    characters from it on, and the spans of the groups closed so far. *)
Record mstate : Type := MState {
  pos : nat;
  prev : option ascii;
  rest : list ascii;
  caps : list (nat * (nat * nat))
}.

Definition word_at (o : option ascii) : bool :=
  match o with Some c => isword c | None => false end.

Definition at_end (l : list ascii) : bool :=
  match l with
  | [] => true
  | [c] => Ascii.eqb c (ascii_of_nat 10)
  | _ => false
  end.

Definition or_else {A : Type} (x : option A) (y : option A) : option A :=
  match x with Some _ => x | None => y end.

(** The backtracking matcher, in continuation-passing style: [run r st k] is
    the first way, in the order Python tries them, of matching [r] at [st]
    and having the continuation [k] succeed on what follows. An alternation
    tries its left branch first; a greedy star tries one more iteration
    before trying to stop, a lazy one the other way round. An iteration of a
    star has to consume a character, so the number of characters left, plus
    one, bounds the iterations. *)
Fixpoint run (r : regex) (st : mstate) (k : mstate -> option mstate)
  : option mstate :=
  match r with
  | Eps => k st
  | Class p =>
      match rest st with
      | c :: l => if p c then k (MState (S (pos st)) (Some c) l (caps st)) else None
      | [] => None
      end
  | Seq a b => run a st (fun st' => run b st' k)
  | Alt a b =>
      match run a st k with
      | Some x => Some x
      | None => run b st k
      end
  | Star greedy a =>
      (fix loop (n : nat) (st : mstate) {struct n} : option mstate :=
         match n with
         | O => k st
         | S n' =>
             if greedy then
               match run a st (fun st' =>
                        if (pos st <? pos st')%nat then loop n' st' else None) with
               | Some x => Some x
               | None => k st
               end
             else
               match k st with
               | Some x => Some x
               | None => run a st (fun st' =>
                        if (pos st <? pos st')%nat then loop n' st' else None)
               end
         end) (S (List.length (rest st))) st
  | Group i a =>
      run a st (fun st' =>
        k (MState (pos st') (prev st') (rest st') ((i, (pos st, pos st')) :: caps st')))
  | Ahead a =>
      match run a st (fun st' => Some st') with
      | Some st' => k (MState (pos st) (prev st) (rest st) (caps st'))
      | None => None
      end
  | WordB =>
      if xorb (word_at (prev st)) (word_at (hd_error (rest st))) then k st else None
  | Eos => if at_end (rest st) then k st else None
  end.

(** Pattern combinators. *)
Definition any : regex := Class (fun _ => true).
Definition space : regex := Class isspace.
Definition chr (c : ascii) : regex := Class (Ascii.eqb c).
(** One character under [re.IGNORECASE]. *)
Definition ichr (c : ascii) : regex :=
  Class (fun x => Ascii.eqb (lower_char x) (lower_char c)).
(** [[^...]] *)
Definition none_of (s : string) : regex :=
  Class (fun x => negb (existsb (Ascii.eqb x) (chars s))).
(** [[...]] *)
Definition one_of (s : string) : regex :=
  Class (fun x => existsb (Ascii.eqb x) (chars s)).

Fixpoint seq_of (l : list regex) : regex :=
  match l with
  | [] => Eps
  | [a] => a
  | a :: l' => Seq a (seq_of l')
  end.

Definition lit (s : string) : regex := seq_of (map chr (chars s)).
Definition ilit (s : string) : regex := seq_of (map ichr (chars s)).
Definition star (a : regex) : regex := Star true a.
Definition star_lazy (a : regex) : regex := Star false a.
Definition plus (a : regex) : regex := Seq a (Star true a).
Definition plus_lazy (a : regex) : regex := Seq a (Star false a).
(** [a?] *)
Definition opt (a : regex) : regex := Alt a Eps.

(** A match object. *)
Record rmatch : Type := RMatch {
  m_subject : list ascii;
  m_start : nat;
  m_end : nat;
  m_caps : list (nat * (nat * nat))
}.

Fixpoint cap_lookup (i : nat) (l : list (nat * (nat * nat))) : option (nat * nat) :=
  match l with
  | [] => None
  | (j, span) :: l' => if (i =? j)%nat then Some span else cap_lookup i l'
  end.

(** [m.group(i)]; [None] when the group took no part in the match. *)
Definition group (m : rmatch) (i : nat) : option string :=
  match i with
  | O => Some (of_chars (slice (m_start m) (m_end m) (m_subject m)))
  | _ => match cap_lookup i (m_caps m) with
         | Some (a, b) => Some (of_chars (slice a b (m_subject m)))
         | None => None
         end
  end.

Definition group_or_empty (m : rmatch) (i : nat) : string :=
  match group m i with Some s => s | None => "" end.

(** The leftmost match starting at [p] or later. *)
Fixpoint search_from (r : regex) (p : nat) (pv : option ascii) (l : list ascii)
  : option (nat * mstate) :=
  match run r (MState p pv l []) (fun st => Some st) with
  | Some st => Some (p, st)
  | None =>
      match l with
      | [] => None
      | c :: l' => search_from r (S p) (Some c) l'
      end
  end.

(** [pattern.match(s)] *)
Definition rmatch_at_start (r : regex) (s : string) : option rmatch :=
  match run r (MState 0 None (chars s) []) (fun st => Some st) with
  | Some st => Some (RMatch (chars s) 0 (pos st) (caps st))
  | None => None
  end.

(** [pattern.search(s)] *)
Definition search (r : regex) (s : string) : option rmatch :=
  match search_from r 0 None (chars s) with
  | Some (a, st) => Some (RMatch (chars s) a (pos st) (caps st))
  | None => None
  end.

(** The successive non-overlapping matches, left to right, at most [limit]
    of them when [limit] is given ([pattern.finditer(s)]). After an empty
    match the scan resumes one character further. *)
Fixpoint scan (fuel : nat) (limit : option nat) (r : regex) (subject : list ascii)
  (p : nat) (pv : option ascii) (l : list ascii) : list rmatch :=
  match fuel, limit with
  | O, _ => []
  | _, Some O => []
  | S fuel', _ =>
      match search_from r p pv l with
      | None => []
      | Some (a, st) =>
          let m := RMatch subject a (pos st) (caps st) in
          let limit' := option_map Nat.pred limit in
          if (a <? pos st)%nat
          then m :: scan fuel' limit' r subject (pos st) (prev st) (rest st)
          else match rest st with
               | [] => [m]
               | c :: l' => m :: scan fuel' limit' r subject (S (pos st)) (Some c) l'
               end
      end
  end.

Definition finditer (limit : option nat) (r : regex) (s : string) : list rmatch :=
  scan (S (String.length s)) limit r (chars s) 0 None (chars s).

(** [pattern.findall(s)] for a pattern with exactly one capturing group:
    the list of what group 1 matched. *)
Definition findall1 (r : regex) (s : string) : list string :=
  map (fun m => group_or_empty m 1) (finditer None r s).

Fixpoint assemble (subject : list ascii) (cur : nat) (repl : rmatch -> string)
  (ms : list rmatch) : list ascii :=
  match ms with
  | [] => skipn cur subject
  | m :: ms' =>
      (slice cur (m_start m) subject ++ chars (repl m)
         ++ assemble subject (m_end m) repl ms')%list
  end.

(** [pattern.sub(repl, s)] with a replacement function, and
    [pattern.sub(repl, s, count=n)]. *)
Definition sub (r : regex) (repl : rmatch -> string) (s : string) : string :=
  of_chars (assemble (chars s) 0 repl (finditer None r s)).

Definition sub_count (r : regex) (repl : rmatch -> string) (s : string) (n : nat)
  : string :=
  of_chars (assemble (chars s) 0 repl (finditer (Some n) r s)).

End Re.

(* ------------------------------------------------------------------ *)
(** * Normalizer *)
(* ------------------------------------------------------------------ *)

(** [WS_RE = re.compile(r"\s+")] *)
Definition WS_RE : Re.regex := Re.plus Re.space.

(** [JINJA_RE = re.compile(r"({{.*?}}|{%.+?%})", re.DOTALL)] *)
Definition JINJA_RE : Re.regex :=
  Re.Group 1
    (Re.Alt (Re.seq_of [Re.lit "{{"; Re.star_lazy Re.any; Re.lit "}}"])
            (Re.seq_of [Re.lit "{%"; Re.plus_lazy Re.any; Re.lit "%}"])).

Definition norm (s : string) : string :=
  PyStr.strip (Re.sub WS_RE (fun _ => " ") s).

Definition has_jinja (s : string) : bool :=
  match Re.search JINJA_RE s with Some _ => true | None => false end.

Definition strip_jinja (s : string) : string :=
  norm (Re.sub JINJA_RE (fun _ => "") s).

(* ------------------------------------------------------------------ *)
(** * The document tree *)
(* ------------------------------------------------------------------ *)

Module Soup.
Import PyStr.

(** The classes of the text leaves. All are instances of [NavigableString].
    The parser gives a text the class of the innermost [style], [script] or
    [template] element around it, and [NavigableString] itself when there
    is none; [Comment] stands for the leaves that are never text (comments,
    doctypes, declarations, processing instructions). *)
Inductive strkind : Type :=
| NavigableString
| CData
| Comment
| Stylesheet
| Script
| TemplateString.

Definition strkind_eqb (x y : strkind) : bool :=
  match x, y with
  | NavigableString, NavigableString | CData, CData | Comment, Comment
  | Stylesheet, Stylesheet | Script, Script | TemplateString, TemplateString => true
  | _, _ => false
  end.

(** [Tag name attrs contents]. The value of an attribute is kept as its text;
    [class] is presented to the program as the list of its words. *)
Inductive node : Type :=
| Str (k : strkind) (s : string)
| Tag (name : string) (attrs : list (string * string)) (contents : list node).

(** The contents of the [BeautifulSoup] object. *)
Definition soup : Type := list node.

(** The position of an element: the child indices from the root. *)
Definition path : Type := list nat.

Definition is_tag (n : node) : bool :=
  match n with Tag _ _ _ => true | Str _ _ => false end.

Definition tag_name (n : node) : string :=
  match n with Tag nm _ _ => nm | Str _ _ => "" end.

Definition tag_attrs (n : node) : list (string * string) :=
  match n with Tag _ at_ _ => at_ | Str _ _ => [] end.

Definition tag_contents (n : node) : list node :=
  match n with Tag _ _ cs => cs | Str _ _ => [] end.

Fixpoint assoc (k : string) (l : list (string * string)) : option string :=
  match l with
  | [] => None
  | (k', v) :: l' => if String.eqb k k' then Some v else assoc k l'
  end.

(** [tag.get(key)] *)
Definition get (key : string) (n : node) : option string := assoc key (tag_attrs n).

(** [\S+] and the words of an attribute value. *)
Definition NONWS_RE : Re.regex := Re.Group 1 (Re.plus (Re.Class (fun c => negb (isspace c)))).
Definition words (v : string) : list string := Re.findall1 NONWS_RE v.

(** [tag.get("class", [])] *)
Definition get_class (n : node) : list string :=
  match get "class" n with Some v => words v | None => [] end.

Definition imap {A B : Type} (f : nat -> A -> B) : nat -> list A -> list B :=
  fix go (i : nat) (l : list A) : list B :=
    match l with
    | [] => []
    | x :: l' => f i x :: go (S i) l'
    end.

(** The elements below (and including) a node, in document order, each with
    its path. *)
Fixpoint tags_of (p : path) (n : node) : list (path * node) :=
  match n with
  | Str _ _ => []
  | Tag _ _ cs => (p, n) :: List.concat (imap (fun i c => tags_of (p ++ [i])%list c) 0 cs)
  end.

(** [soup.descendants], elements only. *)
Definition all_tags (s : soup) : list (path * node) :=
  List.concat (imap (fun i c => tags_of [i] c) 0 s).

Definition name_in (names : list string) (n : node) : bool :=
  existsb (String.eqb (tag_name n)) names.

(** [soup.find_all(names)] *)
Definition find_all (names : list string) (s : soup) : list (path * node) :=
  filter (fun pn => name_in names (snd pn)) (all_tags s).

(** [soup.find_all(key=True)] *)
Definition find_all_with_attr (key : string) (s : soup) : list (path * node) :=
  filter (fun pn => match get key (snd pn) with Some _ => true | None => false end)
         (all_tags s).

(** [class_=c]: one of the words of the class is [c], or the class as a
    whole is. *)
Definition has_class (c : string) (n : node) : bool :=
  match get "class" n with
  | Some _ => existsb (String.eqb c) (get_class n) || String.eqb c (join " " (get_class n))
  | None => false
  end.

(** [soup.find(name, class_=c)] *)
Definition find_with_class (name c : string) (s : soup) : option (path * node) :=
  List.find (fun pn => String.eqb (tag_name (snd pn)) name && has_class c (snd pn))
            (all_tags s).

(** [tag.string]: the only child when it is a string, the [.string] of the
    only child when it is a tag. *)
Fixpoint tag_string (n : node) : option string :=
  match n with
  | Tag _ _ [c] =>
      match c with
      | Str _ s => Some s
      | Tag _ _ _ => tag_string c
      end
  | _ => None
  end.

(** [tag.interesting_string_types]: the classes of strings that are text
    for a tag of this name. *)
Definition interesting_string_types (name : string) : list strkind :=
  if String.eqb name "style" then [Stylesheet]
  else if String.eqb name "script" then [Script]
  else if String.eqb name "template" then [TemplateString]
  else [NavigableString; CData].

(** The strings below a node whose class is one of [types], in document
    order. *)
Fixpoint strings_of (types : list strkind) (n : node) : list string :=
  match n with
  | Str k s => if existsb (strkind_eqb k) types then [s] else []
  | Tag _ _ cs => List.concat (map (strings_of types) cs)
  end.

(** [tag.get_text()] *)
Definition get_text (n : node) : string :=
  join "" (strings_of (interesting_string_types (tag_name n)) n).

(** [soup.get_text(sep, strip=True)], the name of the [BeautifulSoup] object
    being ["[document]"]. *)
Definition get_text_strip (sep : string) (s : soup) : string :=
  join sep (filter (fun x => negb (is_empty x))
              (map strip (List.concat
                            (map (strings_of (interesting_string_types "[document]")) s)))).

(** [tag.decompose()] for every tag of [soup.find_all(names)]: the subtrees
    rooted at these tags leave the tree. *)
Fixpoint prune_node (names : list string) (n : node) : list node :=
  match n with
  | Str _ _ => [n]
  | Tag nm at_ cs =>
      if name_in names n then []
      else [Tag nm at_ (List.concat (map (prune_node names) cs))]
  end.

Definition decompose_all (names : list string) (s : soup) : soup :=
  List.concat (map (prune_node names) s).

Fixpoint map_nth {A : Type} (i : nat) (f : A -> A) (l : list A) : list A :=
  match l, i with
  | [], _ => []
  | x :: l', O => f x :: l'
  | x :: l', S i' => x :: map_nth i' f l'
  end.

Definition on_contents (f : list node -> list node) (n : node) : node :=
  match n with
  | Tag nm at_ cs => Tag nm at_ (f cs)
  | Str _ _ => n
  end.

(** The tree in which the element at path [p] is replaced by its image
    under [f]; everything else is the same. *)
Fixpoint update (p : path) (f : node -> node) (s : soup) : soup :=
  match p with
  | [] => s
  | [i] => map_nth i f s
  | i :: p' => map_nth i (on_contents (update p' f)) s
  end.

Fixpoint lookup (p : path) (s : soup) : option node :=
  match p with
  | [] => None
  | [i] => nth_error s i
  | i :: p' =>
      match nth_error s i with
      | Some n => lookup p' (tag_contents n)
      | None => None
      end
  end.

(** [tag.string = text]: the contents become one plain [NavigableString]. *)
Definition set_string (text : string) (n : node) : node :=
  on_contents (fun _ => [Str NavigableString text]) n.

Fixpoint assoc_set (k v : string) (l : list (string * string)) : list (string * string) :=
  match l with
  | [] => [(k, v)]
  | (k', v') :: l' => if String.eqb k k' then (k, v) :: l' else (k', v') :: assoc_set k v l'
  end.

(** [tag[key] = v] *)
Definition set_attr (key v : string) (n : node) : node :=
  match n with
  | Tag nm at_ cs => Tag nm (assoc_set key v at_) cs
  | Str _ _ => n
  end.

(** [tag.clear(); tag.append(BeautifulSoup(...))], given the contents of the
    appended object: appending a [BeautifulSoup] object appends its
    children one after the other. *)
Definition set_contents (d : soup) (n : node) : node :=
  on_contents (fun _ => d) n.

End Soup.

(** The parser and the serializer the program calls:
    [parse html] is [BeautifulSoup(html, "html.parser")], [decode s] is
    [str(soup)] on the object whose contents are [s], and also
    [tag.decode_contents()] on a tag whose contents are [s]. *)
Class TreeAdapter : Type := {
  parse : string -> Soup.soup;
  decode : Soup.soup -> string
}.

(** What the program imports for images: [base64.b64decode] ([None] when it
    raises), whether Pillow could be imported, and [Image.open(...).size]
    ([None] when it raises). *)
Class ImageCodec : Type := {
  b64decode : string -> option (list Byte.byte);
  PIL_OK : bool;
  image_size : list Byte.byte -> option (Z * Z)
}.

(* ------------------------------------------------------------------ *)
(** * Texts *)
(* ------------------------------------------------------------------ *)

Import PyStr Soup.

Definition SKIP_TAGS : list string := ["style"; "script"; "svg"; "head"].
Definition CANDIDATE_TAGS : list string := ["h1"; "h2"; "h3"; "p"; "span"; "div"].
Definition STATUSES : list string := ["Platinum"; "Gold"; "Silver"; "Bronze"].

Record TextNodeRef : Type := mkTextNodeRef {
  key : string;
  display : string;
  kind : string;
  tag_name : string;
  class_str : string;
  occurrence : nat;
  original_text : string
}.

(** The directive that opens the branch of one status, up to the body:
    [{%\s*(if|elif)\s+status\s*==\s*"<status>"\s*%}\s*] under
    [re.IGNORECASE], [(if|elif)] being group [g]. *)
Definition branch_prefix (g : nat) (status : string) : Re.regex :=
  Re.seq_of
    [Re.ilit "{%"; Re.star Re.space;
     Re.Group g (Re.Alt (Re.ilit "if") (Re.ilit "elif"));
     Re.plus Re.space; Re.ilit "status"; Re.star Re.space; Re.ilit "==";
     Re.star Re.space; Re.chr dq_char; Re.ilit status; Re.chr dq_char;
     Re.star Re.space; Re.ilit "%}"; Re.star Re.space].

(** [{%\s*(elif|endif)\b], [(elif|endif)] being group [g]. *)
Definition next_directive (g : nat) : Re.regex :=
  Re.seq_of
    [Re.ilit "{%"; Re.star Re.space;
     Re.Group g (Re.Alt (Re.ilit "elif") (Re.ilit "endif")); Re.WordB].

(** The pattern of [_extract_status_texts_from_p_status]:
    [<prefix>([\s\S]*?)(?={%\s*(elif|endif)\b)] *)
Definition status_pattern (status : string) : Re.regex :=
  Re.seq_of
    [branch_prefix 1 status;
     Re.Group 2 (Re.star_lazy Re.any);
     Re.Ahead (next_directive 3)].

(** The pattern of [replace_block]:
    [(<prefix>)([\s\S]*?)(?=({%\s*(elif|endif)\b))] *)
Definition status_edit_pattern (status : string) : Re.regex :=
  Re.seq_of
    [Re.Group 1 (branch_prefix 2 status);
     Re.Group 3 (Re.star_lazy Re.any);
     Re.Ahead (Re.Group 4 (next_directive 5))].

(** The guards that both scans of the candidate tags start with: no child
    is a tag, [tag.string] is a non-empty string, and its normal form is
    not empty. The result is [(raw, text)]. *)
Definition leaf_text (tag : node) : option (string * string) :=
  if existsb is_tag (tag_contents tag) then None
  else match tag_string tag with
       | None => None
       | Some raw =>
           if is_empty raw then None
           else let text := norm raw in
                if is_empty text then None else Some (raw, text)
       end.

(** One pass of the loop of [extract_text_nodes] over the candidate tags:
    the triple appended to [candidates], if any. *)
Definition candidate_of (tag : node) : option (string * string * string) :=
  match leaf_text tag with
  | None => None
  | Some (_, text) =>
      let class_str := join " " (get_class tag) in
      if has_jinja text then
        let hard := strip_jinja text in
        if is_empty hard then None
        else Some (Soup.tag_name tag, class_str, hard)
      else Some (Soup.tag_name tag, class_str, text)
  end.

Fixpoint filter_map {A B : Type} (f : A -> option B) (l : list A) : list B :=
  match l with
  | [] => []
  | x :: l' =>
      match f x with
      | Some y => y :: filter_map f l'
      | None => filter_map f l'
      end
  end.

(** The dictionary [counters], keyed by [(tag_name, class_str)]. *)
Definition key2_eqb (a b : string * string) : bool :=
  String.eqb (fst a) (fst b) && String.eqb (snd a) (snd b).

Fixpoint counter_get (k : string * string) (c : list ((string * string) * nat)) : nat :=
  match c with
  | [] => 0
  | (k', n) :: c' => if key2_eqb k k' then n else counter_get k c'
  end.

Fixpoint counter_set (k : string * string) (n : nat) (c : list ((string * string) * nat))
  : list ((string * string) * nat) :=
  match c with
  | [] => [(k, n)]
  | (k', n') :: c' =>
      if key2_eqb k k' then (k, n) :: c' else (k', n') :: counter_set k n c'
  end.

(** The second loop of [extract_text_nodes]. *)
Fixpoint number_candidates (counters : list ((string * string) * nat))
  (candidates : list (string * string * string)) : list TextNodeRef :=
  match candidates with
  | [] => []
  | (tag_name, class_str, extracted_text) :: rest =>
      let key2 := (tag_name, class_str) in
      let occ := counter_get key2 counters + 1 in
      let counters' := counter_set key2 occ counters in
      mkTextNodeRef
        ("TEXT|" ++ tag_name ++ "|" ++ class_str ++ "|" ++ of_nat occ)
        extracted_text "text" tag_name class_str occ extracted_text
      :: number_candidates counters' rest
  end.

(** The address of an element in the index of [apply_text_edits]. *)
Fixpoint index_get (k : string * string) (index : list ((string * string) * list path))
  : list path :=
  match index with
  | [] => []
  | (k', l) :: index' => if key2_eqb k k' then l else index_get k index'
  end.

(** [index.setdefault(k, []).append(p)] *)
Fixpoint index_append (k : string * string) (p : path)
  (index : list ((string * string) * list path)) : list ((string * string) * list path) :=
  match index with
  | [] => [(k, [p])]
  | (k', l) :: index' =>
      if key2_eqb k k' then (k, (l ++ [p])%list) :: index'
      else (k', l) :: index_append k p index'
  end.

Section Texts.
Context {adapter : TreeAdapter}.

Definition status_block_text (inner status : string) : option string :=
  match Re.search (status_pattern status) inner with
  | None => None
  | Some m =>
      let block := Re.group_or_empty m 2 in
      let block_soup := parse block in
      let text := norm (get_text_strip " " block_soup) in
      if is_empty text then None else Some text
  end.

(** The dictionary is returned as the list of its items, in insertion
    order. *)
Definition _extract_status_texts_from_p_status (html : string) : list (string * string) :=
  let soup := parse html in
  match find_with_class "p" "status" soup with
  | None => []
  | Some (_, p) =>
      let inner := decode (tag_contents p) in
      filter_map (fun status =>
                    match status_block_text inner status with
                    | Some text => Some (status, text)
                    | None => None
                    end) STATUSES
  end.

(** ["\n                "]: a line feed and sixteen spaces. *)
Definition block_pad : string := nl ++ "                ".

Definition replace_block (status new_text inner_html : string) : string :=
  Re.sub_count (status_edit_pattern status)
    (fun m => Re.group_or_empty m 1 ++ block_pad ++ new_text ++ block_pad)
    inner_html 1.

(** The loop of [_apply_status_edits] over the items of [status_edits]. *)
Definition patch_inner (status_edits : list (string * string)) (inner : string) : string :=
  fold_left (fun inner e =>
               let t := norm (snd e) in
               if is_empty t then inner else replace_block (fst e) t inner)
            status_edits inner.

Definition _apply_status_edits (html : string) (status_edits : list (string * string))
  : string :=
  let soup := parse html in
  match find_with_class "p" "status" soup with
  | None => decode soup
  | Some (p_path, p) =>
      let inner := decode (tag_contents p) in
      let inner' := patch_inner status_edits inner in
      decode (update p_path (set_contents (parse inner')) soup)
  end.

Definition status_nodes_of (status_texts : list (string * string)) : list TextNodeRef :=
  filter_map (fun st =>
                match assoc st status_texts with
                | Some text =>
                    Some (mkTextNodeRef ("STATUS|" ++ st) text "status" "p" "status" 1 text)
                | None => None
                end) STATUSES.

(** [candidates] after the first loop of [extract_text_nodes]. *)
Definition text_candidates (html : string) : list (string * string * string) :=
  let soup := decompose_all SKIP_TAGS (parse html) in
  filter_map (fun pn => candidate_of (snd pn)) (find_all CANDIDATE_TAGS soup).

Definition extract_text_nodes (html : string) : list TextNodeRef :=
  let status_texts := _extract_status_texts_from_p_status html in
  let status_nodes := status_nodes_of status_texts in
  let nodes := number_candidates [] (text_candidates html) in
  (nodes ++ status_nodes)%list.

(** [index] after the first loop of [apply_text_edits]. *)
Definition build_index (soup : Soup.soup) : list ((string * string) * list path) :=
  fold_left (fun index pn =>
               match leaf_text (snd pn) with
               | None => index
               | Some _ =>
                   let class_str := join " " (get_class (snd pn)) in
                   index_append (Soup.tag_name (snd pn), class_str) (fst pn) index
               end)
            (find_all CANDIDATE_TAGS soup) [].

(** [k] as a text address: [(tag_name, class_str, occ)], when [k] starts
    with [TEXT|], splits in four parts and the last is an integer. *)
Definition parse_text_key (k : string) : option (string * string * Z) :=
  if negb (startswith "TEXT|" k) then None
  else match split "|"%char 3 k with
       | [_; tag_name; class_str; occ_s] =>
           match int occ_s with
           | Some occ => Some (tag_name, class_str, occ)
           | None => None
           end
       | _ => None
       end.

(** [str(t.string) if t.string else ""] *)
Definition old_raw_of (t : option node) : string :=
  match t with
  | Some n => match tag_string n with Some s => s | None => "" end
  | None => ""
  end.

(** One pass of the second loop of [apply_text_edits]. The index was built
    before the loop; the tree is the one the earlier passes left. *)
Definition apply_one_edit (index : list ((string * string) * list path))
  (soup : Soup.soup) (e : string * string) : Soup.soup :=
  let (k, new_text) := e in
  match parse_text_key k with
  | None => soup
  | Some (tag_name, class_str, occ) =>
      let tags := index_get (tag_name, class_str) index in
      if negb ((1 <=? occ)%Z && (occ <=? Z.of_nat (List.length tags))%Z) then soup
      else match nth_error tags (Z.to_nat (occ - 1)) with
           | None => soup
           | Some t =>
               let old_raw := old_raw_of (lookup t soup) in
               if has_jinja old_raw then
                 let old_label := strip_jinja old_raw in
                 if is_empty old_label then soup
                 else let tail := replace_first old_label "" old_raw in
                      update t (set_string (norm new_text ++ tail)) soup
               else update t (set_string (norm new_text)) soup
           end
  end.

(** The third loop of [apply_text_edits]. *)
Definition collect_status_edits (edits : list (string * string)) : list (string * string) :=
  filter_map (fun e =>
                if startswith "STATUS|" (fst e)
                then Some (nth 1 (split "|"%char 1 (fst e)) "", norm (snd e))
                else None) edits.

(** [edits] is the list of the items of the dictionary, in insertion order. *)
Definition apply_text_edits (html : string) (edits : list (string * string)) : string :=
  let soup := parse html in
  let index := build_index soup in
  let soup' := fold_left (apply_one_edit index) edits soup in
  let status_edits := collect_status_edits edits in
  let out_html := decode soup' in
  match status_edits with
  | [] => out_html
  | _ :: _ => _apply_status_edits out_html status_edits
  end.

End Texts.

(* ------------------------------------------------------------------ *)
(** * Images *)
(* ------------------------------------------------------------------ *)

(** [DATA_URL_RE = re.compile(r"^data:(image/(png|jpeg|jpg));base64,(.+)$",
    re.IGNORECASE | re.DOTALL)]; it is only used through [.match], which
    anchors it at the start. *)
Definition DATA_URL_RE : Re.regex :=
  Re.seq_of
    [Re.ilit "data:";
     Re.Group 1 (Re.Seq (Re.ilit "image/")
                   (Re.Group 2 (Re.Alt (Re.ilit "png")
                                  (Re.Alt (Re.ilit "jpeg") (Re.ilit "jpg")))));
     Re.ilit ";base64,";
     Re.Group 3 (Re.plus Re.any);
     Re.Eos].

Definition quotes : string := dq ++ "'".

(** [BG_URL_RE], compiled with [re.IGNORECASE] from the pattern
      (?:background-image|background)\s*:\s*[^;]*url\(\s*[Q]?([^Q)]+)[Q]?\s*\)
    where Q stands for the two quote characters, double and single. *)
Definition BG_URL_RE : Re.regex :=
  Re.seq_of
    [Re.Alt (Re.ilit "background-image") (Re.ilit "background");
     Re.star Re.space; Re.chr ":"%char; Re.star Re.space;
     Re.star (Re.none_of ";");
     Re.ilit "url("; Re.star Re.space;
     Re.opt (Re.one_of quotes);
     Re.Group 1 (Re.plus (Re.none_of (quotes ++ ")")));
     Re.opt (Re.one_of quotes);
     Re.star Re.space; Re.chr ")"%char].

Record ImageLocator : Type := mkImageLocator {
  loc_kind : string;
  a : Z;
  b : Z
}.

Record ImageEntry : Type := mkImageEntry {
  img_id : string;
  source : string;
  mime : string;
  fmt : string;
  width : option Z;
  height : option Z;
  bytes_data : option (list Byte.byte);
  hint : string;
  locator : ImageLocator
}.

(** The three kinds of locator [extract_images] builds and
    [replace_image_in_html] knows. *)
Definition LOCATOR_KINDS : list string := ["img"; "inline_style"; "style_tag"].

(** The [ValueError]s of [replace_image_in_html], one per [raise]. *)
Inductive ValueError : Type :=
| ImgIndexOutOfRange
| StyledTagIndexOutOfRange
| StyleUrlIndexOutOfRange
| StyleBlockIndexOutOfRange
| CssUrlIndexOutOfRange
| UnknownLocatorKind.

Inductive result (A : Type) : Type :=
| Return (x : A)
| Raise (e : ValueError).
Arguments Return {A} x.
Arguments Raise {A} e.

(** [l[i]] once [i < 0 or i >= len(l)] has been excluded. *)
Definition in_range_Z (i : Z) (n : nat) : bool := (0 <=? i)%Z && (i <? Z.of_nat n)%Z.

Section Images.
Context {adapter : TreeAdapter} {codec : ImageCodec}.

Definition _detect_size_from_bytes (b : list Byte.byte) : option Z * option Z :=
  if negb PIL_OK then (None, None)
  else match image_size b with
       | Some (w, h) => (Some w, Some h)
       | None => (None, None)
       end.

(** The entry the three passes of [extract_images] build for one source
    [u], already stripped and not empty: a data URL is decoded and probed,
    anything else is kept as a hint. *)
Definition entry_of (img_id source u : string) (loc : ImageLocator) : ImageEntry :=
  match Re.rmatch_at_start DATA_URL_RE u with
  | Some m =>
      let mime := lower (Re.group_or_empty m 1) in
      let fmt := if contains "jpeg" mime || contains "jpg" mime then "jpg" else "png" in
      let b64 := Re.sub WS_RE (fun _ => "") (Re.group_or_empty m 3) in
      let data := match b64decode b64 with Some d => d | None => [] end in
      let wh := match data with
                | [] => (None, None)
                | _ :: _ => _detect_size_from_bytes data
                end in
      mkImageEntry img_id source mime fmt (fst wh) (snd wh) (Some data) "(data-url)" loc
  | None =>
      mkImageEntry img_id source "image/unknown" "?" None None None u loc
  end.

(** The state of the scan: the shared counter and the entries so far. *)
Definition scan_state : Type := (nat * list ImageEntry)%type.

Definition emit (source u : string) (loc : ImageLocator) (st : scan_state) : scan_state :=
  let counter := fst st + 1 in
  (counter, (snd st ++ [entry_of ("IMG" ++ of_nat_03d counter) source u loc])%list).

(** [(img.get("src") or "").strip()] *)
Definition src_of (img : node) : string :=
  strip (match get "src" img with Some s => s | None => "" end).

(** Pass 1: the [img] tags. *)
Definition scan_imgs (imgs : list (path * node)) (st : scan_state) : scan_state :=
  fold_left (fun st ix =>
               let '(idx, img) := ix in
               let src := src_of (snd img) in
               if is_empty src then st
               else emit "img-tag" src (mkImageLocator "img" (Z.of_nat idx) 0) st)
            (imap (fun i x => (i, x)) 0 imgs) st.

(** The inner loop of passes 2 and 3, over the URLs of one style text. *)
Definition scan_urls (kind_ : string) (tag_idx : nat) (urls : list string) (st : scan_state)
  : scan_state :=
  fold_left (fun st mu =>
               let '(match_idx, u) := mu in
               let u := strip u in
               if is_empty u then st
               else emit "background-image" u
                      (mkImageLocator kind_ (Z.of_nat tag_idx) (Z.of_nat match_idx)) st)
            (imap (fun i x => (i, x)) 0 urls) st.

(** [tag.get("style") or ""] *)
Definition style_of (n : node) : string :=
  match get "style" n with Some s => s | None => "" end.

(** Pass 2: the tags with a [style] attribute. *)
Definition scan_inline_styles (style_tags : list (path * node)) (st : scan_state)
  : scan_state :=
  fold_left (fun st it =>
               let '(tag_idx, tag) := it in
               scan_urls "inline_style" tag_idx (Re.findall1 BG_URL_RE (style_of (snd tag))) st)
            (imap (fun i x => (i, x)) 0 style_tags) st.

(** Pass 3: the [style] blocks. *)
Definition scan_style_blocks (style_blocks : list (path * node)) (st : scan_state)
  : scan_state :=
  fold_left (fun st it =>
               let '(st_idx, blk) := it in
               scan_urls "style_tag" st_idx (Re.findall1 BG_URL_RE (get_text (snd blk))) st)
            (imap (fun i x => (i, x)) 0 style_blocks) st.

Definition extract_images (html : string) : list ImageEntry :=
  let soup := parse html in
  let st0 : scan_state := (0, []) in
  let st1 := scan_imgs (find_all ["img"] soup) st0 in
  let st2 := scan_inline_styles (find_all_with_attr "style" soup) st1 in
  let st3 := scan_style_blocks (find_all ["style"] soup) st2 in
  snd st3.

Definition replace_image_in_html (html : string) (locator : ImageLocator)
  (new_data_url : string) : result string :=
  let soup := parse html in
  if String.eqb (loc_kind locator) "img" then
    let imgs := find_all ["img"] soup in
    if negb (in_range_Z (a locator) (List.length imgs)) then Raise ImgIndexOutOfRange
    else match nth_error imgs (Z.to_nat (a locator)) with
         | None => Raise ImgIndexOutOfRange
         | Some img => Return (decode (update (fst img) (set_attr "src" new_data_url) soup))
         end
  else if String.eqb (loc_kind locator) "inline_style" then
    let tags := find_all_with_attr "style" soup in
    if negb (in_range_Z (a locator) (List.length tags)) then Raise StyledTagIndexOutOfRange
    else match nth_error tags (Z.to_nat (a locator)) with
         | None => Raise StyledTagIndexOutOfRange
         | Some tag =>
             let style := style_of (snd tag) in
             let urls := Re.findall1 BG_URL_RE style in
             if negb (in_range_Z (b locator) (List.length urls)) then Raise StyleUrlIndexOutOfRange
             else match nth_error urls (Z.to_nat (b locator)) with
                  | None => Raise StyleUrlIndexOutOfRange
                  | Some old_url =>
                      let new_style := replace_first old_url new_data_url style in
                      Return (decode (update (fst tag) (set_attr "style" new_style) soup))
                  end
         end
  else if String.eqb (loc_kind locator) "style_tag" then
    let style_blocks := find_all ["style"] soup in
    if negb (in_range_Z (a locator) (List.length style_blocks)) then Raise StyleBlockIndexOutOfRange
    else match nth_error style_blocks (Z.to_nat (a locator)) with
         | None => Raise StyleBlockIndexOutOfRange
         | Some st =>
             let css := get_text (snd st) in
             let urls := Re.findall1 BG_URL_RE css in
             if negb (in_range_Z (b locator) (List.length urls)) then Raise CssUrlIndexOutOfRange
             else match nth_error urls (Z.to_nat (b locator)) with
                  | None => Raise CssUrlIndexOutOfRange
                  | Some old_url =>
                      let new_css := replace_first old_url new_data_url css in
                      Return (decode (update (fst st) (set_string new_css) soup))
                  end
         end
  else Raise UnknownLocatorKind.

End Images.

(* ------------------------------------------------------------------ *)
(** * A concrete adapter *)
(* ------------------------------------------------------------------ *)

(** A reader and a writer of markup in the manner of BeautifulSoup over
    [html.parser], for documents made of text, comments, the four
    references [&amp;] [&lt;] [&gt;] [&quot;], end tags, and start tags
    whose attributes are written [name], [name=value], [name='value'] or
    with double quotes, separated by blanks: names are lower-cased, void
    elements take no content, an end tag closes up to the most recent open
    element of its name and closes nothing when there is none, [script] and
    [style] hold raw text, a text made of blanks only becomes one blank. It
    is one instance of [TreeAdapter], on which the program is run on
    examples. *)
Module MiniSoup.
Import PyStr Soup.

Inductive token : Type :=
| TText (raw : bool) (s : list ascii)
| TComment (s : list ascii)
| TOpen (name : string) (attrs : list (string * string)) (self_closing : bool)
| TClose (name : string).

Definition is_letter (c : ascii) : bool := in_range 65 90 c || in_range 97 122 c.

(** The blanks of markup: space, line feed, tab, form feed, carriage return. *)
Definition is_blank (c : ascii) : bool :=
  in_range 32 32 c || in_range 9 10 c || in_range 12 13 c.

Fixpoint span (keep : ascii -> bool) (l : list ascii) : list ascii * list ascii :=
  match l with
  | c :: l' => if keep c then let (u, v) := span keep l' in (c :: u, v) else ([], l)
  | [] => ([], [])
  end.

Definition skip_blanks (l : list ascii) : list ascii := snd (span is_blank l).

(** The text before the first occurrence of [pat], and the text from it on. *)
Fixpoint find_sub (ci : bool) (pat l : list ascii) : option (list ascii * list ascii) :=
  if starts_with pat (if ci then map lower_char (firstn (List.length pat) l) else l)
  then Some ([], l)
  else match l with
       | [] => None
       | c :: l' =>
           match find_sub ci pat l' with
           | Some (u, v) => Some (c :: u, v)
           | None => None
           end
       end.

Fixpoint unescape (skip : nat) (l : list ascii) : list ascii :=
  match l with
  | [] => []
  | c :: l' =>
      match skip with
      | S n => unescape n l'
      | O =>
          if starts_with (chars "&amp;") l then "&"%char :: unescape 4 l'
          else if starts_with (chars "&lt;") l then "<"%char :: unescape 3 l'
          else if starts_with (chars "&gt;") l then ">"%char :: unescape 3 l'
          else if starts_with (chars "&quot;") l then dq_char :: unescape 5 l'
          else c :: unescape 0 l'
      end
  end.

Definition name_stop (c : ascii) : bool :=
  is_blank c || Ascii.eqb c "/"%char || Ascii.eqb c ">"%char.

Definition quoted_value (q : ascii) (l : list ascii) : option (list ascii * list ascii) :=
  let (v, r) := span (fun c => negb (Ascii.eqb c q)) l in
  match r with
  | _ :: r' => Some (v, r')
  | [] => None
  end.

(** The attributes of a start tag, up to its closing bracket. A name given
    twice keeps its first place and its last value. *)
Fixpoint read_attrs (fuel : nat) (l : list ascii) (acc : list (string * string))
  : option (list (string * string) * bool * list ascii) :=
  match fuel with
  | O => None
  | S fuel' =>
      match skip_blanks l with
      | [] => None
      | c :: r =>
          if Ascii.eqb c ">"%char then Some (acc, false, r)
          else if Ascii.eqb c "/"%char then
            match r with
            | d :: r' => if Ascii.eqb d ">"%char then Some (acc, true, r')
                         else read_attrs fuel' r acc
            | [] => None
            end
          else
            let (nm, r1) := span (fun x => negb (name_stop x || Ascii.eqb x "="%char)) r in
            let key := lower (of_chars (c :: nm)) in
            match skip_blanks r1 with
            | e :: r3 =>
                if Ascii.eqb e "="%char then
                  match skip_blanks r3 with
                  | q :: r4 =>
                      if Ascii.eqb q dq_char || Ascii.eqb q "'"%char then
                        match quoted_value q r4 with
                        | Some (v, r5) =>
                            read_attrs fuel' r5 (assoc_set key (of_chars (unescape 0 v)) acc)
                        | None => None
                        end
                      else
                        let (v, r5) := span (fun x => negb (is_blank x || Ascii.eqb x ">"%char)) (q :: r4) in
                        read_attrs fuel' r5 (assoc_set key (of_chars (unescape 0 v)) acc)
                  | [] => None
                  end
                else read_attrs fuel' r1 (assoc_set key "" acc)
            | [] => None
            end
      end
  end.

Definition raw_text_tags : list string := ["script"; "style"].

(** The markup that starts at [l], whose first character is [<]: a comment,
    an end tag or a start tag, with what follows it. A comment that is not
    closed runs to the end of the document; the empty end tag is dropped.
    After the start tag of a raw-text element, its content comes as one raw
    text; when its end tag is missing, the rest of the document is not
    read. *)
Definition read_markup (l : list ascii) : option (list token * list ascii) :=
  if starts_with (chars "<!--") l then
    match find_sub false (chars "-->") (skipn 4 l) with
    | Some (body, r) => Some ([TComment body], skipn 3 r)
    | None => Some ([TComment (skipn 4 l)], [])
    end
  else match l with
       | _ :: c :: r =>
           if Ascii.eqb c "/"%char then
             match r with
             | d :: _ =>
                 if is_letter d then
                   let (nm, r1) := span (fun x => negb (Ascii.eqb x ">"%char)) r in
                   match r1 with
                   | _ :: r2 => Some ([TClose (lower (strip (of_chars nm)))], r2)
                   | [] => None
                   end
                 else if Ascii.eqb d ">"%char then Some ([], skipn 3 l)
                 else None
             | [] => None
             end
           else if is_letter c then
             let (nm, r1) := span (fun x => negb (name_stop x)) (c :: r) in
             let name := lower (of_chars nm) in
             match read_attrs (S (List.length r1)) r1 [] with
             | Some (attrs, self_closing, r2) =>
                 if existsb (String.eqb name) raw_text_tags && negb self_closing then
                   match find_sub true (chars ("</" ++ name)) r2 with
                   | Some ([], r3) => Some ([TOpen name attrs false], r3)
                   | Some (body, r3) => Some ([TOpen name attrs false; TText true body], r3)
                   | None => Some ([TOpen name attrs false], [])
                   end
                 else Some ([TOpen name attrs self_closing], r2)
             | None => None
             end
           else None
       | _ => None
       end.

Definition flush (txt : list ascii) (k : list token) : list token :=
  match txt with
  | [] => k
  | _ :: _ => TText false (rev txt) :: k
  end.

Fixpoint tokenize (fuel : nat) (txt l : list ascii) : list token :=
  match fuel with
  | O => flush txt []
  | S fuel' =>
      match l with
      | [] => flush txt []
      | c :: l' =>
          if Ascii.eqb c "<"%char then
            match read_markup l with
            | Some (toks, r) => flush txt (toks ++ tokenize fuel' [] r)%list
            | None => tokenize fuel' (c :: txt) l'
            end
          else tokenize fuel' (c :: txt) l'
      end
  end.

Definition void_tags : list string :=
  ["area"; "base"; "br"; "col"; "embed"; "hr"; "img"; "input"; "keygen";
   "link"; "menuitem"; "meta"; "param"; "source"; "track"; "wbr";
   "basefont"; "bgsound"; "command"; "frame"; "image"; "isindex"; "nextid";
   "spacer"].

Definition preserve_whitespace_tags : list string := ["pre"; "textarea"].

(** An open element: its name, its attributes, its children so far, last
    first. *)
Definition frame : Type := (string * list (string * string) * list node)%type.

Definition add_child (n : node) (stack : list frame) : list frame :=
  match stack with
  | (nm, at_, cs) :: stack' => (nm, at_, n :: cs) :: stack'
  | [] => []
  end.

(** The topmost element is closed and becomes a child of the one below. *)
Definition pop (stack : list frame) : list frame :=
  match stack with
  | (nm, at_, cs) :: (f :: stack') => add_child (Tag nm at_ (rev cs)) (f :: stack')
  | _ => stack
  end.

Fixpoint pops (n : nat) (stack : list frame) : list frame :=
  match n with O => stack | S n' => pops n' (pop stack) end.

(** How many elements an end tag closes: up to and including the most
    recent open element of that name, none if there is no such element. The
    last frame is the document and is never closed. *)
Fixpoint depth_of (name : string) (stack : list frame) : option nat :=
  match stack with
  | [] => None
  | [_] => None
  | (nm, _, _) :: stack' =>
      if String.eqb nm name then Some 1
      else option_map S (depth_of name stack')
  end.

Definition string_containers : list (string * strkind) :=
  [("style", Stylesheet); ("script", Script); ("template", TemplateString)].

Fixpoint container_assoc (name : string) (l : list (string * strkind)) : option strkind :=
  match l with
  | [] => None
  | (nm, k) :: l' => if String.eqb name nm then Some k else container_assoc name l'
  end.

(** The class of a text: that of the innermost open element that has one. *)
Fixpoint string_container (stack : list frame) : strkind :=
  match stack with
  | [] => NavigableString
  | (nm, _, _) :: stack' =>
      match container_assoc nm string_containers with
      | Some k => k
      | None => string_container stack'
      end
  end.

(** The text node made of the pending characters: a text of blanks only
    becomes one blank, outside [pre] and [textarea]. *)
Definition text_node (stack : list frame) (s : list ascii) : node :=
  if forallb is_blank s
     && negb (existsb (fun f => existsb (String.eqb (fst (fst f))) preserve_whitespace_tags) stack)
  then Str (string_container stack)
           (if existsb (Ascii.eqb (ascii_of_nat 10)) s then nl else " ")
  else Str (string_container stack) (of_chars s).

(** The state of the tree builder: the open elements, the characters of the
    text being read, and the names of the void elements that were closed as
    soon as they were opened, whose end tag, if one comes, is to be
    ignored. *)
Record builder : Type := Builder {
  stack : list frame;
  current_data : list ascii;
  already_closed : list string
}.

(** The pending text, if any, becomes a child of the innermost open
    element. *)
Definition end_data (st : builder) : builder :=
  match current_data st with
  | [] => st
  | _ :: _ =>
      Builder (add_child (text_node (stack st) (current_data st)) (stack st))
              [] (already_closed st)
  end.

Definition pop_to_tag (name : string) (st : builder) : builder :=
  match depth_of name (stack st) with
  | Some n => Builder (pops n (stack st)) (current_data st) (already_closed st)
  | None => st
  end.

Fixpoint remove_first (name : string) (l : list string) : list string :=
  match l with
  | [] => []
  | x :: l' => if String.eqb x name then l' else x :: remove_first name l'
  end.

(** An end tag: crossed off when it is the one of a void element closed
    already, and otherwise closing up to the most recent open element of
    its name. *)
Definition end_tag (check_already_closed : bool) (name : string) (st : builder)
  : builder :=
  if check_already_closed && existsb (String.eqb name) (already_closed st)
  then Builder (stack st) (current_data st) (remove_first name (already_closed st))
  else pop_to_tag name (end_data st).

Definition start_tag (name : string) (attrs : list (string * string)) (st : builder)
  : builder :=
  let st' := end_data st in
  Builder ((name, attrs, []) :: stack st') (current_data st') (already_closed st').

Definition step (st : builder) (t : token) : builder :=
  match t with
  | TText raw s =>
      Builder (stack st)
              (current_data st ++ (if raw then s else unescape 0 s))%list
              (already_closed st)
  | TComment s =>
      let st' := end_data st in
      Builder (add_child (Str Comment (of_chars s)) (stack st'))
              (current_data st') (already_closed st')
  | TOpen name attrs self_closing =>
      let st' := start_tag name attrs st in
      if self_closing then end_tag true name st'
      else if existsb (String.eqb name) void_tags then
        let st'' := end_tag false name st' in
        Builder (stack st'') (current_data st'') (already_closed st'' ++ [name])%list
      else st'
  | TClose name => end_tag true name st
  end.

Definition mini_parse (html : string) : soup :=
  let toks := tokenize (S (String.length html)) [] (chars html) in
  let st := end_data (fold_left step toks (Builder [("[document]", [], [])] [] [])) in
  match pops (List.length (stack st)) (stack st) with
  | (_, _, cs) :: _ => rev cs
  | [] => []
  end.

Fixpoint escape (l : list ascii) : string :=
  match l with
  | [] => ""
  | c :: l' =>
      (if Ascii.eqb c "&"%char then "&amp;"
       else if Ascii.eqb c "<"%char then "&lt;"
       else if Ascii.eqb c ">"%char then "&gt;"
       else String c "") ++ escape l'
  end.

Fixpoint replace_dq (l : list ascii) : string :=
  match l with
  | [] => ""
  | c :: l' => (if Ascii.eqb c dq_char then "&quot;" else String c "") ++ replace_dq l'
  end.

Definition quoted_attribute_value (v : string) : string :=
  if contains dq v then
    if contains "'" v then dq ++ replace_dq (chars v) ++ dq
    else "'" ++ v ++ "'"
  else dq ++ v ++ dq.

Definition decode_attr (kv : string * string) : string :=
  let v := if String.eqb (fst kv) "class" then join " " (words (snd kv)) else snd kv in
  " " ++ fst kv ++ "=" ++ quoted_attribute_value (escape (chars v)).

(** A string is written as it is under [script] and [style], with [&], [<]
    and [>] as references elsewhere. *)
Fixpoint decode_node (raw : bool) (n : node) : string :=
  match n with
  | Str Comment s => "<!--" ++ s ++ "-->"
  | Str CData s => "<![CDATA[" ++ s ++ "]]>"
  | Str _ s => if raw then s else escape (chars s)
  | Tag name attrs cs =>
      let inner := String.concat "" (map (decode_node (existsb (String.eqb name) raw_text_tags)) cs) in
      let open := "<" ++ name ++ String.concat "" (map decode_attr attrs) in
      match cs with
      | [] => if existsb (String.eqb name) void_tags then open ++ "/>"
              else open ++ "></" ++ name ++ ">"
      | _ :: _ => open ++ ">" ++ inner ++ "</" ++ name ++ ">"
      end
  end.

Definition mini_decode (s : soup) : string :=
  String.concat "" (map (decode_node false) s).

End MiniSoup.

Definition mini_adapter : TreeAdapter :=
  {| parse := MiniSoup.mini_parse; decode := MiniSoup.mini_decode |}.

(** A codec that decodes nothing and probes nothing: every payload is bad
    base64 for it. *)
Definition deaf_codec : ImageCodec :=
  {| b64decode := fun _ => None; PIL_OK := true; image_size := fun _ => None |}.

(** A codec that decodes every payload to one byte and cannot probe it. *)
Definition blind_codec : ImageCodec :=
  {| b64decode := fun _ => Some [Byte.x00]; PIL_OK := true; image_size := fun _ => None |}.


(* ------------------------------------------------------------------ *)
(** * Notions the properties are stated with *)
(* ------------------------------------------------------------------ *)

(** [is_prefix p q]: the element at [p] is the one at [q] or one of its
    ancestors. *)
Fixpoint is_prefix (p q : path) : bool :=
  match p, q with
  | [], _ => true
  | i :: p', j :: q' => (i =? j)%nat && is_prefix p' q'
  | _ :: _, [] => false
  end.

(** The node reached from [n] by the child indices [r]. *)
Definition sub_node (n : node) (r : path) : option node :=
  match r with
  | [] => Some n
  | _ :: _ => lookup r (tag_contents n)
  end.

(** Induction on a tree, with the property available on the children. *)
Fixpoint node_induction (P : node -> Prop)
  (HStr : forall k s, P (Str k s))
  (HTag : forall nm at_ cs, Forall P cs -> P (Tag nm at_ cs))
  (n : node) {struct n} : P n :=
  match n with
  | Str k s => HStr k s
  | Tag nm at_ cs =>
      HTag nm at_ cs
        ((fix children (l : list node) : Forall P l :=
            match l with
            | [] => Forall_nil P
            | c :: l' => Forall_cons c (node_induction HStr HTag c) (children l')
            end) cs)
  end.

Definition is_status_ref (r : TextNodeRef) : bool := String.eqb (kind r) "status".
Definition is_text_ref (r : TextNodeRef) : bool := String.eqb (kind r) "text".

(** What the scan of [extract_images] visits, without the codec: the source
    kind, the stripped source and the locator of every item that gets an
    entry, pass after pass. *)
Definition image_item : Type := (string * string * ImageLocator)%type.

Definition img_items (imgs : list (path * node)) : list image_item :=
  filter_map (fun ix : nat * (path * node) =>
                let src := src_of (snd (snd ix)) in
                if is_empty src then None
                else Some ("img-tag", src, mkImageLocator "img" (Z.of_nat (fst ix)) 0))
             (imap (fun i x => (i, x)) 0 imgs).

Definition url_items (kind_ : string) (tag_idx : nat) (urls : list string) : list image_item :=
  filter_map (fun mu : nat * string =>
                let u := strip (snd mu) in
                if is_empty u then None
                else Some ("background-image", u,
                           mkImageLocator kind_ (Z.of_nat tag_idx) (Z.of_nat (fst mu))))
             (imap (fun i x => (i, x)) 0 urls).

Definition inline_items (style_tags : list (path * node)) : list image_item :=
  List.concat (imap (fun i tag => url_items "inline_style" i
                                    (Re.findall1 BG_URL_RE (style_of (snd tag))))
                    0 style_tags).

Definition block_items (style_blocks : list (path * node)) : list image_item :=
  List.concat (imap (fun i blk => url_items "style_tag" i
                                    (Re.findall1 BG_URL_RE (get_text (snd blk))))
                    0 style_blocks).

Definition image_items (s : soup) : list image_item :=
  (img_items (find_all ["img"] s)
   ++ inline_items (find_all_with_attr "style" s)
   ++ block_items (find_all ["style"] s))%list.

(** The payload of a data URL as [extract_images] hands it to the decoder:
    group 3 without its white space. *)
Definition payload_of (m : Re.rmatch) : string :=
  Re.sub WS_RE (fun _ => "") (Re.group_or_empty m 3).

Section Specs.
Context {adapter : TreeAdapter} {codec : ImageCodec}.

(** One entry per item, numbered from [counter + 1]. *)
Fixpoint number_entries (counter : nat) (items : list image_item) : list ImageEntry :=
  match items with
  | [] => []
  | (source, u, loc) :: rest =>
      entry_of ("IMG" ++ of_nat_03d (counter + 1)) source u loc
      :: number_entries (counter + 1) rest
  end.

(** The scan state after the entries of [items] have been emitted. *)
Definition run_items (st : scan_state) (items : list image_item) : scan_state :=
  (fst st + List.length items, (snd st ++ number_entries (fst st) items)%list).

(** The list of candidates [replace_image_in_html] derives again for a kind
    of locator, and the URLs it derives again from the chosen candidate. *)
Definition locator_candidates (s : soup) (kind_ : string) : option (list (path * node)) :=
  if String.eqb kind_ "img" then Some (find_all ["img"] s)
  else if String.eqb kind_ "inline_style" then Some (find_all_with_attr "style" s)
  else if String.eqb kind_ "style_tag" then Some (find_all ["style"] s)
  else None.

Definition locator_urls (kind_ : string) (n : node) : option (list string) :=
  if String.eqb kind_ "inline_style" then Some (Re.findall1 BG_URL_RE (style_of n))
  else if String.eqb kind_ "style_tag" then Some (Re.findall1 BG_URL_RE (get_text n))
  else None.

(** A locator of a known kind is out of range for a document when its
    first index is outside the candidates of its kind, or, for the two
    background kinds, when its second index is outside the URLs of the
    candidate the first index selects. *)
Definition out_of_range (html : string) (loc : ImageLocator) : bool :=
  match locator_candidates (parse html) (loc_kind loc) with
  | None => false
  | Some cands =>
      if negb (in_range_Z (a loc) (List.length cands)) then true
      else match nth_error cands (Z.to_nat (a loc)) with
           | None => true
           | Some n =>
               match locator_urls (loc_kind loc) (snd n) with
               | None => false
               | Some urls => negb (in_range_Z (b loc) (List.length urls))
               end
           end
  end.

(** The group of an address in the index [apply_text_edits] builds. *)
Definition group_size (html tag_name class_str : string) : nat :=
  List.length (index_get (tag_name, class_str) (build_index (parse html))).

End Specs.

(** The chain of the status container, and its two halves around the body
    of the Gold branch. *)
Definition gold_prefix : string := "{% if status == " ++ dq ++ "Gold" ++ dq ++ " %} ".
Definition silver_rest : string :=
  "{% elif status == " ++ dq ++ "Silver" ++ dq ++ " %} Good job {% endif %}".
Definition status_chain : string := gold_prefix ++ "Great job " ++ silver_rest.

(** What the pattern of a status finds in the inner markup of the
    container: the body of its branch, if it has one. *)
Definition branch_body (status inner : string) : option string :=
  option_map (fun m => Re.group_or_empty m 2) (Re.search (status_pattern status) inner).

Definition status_ref (st text : string) : TextNodeRef :=
  mkTextNodeRef ("STATUS|" ++ st) text "status" "p" "status" 1 text.

Definition text_ref (tag class_ text : string) (occ : nat) : TextNodeRef :=
  mkTextNodeRef ("TEXT|" ++ tag ++ "|" ++ class_ ++ "|" ++ of_nat occ)
    text "text" tag class_ occ text.

(** The key under which both scans file a candidate tag. *)
Definition key_of (n : node) : string * string :=
  (Soup.tag_name n, join " " (get_class n)).

Definition is_leaf_text (n : node) : bool :=
  match leaf_text n with Some _ => true | None => false end.

(** The tags the index of [apply_text_edits] holds, in the order of its
    scan. *)
Definition indexed_tags (s : soup) : list (path * node) :=
  filter (fun pn => is_leaf_text (snd pn)) (find_all CANDIDATE_TAGS s).

(** The triple extraction appends for a tag, with a default for the tags it
    leaves out. *)
Definition triple_of (pn : path * node) : string * string * string :=
  match candidate_of (snd pn) with
  | Some y => y
  | None => (key_of (snd pn), "")
  end.

(** What [re.sub(r"\s+", rep, s)] leaves: every maximal run of white space
    becomes [rep]. [in_run] tells that the character before was white. *)
Fixpoint collapse (rep : list ascii) (in_run : bool) (l : list ascii) : list ascii :=
  match l with
  | [] => []
  | c :: l' =>
      if isspace c
      then if in_run then collapse rep true l' else (rep ++ collapse rep true l')%list
      else c :: collapse rep false l'
  end.

(** The position a greedy [[class]*] stops at. *)
Fixpoint skip_class (q : ascii -> bool) (p : nat) (pv : option ascii) (l : list ascii)
  (cs : list (nat * (nat * nat))) : Re.mstate :=
  match l with
  | c :: l' => if q c then skip_class q (S p) (Some c) l' cs else Re.MState p pv l cs
  | [] => Re.MState p pv [] cs
  end.

(** Whether the first character of [l] is in the class [q]. *)
Definition head_is (q : ascii -> bool) (l : list ascii) : bool :=
  match l with c :: _ => q c | [] => false end.

(** Every white character of [l] is a blank, and none is followed by
    another white character. *)
Fixpoint single_spaced (l : list ascii) : bool :=
  match l with
  | [] => true
  | c :: l' =>
      (if isspace c then Ascii.eqb c " " && negb (head_is isspace l') else true)
      && single_spaced l'
  end.

(** No white space at either end. *)
Definition trimmed (l : list ascii) : bool :=
  negb (head_is isspace l) && negb (head_is isspace (rev l)).

(** A text in normal form: its only white space is single blanks between
    two other characters. *)
Definition normal (s : string) : bool :=
  single_spaced (chars s) && trimmed (chars s).

(** No character of [l] is [sep]. *)
Definition free_of (sep : ascii) (l : list ascii) : bool :=
  forallb (fun x => negb (Ascii.eqb x sep)) l.

(** The address of a plain entry, as its three components. *)
Definition address_of (r : TextNodeRef) : string * string * nat :=
  (tag_name r, class_str r, occurrence r).

(** The string [apply_text_edits] gives an element whose string was
    [old_raw]: the new text in normal form, followed, when the old string
    holds template markers, by what is left of it once its label is cut
    out. *)
Definition edited_string (old_raw new_text : string) : string :=
  if has_jinja old_raw
  then norm new_text ++ replace_first (strip_jinja old_raw) "" old_raw
  else norm new_text.

(** [k] zeros in front of a numeral. *)
Fixpoint pad_uint (k : nat) (d : Decimal.uint) : Decimal.uint :=
  match k with O => d | S k' => Decimal.D0 (pad_uint k' d) end.

(** The node in which the element reached by the child indices [r] is
    replaced by its image under [f]. *)
Fixpoint upd_node (r : path) (f : node -> node) (n : node) : node :=
  match r with
  | [] => f n
  | i :: r' => on_contents (map_nth i (upd_node r' f)) n
  end.

(** What setting the attribute [k] to [v] at the path [p] does to one
    element of the list of all elements: the element at [p] gets the
    attribute, and no element changes its path, its name, the strings below
    it, or any other attribute. *)
Definition attr_step (k v : string) (p : path) (x y : path * node) : Prop :=
  fst y = fst x
  /\ Soup.tag_name (snd y) = Soup.tag_name (snd x)
  /\ (forall types, strings_of types (snd y) = strings_of types (snd x))
  /\ (fst x = p -> tag_attrs (snd y) = assoc_set k v (tag_attrs (snd x)))
  /\ (fst x <> p -> tag_attrs (snd y) = tag_attrs (snd x)).

Definition locator_eqb (x y : ImageLocator) : bool :=
  String.eqb (loc_kind x) (loc_kind y) && (a x =? a y)%Z && (b x =? b y)%Z.

(** The item of the image at [loc], once its source is [u]. *)
Definition item_with_source (loc : ImageLocator) (u : string) (it : image_item)
  : image_item :=
  if locator_eqb (snd it) loc then ("img-tag", u, loc) else it.

Section Rescan.
Context {codec : ImageCodec}.

(** The entry of the image at [loc], once its source is [u]: the same
    identifier and locator, and what [u] holds. *)
Definition with_source (loc : ImageLocator) (u : string) (e : ImageEntry) : ImageEntry :=
  if locator_eqb (locator e) loc then entry_of (img_id e) "img-tag" u loc else e.

End Rescan.

(** What the program asks of the file it is given, the path being the text
    [str(path)]: [mimetypes.guess_type(str(path))[0]], [path.suffix], and
    [path.read_bytes()] ([None] when it raises). *)
Class FileHost : Type := {
  guess_type : string -> option string;
  suffix : string -> string;
  read_bytes : string -> option (list Byte.byte)
}.

(** [base64.b64encode(raw).decode("ascii")]: three bytes give four digits
    of the standard alphabet; one or two bytes left over give two or three
    digits, padded with [=]. *)
Definition B64_ALPHABET : string :=
  "ABCDEFGHIJKLMNOPQRSTUVWXYZabcdefghijklmnopqrstuvwxyz0123456789+/".

Definition b64_digit (n : nat) : ascii := nth n (chars B64_ALPHABET) "="%char.

Fixpoint b64encode_chars (l : list Byte.byte) : list ascii :=
  match l with
  | [] => []
  | [x] =>
      let n := Byte.to_nat x in
      [b64_digit (n / 4); b64_digit (n mod 4 * 16); "="%char; "="%char]
  | [x; y] =>
      let n := Byte.to_nat x * 256 + Byte.to_nat y in
      [b64_digit (n / 1024); b64_digit (n / 16 mod 64); b64_digit (n mod 16 * 4); "="%char]
  | x :: y :: z :: l' =>
      let n := (Byte.to_nat x * 256 + Byte.to_nat y) * 256 + Byte.to_nat z in
      b64_digit (n / 4096 / 64) :: b64_digit (n / 4096 mod 64)
        :: b64_digit (n / 64 mod 64) :: b64_digit (n mod 64) :: b64encode_chars l'
  end.

Definition b64encode (raw : list Byte.byte) : string := of_chars (b64encode_chars raw).

(** The two ways [make_data_url_from_file] fails: its own [ValueError], and
    the error of [read_bytes]. *)
Inductive FileError : Type :=
| OnlyPngAndJpeg
| ReadFailed.

Definition is_png_or_jpeg (mime : string) : bool :=
  String.eqb mime "image/png" || String.eqb mime "image/jpeg".

Section Files.
Context {host : FileHost}.

Definition _guess_mime_for_file (path : string) : string :=
  let mime := lower (match guess_type path with Some m => m | None => "" end) in
  if is_png_or_jpeg mime then mime
  else
    let ext := lower (suffix path) in
    if String.eqb ext ".png" then "image/png"
    else if String.eqb ext ".jpg" || String.eqb ext ".jpeg" then "image/jpeg"
    else "".

Definition make_data_url_from_file (path : string)
  : FileError + (string * list Byte.byte) :=
  let mime := _guess_mime_for_file path in
  if negb (is_png_or_jpeg mime) then inl OnlyPngAndJpeg
  else match read_bytes path with
       | None => inl ReadFailed
       | Some raw => inr ("data:" ++ mime ++ ";base64," ++ b64encode raw, raw)
       end.

End Files.

Section DataEntries.
Context {codec : ImageCodec}.

(** The entry of a data URL with the given type and payload. *)
Definition data_entry (img_id source mime fmt b64 : string) (loc : ImageLocator)
  : ImageEntry :=
  let data := match b64decode b64 with Some d => d | None => [] end in
  let wh := match data with
            | [] => (None, None)
            | _ :: _ => _detect_size_from_bytes data
            end in
  mkImageEntry img_id source mime fmt (fst wh) (snd wh) (Some data) "(data-url)" loc.

End DataEntries.

(** The character before a position, after the characters [w] were read. *)
Definition prev_after (pv : option ascii) (w : list ascii) : option ascii :=
  fold_left (fun _ c => Some c) w pv.

(** The tag an edit under the key [k] is for, in the second loop of
    [apply_text_edits]: the key read as an address, the group of the
    address in the index, the range check, and [tags[occ - 1]]. *)
Definition resolve (index : list ((string * string) * list path)) (k : string)
  : option path :=
  match parse_text_key k with
  | None => None
  | Some (tag_name, class_str, occ) =>
      let tags := index_get (tag_name, class_str) index in
      if negb ((1 <=? occ)%Z && (occ <=? Z.of_nat (List.length tags))%Z) then None
      else nth_error tags (Z.to_nat (occ - 1))
  end.

Section EditedTree.
Context {adapter : TreeAdapter}.


End EditedTree.

(** The documents the properties are run on, with [mini_adapter]. *)
Definition score_page : string := "<p>Score: {{ value }}</p>".

Definition templated_page : string := "<p>{{ name }}</p><p>Hello</p><p>World</p>".

Definition head_page : string :=
  "<head><div>A</div></head><body><div>B</div></body>".

Definition stray_page : string := "<div>a</p>b</div>".

Definition hello_page : string := "<p class='x'>Hello</p>".

(** The tree of [hello_page] with a given text. *)
Definition hello_tree (text : string) : soup :=
  [Tag "p" [("class", "x")] [Str NavigableString text]].

Definition status_and_text_page : string :=
  "<h1>Diploma</h1><p class='status'>" ++ status_chain ++ "</p>".

Definition card_page : string :=
  "<div class='card'><h1>Diploma</h1><p>Hello {{ name }}</p><p>World</p></div>".

Definition status_page : string :=
  "<p class='status'>" ++ status_chain ++ "</p>".

Definition three_images : string :=
  "<img src='a.png'><div style='background-image:url(a.png)'><img src='b.png'></div>".

Definition two_data_images : string :=
  "<img src='data:image/png;base64,AAAA'><img src='b.png'>".

Definition new_url : string := "data:image/png;base64,QQ==".

(** A paragraph whose class holds the separator of the addresses. *)
Definition barred_page : string := "<p class='a|b'>Hi</p>".

(** A host that knows no type, on which every file has the suffix [.PNG]
    and the given content. *)
Definition png_host (content : list Byte.byte) : FileHost :=
  {| guess_type := fun _ => None;
     suffix := fun _ => ".PNG";
     read_bytes := fun _ => Some content |}.


(* ------------------------------------------------------------------ *)
(** * Lists, folds and strings *)
(* ------------------------------------------------------------------ *)


Lemma filter_map_In {A B : Type} (f : A -> option B) (l : list A) (y : B) :
  In y (filter_map f l) <-> exists x, In x l /\ f x = Some y.
Proof.
  induction l as [|x l IH]; simpl.
  - split; [tauto | intros (x & [] & _)].
  - destruct (f x) eqn:E; simpl; rewrite IH; split.
    + intros [<- | (x' & Hin & Hf)]; eauto.
    + intros (x' & [<- | Hin] & Hf); [left; congruence | right; eauto].
    + intros (x' & Hin & Hf); eauto.
    + intros (x' & [<- | Hin] & Hf); [congruence | eauto].
Qed.

Lemma imap_length {A B : Type} (f : nat -> A -> B) (l : list A) (i : nat) :
  List.length (imap f i l) = List.length l.
Proof. revert i; induction l as [|x l IH]; intros i; simpl; [reflexivity | now rewrite IH]. Qed.

Lemma imap_app {A B : Type} (f : nat -> A -> B) (l1 l2 : list A) (i : nat) :
  imap f i (l1 ++ l2) = (imap f i l1 ++ imap f (i + List.length l1) l2)%list.
Proof.
  revert i; induction l1 as [|x l1 IH]; intros i; simpl.
  - now rewrite Nat.add_0_r.
  - rewrite IH. now replace (S i + List.length l1) with (i + S (List.length l1)) by lia.
Qed.

Lemma imap_pair_In {A : Type} (l : list A) (i k : nat) (x : A) :
  In (k, x) (imap (fun i x => (i, x)) i l) ->
  i <= k /\ nth_error l (k - i) = Some x.
Proof.
  revert i; induction l as [|y l IH]; intros i; simpl; [tauto|].
  intros [E | Hin].
  - inversion E; subst. split; [lia|]. now rewrite Nat.sub_diag.
  - apply IH in Hin as [Hle Hnth]. split; [lia|].
    replace (k - i) with (S (k - S i)) by lia. exact Hnth.
Qed.

Lemma nth_error_imap_pair {A : Type} (l : list A) (i n : nat) :
  nth_error (imap (fun i x => (i, x)) i l) n
  = option_map (fun x => (i + n, x)) (nth_error l n).
Proof.
  revert i n; induction l as [|y l IH]; intros i [|n]; simpl; try reflexivity.
  - now rewrite Nat.add_0_r.
  - rewrite IH. now replace (S i + n) with (i + S n) by lia.
Qed.

Lemma fold_left_invariant {A B : Type} (P : A -> Prop) (f : A -> B -> A)
  (l : list B) (x : A) :
  P x -> (forall x y, P x -> In y l -> P (f x y)) -> P (fold_left f l x).
Proof.
  revert x; induction l as [|y l IH]; intros x Hx Hstep; simpl; [exact Hx|].
  apply IH; [apply Hstep; simpl; auto | intros; apply Hstep; simpl; auto].
Qed.

Lemma fold_left_fixed {A B : Type} (f : A -> B -> A) (l : list B) (x : A) :
  (forall y, In y l -> forall x, f x y = x) -> fold_left f l x = x.
Proof.
  induction l as [|y l IH]; intros H; simpl; [reflexivity|].
  rewrite H by (simpl; auto). apply IH. intros; apply H; simpl; auto.
Qed.

Lemma text_key_is_not_status_key (k : string) :
  startswith "TEXT|" k = true -> startswith "STATUS|" k = false.
Proof.
  unfold startswith. generalize (chars k) as l. intros [|c l].
  - discriminate.
  - change (chars "TEXT|") with ("T" :: chars "EXT|")%char%list.
    change (chars "STATUS|") with ("S" :: chars "TATUS|")%char%list.
    cbn [starts_with]. destruct (Ascii.eqb "T" c) eqn:E; [|discriminate].
    apply Ascii.eqb_eq in E; subst c. reflexivity.
Qed.


(* ------------------------------------------------------------------ *)
(** * Text extraction: the order of the entries *)
(* ------------------------------------------------------------------ *)

Lemma number_candidates_kind (counters : list ((string * string) * nat))
  (l : list (string * string * string)) :
  Forall (fun r => kind r = "text") (number_candidates counters l).
Proof.
  revert counters; induction l as [|[[t c] x] l IH]; intros counters; simpl;
    constructor; [reflexivity | apply IH].
Qed.

Lemma number_candidates_shape (counters : list ((string * string) * nat))
  (l : list (string * string * string)) :
  map (fun r => (tag_name r, class_str r, display r)) (number_candidates counters l) = l.
Proof.
  revert counters; induction l as [|[[t c] x] l IH]; intros counters; simpl;
    [reflexivity | now rewrite IH].
Qed.

Lemma number_candidates_no_status (counters : list ((string * string) * nat))
  (l : list (string * string * string)) :
  filter is_status_ref (number_candidates counters l) = [].
Proof.
  revert counters; induction l as [|[[t c] x] l IH]; intros counters; simpl;
    [reflexivity | apply IH].
Qed.

Section StatusNodes.
Context {adapter : TreeAdapter}.

Lemma status_nodes_kind (texts : list (string * string)) :
  Forall (fun r => kind r = "status") (status_nodes_of texts).
Proof.
  unfold status_nodes_of, STATUSES; simpl.
  repeat match goal with
         | |- context [assoc ?s texts] => destruct (assoc s texts)
         end; repeat constructor.
Qed.

Lemma status_nodes_keys (texts : list (string * string)) :
  map key (status_nodes_of texts)
  = map (fun st => "STATUS|" ++ st)
      (filter (fun st => match assoc st texts with Some _ => true | None => false end)
              STATUSES).
Proof.
  unfold status_nodes_of, STATUSES; simpl.
  repeat match goal with
         | |- context [assoc ?s texts] => destruct (assoc s texts)
         end; reflexivity.
Qed.

Lemma status_nodes_all_status (texts : list (string * string)) :
  filter is_status_ref (status_nodes_of texts) = status_nodes_of texts.
Proof.
  unfold status_nodes_of, STATUSES; simpl.
  repeat match goal with
         | |- context [assoc ?s texts] => destruct (assoc s texts)
         end; reflexivity.
Qed.

End StatusNodes.

(** C10. The list [extract_text_nodes] returns is the plain entries, which
    are the candidates of the traversal in its order, followed by the status
    entries, whose keys follow the order of [STATUSES]. *)
Theorem plain_entries_precede_status_entries {adapter : TreeAdapter} (html : string) :
  exists plain status : list TextNodeRef,
    extract_text_nodes html = (plain ++ status)%list
    /\ Forall (fun r => kind r = "text") plain
    /\ map (fun r => (tag_name r, class_str r, display r)) plain = text_candidates html
    /\ Forall (fun r => kind r = "status") status
    /\ exists present : string -> bool,
         map key status = map (fun st => "STATUS|" ++ st) (filter present STATUSES).
Proof.
  exists (number_candidates [] (text_candidates html)).
  exists (status_nodes_of (_extract_status_texts_from_p_status html)).
  split; [reflexivity|].
  split; [apply number_candidates_kind|].
  split; [apply number_candidates_shape|].
  split; [apply status_nodes_kind|].
  eexists. apply status_nodes_keys.
Qed.

(* ------------------------------------------------------------------ *)
(** * Text patching: the empty edit set and stale addresses *)
(* ------------------------------------------------------------------ *)

Lemma apply_no_edits {adapter : TreeAdapter} (html : string) :
  apply_text_edits html [] = decode (parse html).
Proof. reflexivity. Qed.

Lemma extract_text_nodes_of_tree {adapter : TreeAdapter} (html html' : string) :
  parse html' = parse html -> extract_text_nodes html' = extract_text_nodes html.
Proof.
  intros H. unfold extract_text_nodes, text_candidates, _extract_status_texts_from_p_status.
  now rewrite H.
Qed.

(** C3. With the empty edit set, [apply_text_edits] returns the
    serialization of the document it read; when reading that serialization
    gives the same tree again, extraction on the result yields the same
    entries, hence the same addresses and display texts. *)
Theorem empty_edit_set_is_noop {adapter : TreeAdapter} (html : string) :
  parse (decode (parse html)) = parse html ->
  extract_text_nodes (apply_text_edits html []) = extract_text_nodes html
  /\ map (fun r => (key r, display r)) (extract_text_nodes (apply_text_edits html []))
     = map (fun r => (key r, display r)) (extract_text_nodes html).
Proof.
  intros H. rewrite apply_no_edits.
  rewrite (extract_text_nodes_of_tree html (decode (parse html)) H). split; reflexivity.
Qed.



(* ------------------------------------------------------------------ *)
(** * Image extraction: one entry per item *)
(* ------------------------------------------------------------------ *)

Section Scan.
Context {adapter : TreeAdapter} {codec : ImageCodec}.

Lemma run_items_nil (st : scan_state) : run_items st [] = st.
Proof.
  destruct st as [c es]; unfold run_items; simpl.
  now rewrite Nat.add_0_r, app_nil_r.
Qed.

Lemma run_items_cons (st : scan_state) (source u : string) (loc : ImageLocator)
  (items : list image_item) :
  run_items st ((source, u, loc) :: items) = run_items (emit source u loc st) items.
Proof.
  destruct st as [c es]; unfold run_items, emit; simpl.
  rewrite <- app_assoc. simpl. f_equal. lia.
Qed.

Lemma number_entries_app (c : nat) (l1 l2 : list image_item) :
  number_entries c (l1 ++ l2)
  = (number_entries c l1 ++ number_entries (c + List.length l1) l2)%list.
Proof.
  revert c; induction l1 as [|[[s u] loc] l1 IH]; intros c; simpl.
  - now rewrite Nat.add_0_r.
  - rewrite IH. now replace (c + 1 + List.length l1) with (c + S (List.length l1)) by lia.
Qed.

Lemma run_items_app (st : scan_state) (l1 l2 : list image_item) :
  run_items (run_items st l1) l2 = run_items st (l1 ++ l2).
Proof.
  destruct st as [c es]; unfold run_items; simpl.
  rewrite number_entries_app, length_app, <- app_assoc. f_equal. lia.
Qed.

Lemma scan_imgs_fold (l : list (nat * (path * node))) (st : scan_state) :
  fold_left (fun st ix =>
               let '(idx, img) := ix in
               let src := src_of (snd img) in
               if is_empty src then st
               else emit "img-tag" src (mkImageLocator "img" (Z.of_nat idx) 0) st) l st
  = run_items st
      (filter_map (fun ix : nat * (path * node) =>
                     let src := src_of (snd (snd ix)) in
                     if is_empty src then None
                     else Some ("img-tag", src, mkImageLocator "img" (Z.of_nat (fst ix)) 0)) l).
Proof.
  revert st; induction l as [|[idx img] l IH]; intros st; simpl.
  - now rewrite run_items_nil.
  - destruct (is_empty (src_of (snd img))); rewrite IH; [reflexivity|].
    now rewrite run_items_cons.
Qed.

Lemma scan_imgs_items (imgs : list (path * node)) (st : scan_state) :
  scan_imgs imgs st = run_items st (img_items imgs).
Proof. apply scan_imgs_fold. Qed.

Lemma scan_urls_fold (kind_ : string) (tag_idx : nat) (l : list (nat * string))
  (st : scan_state) :
  fold_left (fun st mu =>
               let '(match_idx, u) := mu in
               let u := strip u in
               if is_empty u then st
               else emit "background-image" u
                      (mkImageLocator kind_ (Z.of_nat tag_idx) (Z.of_nat match_idx)) st) l st
  = run_items st
      (filter_map (fun mu : nat * string =>
                     let u := strip (snd mu) in
                     if is_empty u then None
                     else Some ("background-image", u,
                                mkImageLocator kind_ (Z.of_nat tag_idx) (Z.of_nat (fst mu)))) l).
Proof.
  revert st; induction l as [|[idx u] l IH]; intros st; simpl.
  - now rewrite run_items_nil.
  - destruct (is_empty (strip u)); rewrite IH; [reflexivity|].
    now rewrite run_items_cons.
Qed.

Lemma scan_urls_items (kind_ : string) (tag_idx : nat) (urls : list string)
  (st : scan_state) :
  scan_urls kind_ tag_idx urls st = run_items st (url_items kind_ tag_idx urls).
Proof. apply scan_urls_fold. Qed.

Lemma scan_tags_fold (kind_ : string) (text_of : node -> string)
  (l : list (path * node)) (i : nat) (st : scan_state) :
  fold_left (fun st it =>
               let '(idx, tag) := it in
               scan_urls kind_ idx (Re.findall1 BG_URL_RE (text_of (snd tag))) st)
            (imap (fun i x => (i, x)) i l) st
  = run_items st
      (List.concat (imap (fun i tag => url_items kind_ i
                                         (Re.findall1 BG_URL_RE (text_of (snd tag)))) i l)).
Proof.
  revert i st; induction l as [|tag l IH]; intros i st; simpl.
  - now rewrite run_items_nil.
  - rewrite IH, scan_urls_items. apply run_items_app.
Qed.

Lemma scan_inline_styles_items (tags : list (path * node)) (st : scan_state) :
  scan_inline_styles tags st = run_items st (inline_items tags).
Proof. apply (scan_tags_fold "inline_style" style_of). Qed.

Lemma scan_style_blocks_items (blocks : list (path * node)) (st : scan_state) :
  scan_style_blocks blocks st = run_items st (block_items blocks).
Proof. apply (scan_tags_fold "style_tag" get_text). Qed.

(** The three passes emit one entry per item, in the order of the items,
    numbered from 1. *)
Lemma extract_images_items (html : string) :
  extract_images html = number_entries 0 (image_items (parse html)).
Proof.
  unfold extract_images, image_items.
  rewrite scan_imgs_items, scan_inline_styles_items, scan_style_blocks_items.
  rewrite !run_items_app. reflexivity.
Qed.

Lemma locator_entry_of (id source u : string) (loc : ImageLocator) :
  locator (entry_of id source u loc) = loc.
Proof. unfold entry_of. destruct (Re.rmatch_at_start DATA_URL_RE u); reflexivity. Qed.

Lemma source_entry_of (id src_kind u : string) (loc : ImageLocator) :
  source (entry_of id src_kind u loc) = src_kind.
Proof. unfold entry_of. destruct (Re.rmatch_at_start DATA_URL_RE u); reflexivity. Qed.

Lemma img_id_entry_of (id source u : string) (loc : ImageLocator) :
  img_id (entry_of id source u loc) = id.
Proof. unfold entry_of. destruct (Re.rmatch_at_start DATA_URL_RE u); reflexivity. Qed.

Lemma number_entries_locators (c : nat) (items : list image_item) :
  map locator (number_entries c items) = map snd items.
Proof.
  revert c; induction items as [|[[s u] loc] items IH]; intros c; simpl; [reflexivity|].
  now rewrite IH, locator_entry_of.
Qed.

Lemma number_entries_In (c : nat) (items : list image_item) (e : ImageEntry) :
  In e (number_entries c items) ->
  exists id source u loc, In (source, u, loc) items /\ e = entry_of id source u loc.
Proof.
  revert c; induction items as [|[[s u] loc] items IH]; intros c; simpl; [tauto|].
  intros [<- | Hin].
  - eauto 8.
  - apply IH in Hin as (id & s' & u' & loc' & Hin & ->). eauto 8.
Qed.

End Scan.

(* ------------------------------------------------------------------ *)
(** * The tree: found elements and updates *)
(* ------------------------------------------------------------------ *)

Lemma concat_imap_In {A B : Type} (f : nat -> A -> list B) (l : list A) (i : nat) (x : B) :
  In x (List.concat (imap f i l)) ->
  exists k y, i <= k /\ nth_error l (k - i) = Some y /\ In x (f k y).
Proof.
  revert i; induction l as [|y l IH]; intros i; simpl; [tauto|].
  rewrite in_app_iff. intros [Hin | Hin].
  - exists i, y. rewrite Nat.sub_diag. auto.
  - apply IH in Hin as (k & z & Hle & Hnth & Hin).
    exists k, z. split; [lia|]. split; [|exact Hin].
    replace (k - i) with (S (k - S i)) by lia. exact Hnth.
Qed.

Lemma lookup_cons (i : nat) (r : path) (s : soup) :
  lookup (i :: r) s
  = match nth_error s i with Some n => sub_node n r | None => None end.
Proof. destruct r; simpl; [destruct (nth_error s i)|]; reflexivity. Qed.

Lemma tags_of_sub_node (n : node) :
  forall (p q : path) (m : node),
    In (q, m) (tags_of p n) -> exists r, q = (p ++ r)%list /\ sub_node n r = Some m.
Proof.
  induction n as [k s | nm at_ cs IH] using node_induction; intros p q m; simpl; [tauto|].
  intros [E | Hin].
  - inversion E; subst. exists []. now rewrite app_nil_r.
  - apply concat_imap_In in Hin as (i & c & _ & Hnth & Hin).
    rewrite Nat.sub_0_r in Hnth.
    rewrite Forall_forall in IH.
    destruct (IH c (nth_error_In _ _ Hnth) _ _ _ Hin) as (r & -> & Hsub).
    exists (i :: r). rewrite <- app_assoc. split; [reflexivity|].
    unfold sub_node at 1. rewrite lookup_cons. simpl. now rewrite Hnth.
Qed.

Lemma tags_of_is_tag (n : node) :
  forall (p q : path) (m : node), In (q, m) (tags_of p n) -> is_tag m = true.
Proof.
  induction n as [k s | nm at_ cs IH] using node_induction; intros p q m; simpl; [tauto|].
  intros [E | Hin]; [inversion E; reflexivity|].
  apply concat_imap_In in Hin as (i & c & _ & Hnth & Hin).
  rewrite Nat.sub_0_r in Hnth. rewrite Forall_forall in IH.
  eapply IH; [eapply nth_error_In; eassumption | eassumption].
Qed.

Lemma find_all_is_tag (names : list string) (s : soup) (q : path) (m : node) :
  In (q, m) (find_all names s) -> is_tag m = true.
Proof.
  unfold find_all, all_tags. rewrite filter_In. intros [Hin _].
  apply concat_imap_In in Hin as (i & c & _ & _ & Hin).
  eapply tags_of_is_tag; eassumption.
Qed.

(** An element found by a search sits at the path it was found with. *)
Lemma all_tags_lookup (s : soup) (q : path) (m : node) :
  In (q, m) (all_tags s) -> lookup q s = Some m.
Proof.
  unfold all_tags. intros Hin.
  apply concat_imap_In in Hin as (i & c & _ & Hnth & Hin).
  rewrite Nat.sub_0_r in Hnth.
  apply tags_of_sub_node in Hin as (r & -> & Hsub).
  change ([i] ++ r)%list with (i :: r). rewrite lookup_cons, Hnth. exact Hsub.
Qed.

Lemma find_all_lookup (names : list string) (s : soup) (q : path) (m : node) :
  In (q, m) (find_all names s) -> lookup q s = Some m.
Proof. unfold find_all. rewrite filter_In. intros [H _]. now apply all_tags_lookup. Qed.

Lemma nth_error_map_nth_same {A : Type} (f : A -> A) (l : list A) (i : nat) :
  nth_error (map_nth i f l) i = option_map f (nth_error l i).
Proof. revert i; induction l as [|x l IH]; intros [|i]; simpl; auto. Qed.

Lemma nth_error_map_nth_other {A : Type} (f : A -> A) (l : list A) (i j : nat) :
  i <> j -> nth_error (map_nth i f l) j = nth_error l j.
Proof.
  revert i j; induction l as [|x l IH]; intros [|i] [|j] H; simpl; auto; try congruence.
Qed.

Lemma lookup_nil (p : path) : lookup p [] = None.
Proof. destruct p as [|j [|j' p]]; simpl; try reflexivity; now destruct j. Qed.

(** After an update at [p], the element at [p] is the image of the old one. *)
Lemma lookup_update_same (f : node -> node) (p : path) :
  forall s : soup, lookup p (update p f s) = option_map f (lookup p s).
Proof.
  induction p as [|i p IH]; intros s; [reflexivity|].
  destruct p as [|j p].
  - simpl. apply nth_error_map_nth_same.
  - change (update (i :: j :: p) f s)
      with (map_nth i (on_contents (update (j :: p) f)) s).
    rewrite !lookup_cons, nth_error_map_nth_same.
    destruct (nth_error s i) as [n|]; [|reflexivity]. cbn [option_map].
    destruct n as [k t | nm at_ cs]; cbn [sub_node on_contents tag_contents].
    + now rewrite lookup_nil.
    + apply IH.
Qed.

(** An update at [p] leaves alone every element that is neither the one at
    [p], nor above it, nor below it. *)
Lemma lookup_update_apart (f : node -> node) (p : path) :
  forall (q : path) (s : soup),
    is_prefix p q = false -> is_prefix q p = false ->
    lookup q (update p f s) = lookup q s.
Proof.
  induction p as [|i p IH]; intros q s Hpq Hqp; [discriminate|].
  destruct q as [|j q]; [discriminate|].
  simpl in Hpq, Hqp.
  destruct (Nat.eqb_spec i j) as [<- | Hne].
  - rewrite Nat.eqb_refl in Hqp. simpl in Hpq, Hqp.
    destruct p as [|i' p]; [discriminate|].
    destruct q as [|j' q]; [discriminate|].
    change (update (i :: i' :: p) f s)
      with (map_nth i (on_contents (update (i' :: p) f)) s).
    rewrite !lookup_cons, nth_error_map_nth_same.
    destruct (nth_error s i) as [n|]; [|reflexivity]. cbn [option_map].
    destruct n as [k t | nm at_ cs]; cbn [sub_node on_contents tag_contents];
      [reflexivity|].
    apply IH; assumption.
  - rewrite !lookup_cons.
    assert (E : nth_error (update (i :: p) f s) j = nth_error s j).
    { destruct p; simpl; apply nth_error_map_nth_other; assumption. }
    now rewrite E.
Qed.

Lemma get_assoc_set_same (k v : string) (l : list (string * string)) :
  assoc k (assoc_set k v l) = Some v.
Proof.
  induction l as [|[k' v'] l IH]; simpl.
  - now rewrite String.eqb_refl.
  - destruct (String.eqb k k') eqn:E; simpl; [now rewrite String.eqb_refl | now rewrite E].
Qed.

Lemma get_assoc_set_other (k k' v : string) (l : list (string * string)) :
  k' <> k -> assoc k' (assoc_set k v l) = assoc k' l.
Proof.
  intros Hne. induction l as [|[k0 v0] l IH]; simpl.
  - destruct (String.eqb_spec k' k); [contradiction | reflexivity].
  - destruct (String.eqb_spec k k0) as [<- | Hk]; simpl.
    + destruct (String.eqb_spec k' k); [contradiction | reflexivity].
    + destruct (String.eqb k' k0); [reflexivity | exact IH].
Qed.

(** [tag[key] = v] touches the value of [key] only. *)
Lemma set_attr_frame (key v : string) (n : node) :
  Soup.tag_name (set_attr key v n) = Soup.tag_name n
  /\ tag_contents (set_attr key v n) = tag_contents n
  /\ (is_tag n = true -> get key (set_attr key v n) = Some v)
  /\ forall k, k <> key -> get k (set_attr key v n) = get k n.
Proof.
  destruct n as [k s | nm at_ cs]; simpl; repeat split; try discriminate; try reflexivity.
  - intros _. apply get_assoc_set_same.
  - intros k Hk. now apply get_assoc_set_other.
Qed.

(* ------------------------------------------------------------------ *)
(** * Image replacement: range checks *)
(* ------------------------------------------------------------------ *)

Lemma in_range_Z_of_nat (i n : nat) : i < n -> in_range_Z (Z.of_nat i) n = true.
Proof.
  intros H. unfold in_range_Z. apply andb_true_iff. split.
  - apply Z.leb_le. lia.
  - apply Z.ltb_lt. lia.
Qed.

Lemma nth_error_in_range {A : Type} (l : list A) (i : nat) (x : A) :
  nth_error l i = Some x -> in_range_Z (Z.of_nat i) (List.length l) = true.
Proof.
  intros H. apply in_range_Z_of_nat. apply nth_error_Some. congruence.
Qed.

Section Replace.
Context {adapter : TreeAdapter}.

Lemma replace_img_at (html url : string) (idx : nat) (b : Z) (img : path * node) :
  nth_error (find_all ["img"] (parse html)) idx = Some img ->
  replace_image_in_html html (mkImageLocator "img" (Z.of_nat idx) b) url
  = Return (decode (update (fst img) (set_attr "src" url) (parse html))).
Proof.
  intros H. unfold replace_image_in_html. cbn [loc_kind a].
  change (String.eqb "img" "img") with true. cbv iota.
  rewrite (nth_error_in_range _ _ H), Nat2Z.id, H. reflexivity.
Qed.

Lemma replace_inline_at (html url old : string) (idx m : nat) (tag : path * node) :
  nth_error (find_all_with_attr "style" (parse html)) idx = Some tag ->
  nth_error (Re.findall1 BG_URL_RE (style_of (snd tag))) m = Some old ->
  replace_image_in_html html
    (mkImageLocator "inline_style" (Z.of_nat idx) (Z.of_nat m)) url
  = Return (decode (update (fst tag)
                      (set_attr "style" (replace_first old url (style_of (snd tag))))
                      (parse html))).
Proof.
  intros H Hm. unfold replace_image_in_html. cbn [loc_kind a b].
  change (String.eqb "inline_style" "img") with false.
  change (String.eqb "inline_style" "inline_style") with true. cbv iota.
  rewrite (nth_error_in_range _ _ H), Nat2Z.id, H. cbn [negb].
  rewrite (nth_error_in_range _ _ Hm), Nat2Z.id, Hm. reflexivity.
Qed.

Lemma replace_block_at (html url old : string) (idx m : nat) (blk : path * node) :
  nth_error (find_all ["style"] (parse html)) idx = Some blk ->
  nth_error (Re.findall1 BG_URL_RE (get_text (snd blk))) m = Some old ->
  replace_image_in_html html
    (mkImageLocator "style_tag" (Z.of_nat idx) (Z.of_nat m)) url
  = Return (decode (update (fst blk)
                      (set_string (replace_first old url (get_text (snd blk))))
                      (parse html))).
Proof.
  intros H Hm. unfold replace_image_in_html. cbn [loc_kind a b].
  change (String.eqb "style_tag" "img") with false.
  change (String.eqb "style_tag" "inline_style") with false.
  change (String.eqb "style_tag" "style_tag") with true. cbv iota.
  rewrite (nth_error_in_range _ _ H), Nat2Z.id, H. cbn [negb].
  rewrite (nth_error_in_range _ _ Hm), Nat2Z.id, Hm. reflexivity.
Qed.

Lemma img_items_In (imgs : list (path * node)) (it : image_item) :
  In it (img_items imgs) ->
  exists idx img, snd it = mkImageLocator "img" (Z.of_nat idx) 0
                  /\ nth_error imgs idx = Some img.
Proof.
  unfold img_items. rewrite filter_map_In. intros ([idx img] & Hin & Hf).
  apply imap_pair_In in Hin as [_ Hnth]. rewrite Nat.sub_0_r in Hnth.
  cbn [fst snd] in Hf. destruct (is_empty (src_of (snd img))); [discriminate|].
  inversion Hf; subst. exists idx, img. auto.
Qed.

Lemma url_items_In (kind_ : string) (tag_idx : nat) (urls : list string) (it : image_item) :
  In it (url_items kind_ tag_idx urls) ->
  exists m old, snd it = mkImageLocator kind_ (Z.of_nat tag_idx) (Z.of_nat m)
                /\ nth_error urls m = Some old.
Proof.
  unfold url_items. rewrite filter_map_In. intros ([m old] & Hin & Hf).
  apply imap_pair_In in Hin as [_ Hnth]. rewrite Nat.sub_0_r in Hnth.
  cbn [fst snd] in Hf. destruct (is_empty (strip old)); [discriminate|].
  inversion Hf; subst. exists m, old. auto.
Qed.

(** Every item of the scan carries a locator of a known kind that
    [replace_image_in_html] accepts on the same document. *)
Lemma image_items_accepted (html url : string) (it : image_item) :
  In it (image_items (parse html)) ->
  In (loc_kind (snd it)) LOCATOR_KINDS
  /\ exists out, replace_image_in_html html (snd it) url = Return out.
Proof.
  unfold image_items, LOCATOR_KINDS. rewrite !in_app_iff. intros [Hin | [Hin | Hin]].
  - apply img_items_In in Hin as (idx & img & -> & Hnth).
    split; [simpl; auto|].
    eexists. apply replace_img_at. exact Hnth.
  - unfold inline_items in Hin.
    apply concat_imap_In in Hin as (idx & tag & _ & Hnth & Hin).
    rewrite Nat.sub_0_r in Hnth.
    apply url_items_In in Hin as (m & old & -> & Hm).
    split; [simpl; auto|].
    eexists. eapply replace_inline_at; eassumption.
  - unfold block_items in Hin.
    apply concat_imap_In in Hin as (idx & blk & _ & Hnth & Hin).
    rewrite Nat.sub_0_r in Hnth.
    apply url_items_In in Hin as (m & old & -> & Hm).
    split; [simpl; auto|].
    eexists. eapply replace_block_at; eassumption.
Qed.

End Replace.

(** C9. The locator of every entry [extract_images] returns is accepted by
    [replace_image_in_html] on the same document: its kind is known, both
    its indices are in range, and a document is returned. *)
Theorem extracted_locator_is_accepted {adapter : TreeAdapter} {codec : ImageCodec}
  (html url : string) (e : ImageEntry) :
  In e (extract_images html) ->
  In (loc_kind (locator e)) LOCATOR_KINDS
  /\ out_of_range html (locator e) = false
  /\ exists out, replace_image_in_html html (locator e) url = Return out.
Proof.
  rewrite extract_images_items. intros Hin.
  apply number_entries_In in Hin as (id & src_kind & u & loc & Hin & ->).
  rewrite locator_entry_of.
  destruct (image_items_accepted html url _ Hin) as [Hkind [out Hout]].
  cbn [snd] in Hkind, Hout.
  split; [exact Hkind|]. split; [|eauto].
  revert Hout. unfold out_of_range, replace_image_in_html, locator_candidates, locator_urls.
  destruct (String.eqb (loc_kind loc) "img") eqn:E1.
  { destruct (negb (in_range_Z (a loc) (List.length (find_all ["img"] (parse html)))));
      [discriminate|].
    destruct (nth_error (find_all ["img"] (parse html)) (Z.to_nat (a loc)));
      [|discriminate].
    apply String.eqb_eq in E1. rewrite E1. reflexivity. }
  destruct (String.eqb (loc_kind loc) "inline_style") eqn:E2.
  { destruct (negb (in_range_Z (a loc) _)); [discriminate|].
    destruct (nth_error _ (Z.to_nat (a loc))); [|discriminate].
    destruct (negb (in_range_Z (b loc) _)); [discriminate | reflexivity]. }
  destruct (String.eqb (loc_kind loc) "style_tag") eqn:E3; [|reflexivity].
  destruct (negb (in_range_Z (a loc) _)); [discriminate|].
  destruct (nth_error _ (Z.to_nat (a loc))); [|discriminate].
  destruct (negb (in_range_Z (b loc) _)); [discriminate | reflexivity].
Qed.

(** C6. When an index of the locator is out of range for the document,
    [replace_image_in_html] raises one of its index errors; no document is
    returned. *)
Theorem out_of_range_locator_is_refused {adapter : TreeAdapter}
  (html url : string) (loc : ImageLocator) :
  out_of_range html loc = true ->
  exists e, replace_image_in_html html loc url = Raise e /\ e <> UnknownLocatorKind.
Proof.
  unfold out_of_range, replace_image_in_html, locator_candidates, locator_urls.
  destruct (String.eqb (loc_kind loc) "img") eqn:E1.
  { destruct (negb (in_range_Z (a loc) _)).
    - intros _. eexists; split; [reflexivity | discriminate].
    - destruct (nth_error _ (Z.to_nat (a loc))).
      + apply String.eqb_eq in E1. rewrite E1. discriminate.
      + intros _. eexists; split; [reflexivity | discriminate]. }
  destruct (String.eqb (loc_kind loc) "inline_style") eqn:E2.
  { destruct (negb (in_range_Z (a loc) _)).
    - intros _. eexists; split; [reflexivity | discriminate].
    - destruct (nth_error _ (Z.to_nat (a loc))).
      + destruct (negb (in_range_Z (b loc) _)); [|discriminate].
        intros _. eexists; split; [reflexivity | discriminate].
      + intros _. eexists; split; [reflexivity | discriminate]. }
  destruct (String.eqb (loc_kind loc) "style_tag") eqn:E3; [|discriminate].
  destruct (negb (in_range_Z (a loc) _)).
  - intros _. eexists; split; [reflexivity | discriminate].
  - destruct (nth_error _ (Z.to_nat (a loc))).
    + destruct (negb (in_range_Z (b loc) _)); [|discriminate].
      intros _. eexists; split; [reflexivity | discriminate].
    + intros _. eexists; split; [reflexivity | discriminate].
Qed.

(* ------------------------------------------------------------------ *)
(** * Image extraction: bad payloads, and a document with three images *)
(* ------------------------------------------------------------------ *)

Lemma is_empty_false (s : string) : s <> "" -> is_empty s = false.
Proof. destruct s; [congruence | reflexivity]. Qed.

Section Entries.
Context {adapter : TreeAdapter} {codec : ImageCodec}.

Lemma nth_error_number_entries (c k : nat) (items : list image_item)
  (src_kind u : string) (loc : ImageLocator) :
  nth_error items k = Some (src_kind, u, loc) ->
  nth_error (number_entries c items) k
  = Some (entry_of ("IMG" ++ of_nat_03d (c + k + 1)) src_kind u loc).
Proof.
  revert c k; induction items as [|[[s' u'] loc'] items IH]; intros c [|k] H;
    try discriminate; simpl in *.
  - inversion H; subst. now rewrite Nat.add_0_r.
  - rewrite (IH _ _ H). now replace (c + 1 + k + 1) with (c + S k + 1) by lia.
Qed.

Lemma number_entries_length (c : nat) (items : list image_item) :
  List.length (number_entries c items) = List.length items.
Proof.
  revert c; induction items as [|[[s u] loc] items IH]; intros c; simpl;
    [reflexivity | now rewrite IH].
Qed.

(** A data URL whose payload the decoder refuses. *)
Lemma entry_of_bad_payload (id src_kind u : string) (loc : ImageLocator) (m : Re.rmatch) :
  Re.rmatch_at_start DATA_URL_RE u = Some m ->
  b64decode (payload_of m) = None ->
  bytes_data (entry_of id src_kind u loc) = Some []
  /\ width (entry_of id src_kind u loc) = None
  /\ height (entry_of id src_kind u loc) = None.
Proof.
  intros Hm Hd. unfold entry_of. rewrite Hm. fold (payload_of m). rewrite Hd.
  repeat split.
Qed.

(** A data URL whose bytes cannot be probed. *)
Lemma entry_of_unprobed (id src_kind u : string) (loc : ImageLocator) (m : Re.rmatch)
  (d : list Byte.byte) :
  Re.rmatch_at_start DATA_URL_RE u = Some m ->
  b64decode (payload_of m) = Some d ->
  PIL_OK = false \/ image_size d = None ->
  bytes_data (entry_of id src_kind u loc) = Some d
  /\ width (entry_of id src_kind u loc) = None
  /\ height (entry_of id src_kind u loc) = None.
Proof.
  intros Hm Hd Hp. unfold entry_of. rewrite Hm. fold (payload_of m). rewrite Hd.
  assert (E : _detect_size_from_bytes d = (None, None)).
  { unfold _detect_size_from_bytes. destruct Hp as [-> | ->]; [reflexivity|].
    now destruct (negb PIL_OK). }
  destruct d as [|x d]; [repeat split|]. rewrite E. repeat split.
Qed.

Lemma block_items_nil (blocks : list (path * node)) :
  (forall blk, In blk blocks -> Re.findall1 BG_URL_RE (get_text (snd blk)) = []) ->
  block_items blocks = [].
Proof.
  unfold block_items. generalize 0 as i.
  induction blocks as [|blk blocks IH]; intros i H; simpl; [reflexivity|].
  rewrite (H blk) by (simpl; auto). rewrite IH by (intros; apply H; simpl; auto).
  reflexivity.
Qed.

End Entries.

(** C8. Whatever the decoder and the probe do, the [k]-th item of the scan
    yields the [k]-th entry, with its own locator and number; when the item
    is a data URL whose payload does not decode, the entry has an empty byte
    payload and no size; when the bytes cannot be probed, the entry keeps
    them and has no size. *)
Theorem bad_image_degrades_its_own_entry {adapter : TreeAdapter} {codec : ImageCodec}
  (html : string) :
  List.length (extract_images html) = List.length (image_items (parse html))
  /\ forall (k : nat) (src_kind u : string) (loc : ImageLocator),
       nth_error (image_items (parse html)) k = Some (src_kind, u, loc) ->
       exists e,
         nth_error (extract_images html) k = Some e
         /\ locator e = loc /\ source e = src_kind
         /\ img_id e = "IMG" ++ of_nat_03d (k + 1)
         /\ (forall m, Re.rmatch_at_start DATA_URL_RE u = Some m ->
                       b64decode (payload_of m) = None ->
                       bytes_data e = Some [] /\ width e = None /\ height e = None)
         /\ (forall m d, Re.rmatch_at_start DATA_URL_RE u = Some m ->
                         b64decode (payload_of m) = Some d ->
                         PIL_OK = false \/ image_size d = None ->
                         bytes_data e = Some d /\ width e = None /\ height e = None).
Proof.
  rewrite extract_images_items. split; [apply number_entries_length|].
  intros k src_kind u loc Hk.
  eexists. split; [apply (nth_error_number_entries 0 _ _ Hk)|].
  rewrite locator_entry_of, source_entry_of, img_id_entry_of.
  do 3 (split; [reflexivity|]). split.
  - intros m Hm Hd. eapply entry_of_bad_payload; eassumption.
  - intros m d Hm Hd Hp. eapply entry_of_unprobed; eassumption.
Qed.

(** C5. In a document with two [img] tags, both with a source, one element
    with a [style] attribute, which holds one background URL, and no URL in
    a [style] block, [extract_images] returns three entries, located at
    [(img, 0, 0)], [(img, 1, 0)] and [(inline_style, 0, 0)]; replacing at
    the second locator returns the document in which the second [img] has
    the new [src], its name, contents and other attributes being the same,
    and every element apart from it being the same. *)
Theorem two_imgs_and_one_background {adapter : TreeAdapter} {codec : ImageCodec}
  (html url u : string) (img1 img2 styled : path * node) :
  find_all ["img"] (parse html) = [img1; img2] ->
  src_of (snd img1) <> "" ->
  src_of (snd img2) <> "" ->
  find_all_with_attr "style" (parse html) = [styled] ->
  Re.findall1 BG_URL_RE (style_of (snd styled)) = [u] ->
  strip u <> "" ->
  (forall blk, In blk (find_all ["style"] (parse html)) ->
               Re.findall1 BG_URL_RE (get_text (snd blk)) = []) ->
  map locator (extract_images html)
  = [mkImageLocator "img" 0 0; mkImageLocator "img" 1 0;
     mkImageLocator "inline_style" 0 0]
  /\ let soup' := update (fst img2) (set_attr "src" url) (parse html) in
     replace_image_in_html html (mkImageLocator "img" 1 0) url = Return (decode soup')
     /\ lookup (fst img2) soup' = Some (set_attr "src" url (snd img2))
     /\ get "src" (set_attr "src" url (snd img2)) = Some url
     /\ Soup.tag_name (set_attr "src" url (snd img2)) = Soup.tag_name (snd img2)
     /\ tag_contents (set_attr "src" url (snd img2)) = tag_contents (snd img2)
     /\ (forall k, k <> "src" ->
                   get k (set_attr "src" url (snd img2)) = get k (snd img2))
     /\ (forall q, is_prefix (fst img2) q = false -> is_prefix q (fst img2) = false ->
                   lookup q soup' = lookup q (parse html)).
Proof.
  intros Himgs H1 H2 Hstyled Hurls Hu Hblocks. split.
  - rewrite extract_images_items, number_entries_locators.
    unfold image_items. rewrite Himgs, Hstyled, (block_items_nil _ Hblocks).
    unfold img_items, inline_items, url_items. cbn [imap List.concat filter_map fst snd].
    rewrite Hurls. cbn [imap List.concat filter_map fst snd].
    rewrite (is_empty_false H1), (is_empty_false H2), (is_empty_false Hu).
    reflexivity.
  - assert (Hin : In img2 (find_all ["img"] (parse html))) by (rewrite Himgs; simpl; auto).
    destruct img2 as [p2 n2]. cbn [fst snd] in *.
    pose proof (find_all_lookup _ _ _ _ Hin) as Hlook.
    pose proof (find_all_is_tag _ _ _ _ Hin) as Htag.
    destruct (set_attr_frame "src" url n2) as (Hn & Hc & Hs & Ho).
    repeat split; auto.
    + change 1%Z with (Z.of_nat 1).
      apply (@replace_img_at _ html url 1 0%Z (p2, n2)). now rewrite Himgs.
    + rewrite lookup_update_same, Hlook. reflexivity.
    + intros q Hq1 Hq2. now apply lookup_update_apart.
Qed.

(* ------------------------------------------------------------------ *)
(** * The status container *)
(* ------------------------------------------------------------------ *)

Lemma chain_branches :
  branch_body "Platinum" status_chain = None
  /\ branch_body "Gold" status_chain = Some "Great job "
  /\ branch_body "Silver" status_chain = Some "Good job "
  /\ branch_body "Bronze" status_chain = None.
Proof. repeat split; vm_compute; reflexivity. Qed.

Lemma chain_gold_patched :
  replace_block "Gold" "Top" status_chain
  = gold_prefix ++ block_pad ++ "Top" ++ block_pad ++ silver_rest.
Proof. vm_compute. reflexivity. Qed.

Section StatusContainer.
Context {adapter : TreeAdapter}.

Lemma status_block_text_eq (inner status : string) :
  status_block_text inner status
  = match branch_body status inner with
    | None => None
    | Some block =>
        let text := norm (get_text_strip " " (parse block)) in
        if is_empty text then None else Some text
    end.
Proof.
  unfold status_block_text, branch_body.
  now destruct (Re.search (status_pattern status) inner).
Qed.

Lemma chain_status_texts (html : string) (p_path : path) (p : node) :
  find_with_class "p" "status" (parse html) = Some (p_path, p) ->
  decode (tag_contents p) = status_chain ->
  parse "Great job " = [Str NavigableString "Great job "] ->
  parse "Good job " = [Str NavigableString "Good job "] ->
  _extract_status_texts_from_p_status html = [("Gold", "Great job"); ("Silver", "Good job")].
Proof.
  intros Hp Hinner Hgreat Hgood.
  unfold _extract_status_texts_from_p_status. rewrite Hp, Hinner.
  destruct chain_branches as (B1 & B2 & B3 & B4).
  unfold STATUSES. cbn [filter_map].
  rewrite !status_block_text_eq, B1, B2, B3, B4. cbv zeta. rewrite Hgreat, Hgood.
  reflexivity.
Qed.

Lemma status_key_is_no_text_key (index : list ((string * string) * list path))
  (s : soup) (v : string) :
  apply_one_edit index s ("STATUS|Gold", v) = s.
Proof. reflexivity. Qed.

Lemma gold_patch (html : string) (p_path : path) (p : node) :
  find_with_class "p" "status" (parse html) = Some (p_path, p) ->
  decode (tag_contents p) = status_chain ->
  _apply_status_edits html [("Gold", "Top")]
  = decode (update p_path
              (set_contents
                 (parse (gold_prefix ++ block_pad ++ "Top" ++ block_pad ++ silver_rest)))
              (parse html)).
Proof.
  intros Hp Hinner. unfold _apply_status_edits. rewrite Hp, Hinner.
  unfold patch_inner. cbn [fold_left fst snd].
  change (norm "Top") with "Top". cbn [is_empty].
  now rewrite chain_gold_patched.
Qed.

End StatusContainer.

(** C4. When the status container holds the chain
    [{% if status == "Gold" %} Great job {% elif status == "Silver" %} Good job {% endif %}],
    the status entries of the extraction are Gold with [Great job] and
    Silver with [Good job]; patching Gold to [Top] puts back into the
    container the same chain with the body of the Gold branch replaced by the
    padded new text: the Gold directive before it and everything from the
    [elif] directive on are the characters they were, and nothing outside
    the container is touched. *)
Theorem gold_patch_leaves_silver_branch {adapter : TreeAdapter}
  (html : string) (p_path : path) (p : node) :
  parse (decode (parse html)) = parse html ->
  find_with_class "p" "status" (parse html) = Some (p_path, p) ->
  decode (tag_contents p) = gold_prefix ++ "Great job " ++ silver_rest ->
  parse "Great job " = [Str NavigableString "Great job "] ->
  parse "Good job " = [Str NavigableString "Good job "] ->
  filter is_status_ref (extract_text_nodes html)
  = [status_ref "Gold" "Great job"; status_ref "Silver" "Good job"]
  /\ apply_text_edits html [("STATUS|Gold", "Top")]
     = decode (update p_path
                 (set_contents
                    (parse (gold_prefix ++ block_pad ++ "Top" ++ block_pad ++ silver_rest)))
                 (parse html)).
Proof.
  intros Hround Hp Hinner Hgreat Hgood. split.
  - unfold extract_text_nodes.
    rewrite (chain_status_texts html Hp Hinner Hgreat Hgood).
    rewrite filter_app, number_candidates_no_status. reflexivity.
  - unfold apply_text_edits. cbn [fold_left]. rewrite status_key_is_no_text_key.
    change (collect_status_edits [("STATUS|Gold", "Top")]) with [("Gold", "Top")].
    cbv iota.
    rewrite (@gold_patch _ (decode (parse html)) p_path p); rewrite ?Hround; auto.
Qed.

(* ------------------------------------------------------------------ *)
(** * A label next to a template expression *)
(* ------------------------------------------------------------------ *)






(* ------------------------------------------------------------------ *)
(** * The two scans of the candidate tags, when nothing is skipped *)
(* ------------------------------------------------------------------ *)

Lemma key2_eqb_eq (x y : string * string) : key2_eqb x y = true <-> x = y.
Proof.
  destruct x as [x1 x2], y as [y1 y2]. unfold key2_eqb; simpl.
  rewrite andb_true_iff, !String.eqb_eq. split; [intros [-> ->]; reflexivity|].
  intros E; inversion E; auto.
Qed.

Lemma key2_eqb_refl (x : string * string) : key2_eqb x x = true.
Proof. now apply key2_eqb_eq. Qed.

Lemma index_get_append (k k' : string * string) (p : path)
  (index : list ((string * string) * list path)) :
  index_get k (index_append k' p index)
  = if key2_eqb k k' then (index_get k index ++ [p])%list else index_get k index.
Proof.
  induction index as [|[k0 l] index IH]; simpl.
  - destruct (key2_eqb k k'); reflexivity.
  - destruct (key2_eqb k' k0) eqn:E; simpl.
    + apply key2_eqb_eq in E; subst k0.
      destruct (key2_eqb k k'); reflexivity.
    + destruct (key2_eqb k k0) eqn:E0; [|exact IH].
      destruct (key2_eqb k k') eqn:E1; [|reflexivity].
      apply key2_eqb_eq in E0, E1. subst. rewrite key2_eqb_refl in E. discriminate.
Qed.

Lemma counter_get_set (k k' : string * string) (n : nat)
  (c : list ((string * string) * nat)) :
  counter_get k (counter_set k' n c) = if key2_eqb k k' then n else counter_get k c.
Proof.
  induction c as [|[k0 m] c IH]; simpl.
  - destruct (key2_eqb k k'); reflexivity.
  - destruct (key2_eqb k' k0) eqn:E; simpl.
    + apply key2_eqb_eq in E; subst k0.
      destruct (key2_eqb k k'); reflexivity.
    + destruct (key2_eqb k k0) eqn:E0; [|exact IH].
      destruct (key2_eqb k k') eqn:E1; [|reflexivity].
      apply key2_eqb_eq in E0, E1. subst. rewrite key2_eqb_refl in E. discriminate.
Qed.

(** The group of a key in the index: the indexed tags of that key, in the
    order of the scan. *)
Lemma index_get_fold (L : list (path * node)) :
  forall (index : list ((string * string) * list path)) (k : string * string),
    index_get k
      (fold_left (fun index pn =>
                    match leaf_text (snd pn) with
                    | None => index
                    | Some _ =>
                        let class_str := join " " (get_class (snd pn)) in
                        index_append (Soup.tag_name (snd pn), class_str) (fst pn) index
                    end) L index)
    = (index_get k index
       ++ map fst (filter (fun pn => key2_eqb k (key_of (snd pn)))
                          (filter (fun pn => is_leaf_text (snd pn)) L)))%list.
Proof.
  induction L as [|pn L IH]; intros index k; simpl.
  - now rewrite app_nil_r.
  - rewrite IH. unfold is_leaf_text at 2.
    destruct (leaf_text (snd pn)); simpl; [|reflexivity].
    rewrite index_get_append. fold (key_of (snd pn)).
    destruct (key2_eqb k (key_of (snd pn))); simpl; [|reflexivity].
    now rewrite <- app_assoc.
Qed.

Lemma index_get_build_index (s : soup) (k : string * string) :
  index_get k (build_index s)
  = map fst (filter (fun pn => key2_eqb k (key_of (snd pn))) (indexed_tags s)).
Proof. unfold build_index, indexed_tags. now rewrite index_get_fold. Qed.

(** The occurrence index of the [i]-th candidate: one more than the number
    of candidates of its key before it. *)
Lemma number_candidates_nth (cands : list (string * string * string)) :
  forall (counters : list ((string * string) * nat)) (i : nat) (t c x : string),
    nth_error cands i = Some (t, c, x) ->
    nth_error (number_candidates counters cands) i
    = Some (text_ref t c x
              (counter_get (t, c) counters
               + List.length (filter (fun y => key2_eqb (t, c) (fst y)) (firstn i cands))
               + 1)).
Proof.
  induction cands as [|[[t0 c0] x0] cands IH]; intros counters [|i] t c x H;
    try discriminate; simpl in H.
  - inversion H; subst. simpl. now rewrite Nat.add_0_r.
  - cbn [number_candidates nth_error firstn filter fst].
    rewrite (IH _ _ _ _ _ H), counter_get_set.
    destruct (key2_eqb (t, c) (t0, c0)) eqn:E; [|reflexivity].
    apply key2_eqb_eq in E. inversion E; subst. cbn [List.length].
    f_equal. f_equal. lia.
Qed.

Lemma nth_error_filter_prefix {A : Type} (keep : A -> bool) (l : list A) :
  forall (i : nat) (x : A),
    nth_error l i = Some x -> keep x = true ->
    nth_error (filter keep l) (List.length (filter keep (firstn i l))) = Some x.
Proof.
  induction l as [|y l IH]; intros [|i] x H Hk; try discriminate; simpl in *.
  - inversion H; subst. now rewrite Hk.
  - destruct (keep y); simpl; now apply IH.
Qed.

Lemma candidate_of_key (n : node) (t c x : string) :
  candidate_of n = Some (t, c, x) -> (t, c) = key_of n /\ is_leaf_text n = true.
Proof.
  unfold candidate_of, is_leaf_text, key_of.
  destruct (leaf_text n) as [[raw text]|]; [|discriminate].
  destruct (has_jinja text); [destruct (is_empty (strip_jinja text)); [discriminate|]|];
    intros E; inversion E; auto.
Qed.

Lemma candidate_of_not_leaf (n : node) : is_leaf_text n = false -> candidate_of n = None.
Proof.
  unfold candidate_of, is_leaf_text. now destruct (leaf_text n) as [[raw text]|].
Qed.

(** When no indexed tag is left out by extraction, the candidates of
    extraction are the indexed tags, one for one. *)
Lemma candidates_are_indexed_tags (L : list (path * node)) :
  (forall pn, In pn L -> is_leaf_text (snd pn) = true -> candidate_of (snd pn) <> None) ->
  filter_map (fun pn => candidate_of (snd pn)) L
  = map triple_of (filter (fun pn => is_leaf_text (snd pn)) L).
Proof.
  induction L as [|pn L IH]; intros H; simpl; [reflexivity|].
  rewrite IH by (intros; apply H; simpl; auto).
  destruct (is_leaf_text (snd pn)) eqn:E.
  - specialize (H pn (or_introl eq_refl) E).
    destruct (candidate_of (snd pn)) as [y|] eqn:Ec; [|contradiction].
    cbn [map]. f_equal. unfold triple_of. now rewrite Ec.
  - now rewrite (candidate_of_not_leaf _ E).
Qed.

Lemma triple_of_key (pn : path * node) : fst (triple_of pn) = key_of (snd pn).
Proof.
  unfold triple_of. destruct (candidate_of (snd pn)) as [[[t c] x]|] eqn:E; [|reflexivity].
  apply candidate_of_key in E as [E _]. exact E.
Qed.

Lemma filter_key_map_triple (k : string * string) (l : list (path * node)) :
  List.length (filter (fun y => key2_eqb k (fst y)) (map triple_of l))
  = List.length (filter (fun pn => key2_eqb k (key_of (snd pn))) l).
Proof.
  induction l as [|pn l IH]; simpl; [reflexivity|].
  rewrite triple_of_key. destruct (key2_eqb k (key_of (snd pn))); simpl; now rewrite IH.
Qed.

(** X1. In a document with no [style], [script], [svg] or [head] element,
    and in which no candidate leaf is made of template markers only, the two
    scans agree: the [i]-th tag of the index is the one the [i]-th entry of
    the extraction was made for, and the address of the entry, looked up in
    the index as [apply_text_edits] does, is that tag. *)
Theorem index_agrees_when_nothing_is_skipped {adapter : TreeAdapter}
  (html : string) (i : nat) (pn : path * node) :
  decompose_all SKIP_TAGS (parse html) = parse html ->
  (forall q, In q (indexed_tags (parse html)) -> candidate_of (snd q) <> None) ->
  nth_error (indexed_tags (parse html)) i = Some pn ->
  exists r,
    nth_error (extract_text_nodes html) i = Some r
    /\ kind r = "text"
    /\ candidate_of (snd pn) = Some (tag_name r, class_str r, display r)
    /\ nth_error (index_get (tag_name r, class_str r) (build_index (parse html)))
         (occurrence r - 1)
       = Some (fst pn).
Proof.
  intros Hskip Hkept Hi.
  assert (Hc : text_candidates html = map triple_of (indexed_tags (parse html))).
  { unfold text_candidates, indexed_tags. rewrite Hskip.
    apply candidates_are_indexed_tags. intros q Hq Hl. apply Hkept.
    unfold indexed_tags. apply filter_In. auto. }
  assert (Hpn : candidate_of (snd pn) <> None).
  { apply Hkept. eapply nth_error_In; eassumption. }
  destruct (candidate_of (snd pn)) as [[[t c] x]|] eqn:Ecand; [clear Hpn | contradiction].
  assert (Ht : triple_of pn = (t, c, x)) by (unfold triple_of; now rewrite Ecand).
  assert (Hnth : nth_error (text_candidates html) i = Some (t, c, x)).
  { rewrite Hc, nth_error_map, Hi. simpl. now rewrite Ht. }
  pose proof (number_candidates_nth _ [] _ Hnth) as Hr.
  eexists. split.
  { unfold extract_text_nodes. rewrite nth_error_app1; [exact Hr|].
    apply nth_error_Some. rewrite Hr. discriminate. }
  cbn [kind tag_name class_str display occurrence text_ref counter_get].
  split; [reflexivity|]. split; [reflexivity|].
  rewrite index_get_build_index, Hc, firstn_map, filter_key_map_triple.
  rewrite nth_error_map.
  replace (0 + _ + 1 - 1) with
    (List.length (filter (fun q => key2_eqb (t, c) (key_of (snd q)))
                         (firstn i (indexed_tags (parse html))))) by lia.
  rewrite (nth_error_filter_prefix _ _ _ Hi); [reflexivity|].
  apply candidate_of_key in Ecand as [-> _]. apply key2_eqb_refl.
Qed.

(* ------------------------------------------------------------------ *)
(** * Addresses: ranks, the two families, and one edit *)
(* ------------------------------------------------------------------ *)

Lemma number_candidates_keys (counters : list ((string * string) * nat))
  (l : list (string * string * string)) :
  Forall (fun r => startswith "TEXT|" (key r) = true) (number_candidates counters l).
Proof.
  revert counters; induction l as [|[[t c] x] l IH]; intros counters; simpl;
    constructor; [reflexivity | apply IH].
Qed.

Lemma number_candidates_length (counters : list ((string * string) * nat))
  (l : list (string * string * string)) :
  List.length (number_candidates counters l) = List.length l.
Proof.
  revert counters; induction l as [|[[t c] x] l IH]; intros counters; simpl;
    [reflexivity | now rewrite IH].
Qed.

Lemma status_nodes_keys_prefix {adapter : TreeAdapter} (texts : list (string * string)) :
  Forall (fun r => startswith "STATUS|" (key r) = true) (status_nodes_of texts).
Proof.
  unfold status_nodes_of, STATUSES; simpl.
  repeat match goal with
         | |- context [assoc ?s texts] => destruct (assoc s texts)
         end; repeat constructor.
Qed.

Lemma rank_among_entries (k : string * string) (cands : list (string * string * string)) :
  forall (counters : list ((string * string) * nat)) (i : nat),
    List.length (filter (fun r' => is_text_ref r'
                                   && key2_eqb k (tag_name r', class_str r'))
                        (firstn i (number_candidates counters cands)))
    = List.length (filter (fun y => key2_eqb k (fst y)) (firstn i cands)).
Proof.
  induction cands as [|[[t0 c0] x0] cands IH]; intros counters [|i]; try reflexivity.
  cbn [firstn number_candidates filter]. unfold is_text_ref at 1.
  cbn [kind tag_name class_str fst].
  change (String.eqb "text" "text") with true. cbn [andb].
  destruct (key2_eqb k (t0, c0)); cbn [List.length]; now rewrite IH.
Qed.

(** X2. The occurrence index of a plain entry is its 1-based rank among the
    plain entries of the same tag name and class string, in the order of
    the list. *)
Theorem occurrence_is_rank_in_group {adapter : TreeAdapter}
  (html : string) (i : nat) (r : TextNodeRef) :
  nth_error (extract_text_nodes html) i = Some r ->
  kind r = "text" ->
  occurrence r
  = List.length (filter (fun r' => is_text_ref r'
                                   && key2_eqb (tag_name r, class_str r)
                                               (tag_name r', class_str r'))
                        (firstn i (extract_text_nodes html)))
    + 1.
Proof.
  intros Hi Hk. unfold extract_text_nodes in *.
  set (cands := text_candidates html) in *.
  set (sts := status_nodes_of (_extract_status_texts_from_p_status html)) in *.
  assert (Hlt : i < List.length (number_candidates [] cands)).
  { destruct (Nat.lt_ge_cases i (List.length (number_candidates [] cands))) as [H | H];
      [exact H|].
    rewrite nth_error_app2 in Hi by exact H.
    apply nth_error_In in Hi.
    pose proof (status_nodes_kind (_extract_status_texts_from_p_status html)) as Hs.
    rewrite Forall_forall in Hs. apply Hs in Hi. rewrite Hk in Hi. discriminate. }
  rewrite nth_error_app1 in Hi by exact Hlt.
  rewrite firstn_app.
  replace (i - List.length (number_candidates [] cands)) with 0 by lia.
  cbn [firstn]. rewrite app_nil_r.
  rewrite number_candidates_length in Hlt.
  destruct (nth_error cands i) as [[[t c] x]|] eqn:Hc;
    [|apply nth_error_None in Hc; lia].
  rewrite (number_candidates_nth _ [] _ Hc) in Hi. injection Hi as <-.
  cbn [occurrence tag_name class_str text_ref counter_get].
  now rewrite rank_among_entries.
Qed.

(** X3. The two families of addresses are apart: no plain entry has the key
    of a status entry. *)
Theorem text_and_status_keys_differ {adapter : TreeAdapter}
  (html : string) (r1 r2 : TextNodeRef) :
  In r1 (extract_text_nodes html) ->
  In r2 (extract_text_nodes html) ->
  kind r1 = "text" ->
  kind r2 = "status" ->
  startswith "TEXT|" (key r1) = true
  /\ startswith "STATUS|" (key r2) = true
  /\ key r1 <> key r2.
Proof.
  intros H1 H2 K1 K2. unfold extract_text_nodes in *.
  pose proof (number_candidates_kind [] (text_candidates html)) as Hn.
  pose proof (number_candidates_keys [] (text_candidates html)) as Hnk.
  pose proof (status_nodes_kind (_extract_status_texts_from_p_status html)) as Hs.
  pose proof (status_nodes_keys_prefix (_extract_status_texts_from_p_status html)) as Hsk.
  rewrite Forall_forall in Hn, Hnk, Hs, Hsk.
  apply in_app_or in H1, H2.
  destruct H1 as [H1 | H1]; [|apply Hs in H1; rewrite K1 in H1; discriminate].
  destruct H2 as [H2 | H2]; [apply Hn in H2; rewrite K2 in H2; discriminate|].
  apply Hnk in H1. apply Hsk in H2.
  split; [exact H1|]. split; [exact H2|].
  intros E. rewrite E in H1. apply text_key_is_not_status_key in H1. congruence.
Qed.

(** X4. The paragraph [Hello] of class [x] is listed at [TEXT|p|x|1]; after
    the edit of that address to [Bye], when the serialization of the edited
    tree is read back as that tree, the extraction lists [Bye] at the same
    address. *)
Theorem edit_then_extract_at_same_address {adapter : TreeAdapter} (html : string) :
  parse html = hello_tree "Hello" ->
  parse (decode (hello_tree "Bye")) = hello_tree "Bye" ->
  extract_text_nodes html = [text_ref "p" "x" "Hello" 1]
  /\ apply_text_edits html [("TEXT|p|x|1", "Bye")] = decode (hello_tree "Bye")
  /\ extract_text_nodes (apply_text_edits html [("TEXT|p|x|1", "Bye")])
     = [text_ref "p" "x" "Bye" 1].
Proof.
  intros Hparse Hround.
  assert (Hx : forall text,
             is_empty text = false -> norm text = text -> has_jinja text = false ->
             forall d, parse d = hello_tree text ->
                       extract_text_nodes d = [text_ref "p" "x" text 1]).
  { intros text He Hn Hj d Hd.
    unfold extract_text_nodes, text_candidates, _extract_status_texts_from_p_status.
    rewrite Hd.
    change (find_with_class "p" "status" (hello_tree text)) with (@None (path * node)).
    change (find_all CANDIDATE_TAGS (decompose_all SKIP_TAGS (hello_tree text)))
      with [([0], Tag "p" [("class", "x")] [Str NavigableString text])].
    cbn [filter_map snd]. unfold candidate_of, leaf_text.
    cbn [tag_contents existsb is_tag tag_string]. rewrite He. cbv zeta. rewrite Hn, He.
    cbn [orb]. rewrite Hj.
    change (join " " (get_class (Tag "p" [("class", "x")] [Str NavigableString text])))
      with "x".
    reflexivity. }
  assert (Happly : apply_text_edits html [("TEXT|p|x|1", "Bye")] = decode (hello_tree "Bye")).
  { unfold apply_text_edits. rewrite Hparse. vm_compute. reflexivity. }
  split; [apply (Hx "Hello"); try reflexivity; exact Hparse|].
  split; [exact Happly|].
  rewrite Happly. apply (Hx "Bye"); try reflexivity. exact Hround.
Qed.

(* ------------------------------------------------------------------ *)
(** * Stale addresses: the other edits are applied *)
(* ------------------------------------------------------------------ *)








Section Landing.
Context {adapter : TreeAdapter}.


Lemma stale_key_resolves_nowhere (html k tag cls : string) (occ : Z) :
  parse_text_key k = Some (tag, cls, occ) ->
  ~ (1 <= occ <= Z.of_nat (group_size html tag cls))%Z ->
  resolve (build_index (parse html)) k = None.
Proof.
  intros Hk Hocc. unfold resolve. rewrite Hk. unfold group_size in Hocc.
  destruct ((1 <=? occ)%Z && _) eqn:E; [|reflexivity].
  apply andb_true_iff in E as [E1 E2]. apply Z.leb_le in E1, E2. lia.
Qed.



End Landing.

(* ------------------------------------------------------------------ *)
(** * The properties on documents read by [mini_adapter] *)
(* ------------------------------------------------------------------ *)

Section OnMiniSoup.
#[local] Existing Instance mini_adapter.

(** C1, at [templated_page]. Extraction leaves the paragraph that is only a
    template expression out and numbers [Hello] 1 and [World] 2; the index
    of [apply_text_edits] keeps that paragraph, so its group has three
    elements and the address of [World] reaches [Hello]. At [head_page],
    extraction skips the [div] under [head] and numbers [B] 1; the index
    does not skip it and the address of [B] reaches [A]. *)
Theorem index_keeps_what_extraction_skips :
  map (fun r => (key r, display r)) (extract_text_nodes templated_page)
  = [("TEXT|p||1", "Hello"); ("TEXT|p||2", "World")]
  /\ group_size templated_page "p" "" = 3
  /\ apply_text_edits templated_page [("TEXT|p||2", "Planet")]
     = "<p>{{ name }}</p><p>Planet</p><p>World</p>"
  /\ map (fun r => (key r, display r)) (extract_text_nodes head_page)
     = [("TEXT|div||1", "B")]
  /\ apply_text_edits head_page [("TEXT|div||1", "C")]
     = "<head><div>C</div></head><body><div>B</div></body>".
Proof. repeat split; vm_compute; reflexivity. Qed.



(** C3, refuted as stated. In [stray_page] the end tag that closes nothing
    separates two texts, so the [div] has no [.string] and is not listed;
    the serialization writes the two texts side by side, they are read
    again as one, and the [div] of the result is listed. *)
Lemma reserialized_texts_merge :
  parse stray_page
  = [Tag "div" [] [Str NavigableString "a"; Str NavigableString "b"]]
  /\ apply_text_edits stray_page [] = "<div>ab</div>"
  /\ extract_text_nodes stray_page = []
  /\ extract_text_nodes (apply_text_edits stray_page []) = [text_ref "div" "" "ab" 1].
Proof. repeat split; vm_compute; reflexivity. Qed.

Lemma empty_edit_set_is_noop_witness :
  parse (decode (parse card_page)) = parse card_page
  /\ extract_text_nodes (apply_text_edits card_page []) = extract_text_nodes card_page.
Proof.
  assert (H : parse (decode (parse card_page)) = parse card_page)
    by (vm_compute; reflexivity).
  split; [exact H|].
  exact (proj1 (@empty_edit_set_is_noop mini_adapter card_page H)).
Defined.

Lemma gold_patch_leaves_silver_branch_witness :
  filter is_status_ref (extract_text_nodes status_page)
  = [status_ref "Gold" "Great job"; status_ref "Silver" "Good job"]
  /\ apply_text_edits status_page [("STATUS|Gold", "Top")]
     = "<p class=" ++ dq ++ "status" ++ dq ++ ">"
       ++ gold_prefix ++ block_pad ++ "Top" ++ block_pad ++ silver_rest ++ "</p>".
Proof.
  assert (Hround : parse (decode (parse status_page)) = parse status_page)
    by (vm_compute; reflexivity).
  assert (Hp : find_with_class "p" "status" (parse status_page)
               = Some ([0], Tag "p" [("class", "status")]
                                  [Str NavigableString status_chain]))
    by (vm_compute; reflexivity).
  assert (Hinner : decode (tag_contents (Tag "p" [("class", "status")]
                                           [Str NavigableString status_chain]))
                   = gold_prefix ++ "Great job " ++ silver_rest)
    by (vm_compute; reflexivity).
  assert (Hgreat : parse "Great job " = [Str NavigableString "Great job "])
    by (vm_compute; reflexivity).
  assert (Hgood : parse "Good job " = [Str NavigableString "Good job "])
    by (vm_compute; reflexivity).
  destruct (@gold_patch_leaves_silver_branch mini_adapter status_page _ _
              Hround Hp Hinner Hgreat Hgood) as [Hextract Hpatch].
  split; [exact Hextract|].
  rewrite Hpatch. vm_compute. reflexivity.
Defined.


Lemma out_of_range_locator_is_refused_witness :
  exists e, replace_image_in_html three_images (mkImageLocator "img" 2 0) new_url = Raise e
            /\ e <> UnknownLocatorKind.
Proof.
  apply (@out_of_range_locator_is_refused mini_adapter three_images new_url
           (mkImageLocator "img" 2 0)).
  vm_compute. reflexivity.
Defined.

Lemma two_imgs_and_one_background_witness :
  map locator (extract_images (codec := deaf_codec) three_images)
  = [mkImageLocator "img" 0 0; mkImageLocator "img" 1 0;
     mkImageLocator "inline_style" 0 0]
  /\ replace_image_in_html three_images (mkImageLocator "img" 1 0) new_url
     = Return ("<img src=" ++ dq ++ "a.png" ++ dq ++ "/><div style="
               ++ dq ++ "background-image:url(a.png)" ++ dq ++ "><img src="
               ++ dq ++ new_url ++ dq ++ "/></div>").
Proof.
  assert (Himgs : find_all ["img"] (parse three_images)
                  = [([0], Tag "img" [("src", "a.png")] []);
                     ([1; 0], Tag "img" [("src", "b.png")] [])])
    by (vm_compute; reflexivity).
  assert (Hstyled : find_all_with_attr "style" (parse three_images)
                    = [([1], Tag "div" [("style", "background-image:url(a.png)")]
                               [Tag "img" [("src", "b.png")] []])])
    by (vm_compute; reflexivity).
  destruct (@two_imgs_and_one_background mini_adapter deaf_codec three_images new_url
              "a.png"
              ([0], Tag "img" [("src", "a.png")] [])
              ([1; 0], Tag "img" [("src", "b.png")] [])
              ([1], Tag "div" [("style", "background-image:url(a.png)")]
                      [Tag "img" [("src", "b.png")] []])
              Himgs) as [Hloc [Hrep _]].
  - vm_compute. discriminate.
  - vm_compute. discriminate.
  - exact Hstyled.
  - vm_compute. reflexivity.
  - vm_compute. discriminate.
  - intros blk Hblk. vm_compute in Hblk. destruct Hblk.
  - split; [exact Hloc|]. rewrite Hrep. vm_compute. reflexivity.
Defined.

Lemma extracted_locator_is_accepted_witness :
  exists out,
    replace_image_in_html three_images (mkImageLocator "inline_style" 0 0) new_url
    = Return out.
Proof.
  assert (Hin : In (entry_of (codec := deaf_codec) "IMG003" "background-image" "a.png"
                      (mkImageLocator "inline_style" 0 0))
                   (extract_images (codec := deaf_codec) three_images))
    by (vm_compute; tauto).
  exact (proj2 (proj2 (@extracted_locator_is_accepted mini_adapter deaf_codec
                         three_images new_url _ Hin))).
Defined.

Lemma bad_image_degrades_its_own_entry_witness :
  map (fun e => (img_id e, bytes_data e, width e, height e))
      (extract_images (codec := deaf_codec) two_data_images)
  = [("IMG001", Some [], None, None); ("IMG002", None, None, None)]
  /\ List.length (extract_images (codec := blind_codec) two_data_images) = 2.
Proof.
  split.
  - vm_compute. reflexivity.
  - rewrite (proj1 (@bad_image_degrades_its_own_entry mini_adapter blind_codec
                      two_data_images)).
    vm_compute. reflexivity.
Defined.

Lemma index_agrees_when_nothing_is_skipped_witness :
  exists r,
    nth_error (extract_text_nodes card_page) 1 = Some r
    /\ key r = "TEXT|p||1" /\ display r = "Hello"
    /\ nth_error (index_get (tag_name r, class_str r) (build_index (parse card_page)))
         (occurrence r - 1)
       = Some [0; 1].
Proof.
  assert (Hskip : decompose_all SKIP_TAGS (parse card_page) = parse card_page)
    by (vm_compute; reflexivity).
  assert (Hkept : forall q, In q (indexed_tags (parse card_page)) ->
                            candidate_of (snd q) <> None).
  { intros q Hq. vm_compute in Hq.
    destruct Hq as [<- | [<- | [<- | []]]]; vm_compute; discriminate. }
  assert (Hi : nth_error (indexed_tags (parse card_page)) 1
               = Some ([0; 1], Tag "p" [] [Str NavigableString "Hello {{ name }}"]))
    by (vm_compute; reflexivity).
  destruct (@index_agrees_when_nothing_is_skipped mini_adapter card_page 1 _
              Hskip Hkept Hi) as (r & Hr & _ & _ & Hidx).
  exists r. split; [exact Hr|].
  assert (E : Some r = Some (text_ref "p" "" "Hello" 1))
    by (rewrite <- Hr; vm_compute; reflexivity).
  injection E as ->. split; [vm_compute; reflexivity|]. split; [reflexivity|].
  exact Hidx.
Defined.

Lemma occurrence_is_rank_in_group_witness :
  nth_error (extract_text_nodes templated_page) 1 = Some (text_ref "p" "" "World" 2)
  /\ 2 = List.length
           (filter (fun r' => is_text_ref r' && key2_eqb ("p", "") (tag_name r', class_str r'))
                   (firstn 1 (extract_text_nodes templated_page)))
         + 1.
Proof.
  assert (H : nth_error (extract_text_nodes templated_page) 1
              = Some (text_ref "p" "" "World" 2)) by (vm_compute; reflexivity).
  split; [exact H|].
  exact (@occurrence_is_rank_in_group mini_adapter templated_page 1 _ H eq_refl).
Defined.

Lemma text_and_status_keys_differ_witness :
  key (text_ref "h1" "" "Diploma" 1) <> key (status_ref "Gold" "Great job").
Proof.
  assert (H1 : In (text_ref "h1" "" "Diploma" 1) (extract_text_nodes status_and_text_page))
    by (vm_compute; tauto).
  assert (H2 : In (status_ref "Gold" "Great job") (extract_text_nodes status_and_text_page))
    by (vm_compute; tauto).
  exact (proj2 (proj2 (@text_and_status_keys_differ mini_adapter status_and_text_page
                         _ _ H1 H2 eq_refl eq_refl))).
Defined.

Lemma edit_then_extract_at_same_address_witness :
  extract_text_nodes hello_page = [text_ref "p" "x" "Hello" 1]
  /\ extract_text_nodes (apply_text_edits hello_page [("TEXT|p|x|1", "Bye")])
     = [text_ref "p" "x" "Bye" 1].
Proof.
  assert (Hparse : parse hello_page = hello_tree "Hello") by (vm_compute; reflexivity).
  assert (Hround : parse (decode (hello_tree "Bye")) = hello_tree "Bye")
    by (vm_compute; reflexivity).
  destruct (@edit_then_extract_at_same_address mini_adapter hello_page Hparse Hround)
    as (H1 & _ & H3).
  split; assumption.
Defined.

End OnMiniSoup.

(** * The normalizer: what [norm] returns *)

Lemma chars_of_chars (l : list ascii) : chars (of_chars l) = l.
Proof. apply list_ascii_of_string_of_list_ascii. Qed.

Lemma of_chars_chars (s : string) : of_chars (chars s) = s.
Proof. apply string_of_list_ascii_of_string. Qed.

Lemma chars_app (s t : string) : chars (s ++ t) = (chars s ++ chars t)%list.
Proof. induction s; simpl; [reflexivity | now rewrite IHs]. Qed.

Lemma of_chars_app (l m : list ascii) : of_chars (l ++ m) = of_chars l ++ of_chars m.
Proof. induction l; simpl; [reflexivity | now rewrite IHl]. Qed.

Lemma chars_length (s : string) : List.length (chars s) = String.length s.
Proof. induction s; simpl; [reflexivity | now rewrite IHs]. Qed.

(** A pattern that is found nowhere: nothing is substituted. *)
Lemma scan_no_match (r : Re.regex) (fuel : nat) (limit : option nat)
  (subject l : list ascii) (p : nat) (pv : option ascii) :
  Re.search_from r p pv l = None -> Re.scan fuel limit r subject p pv l = [].
Proof.
  intros H. destruct fuel; [reflexivity|]. cbn [Re.scan]. rewrite H.
  destruct limit as [[|n]|]; reflexivity.
Qed.

Lemma search_none_finditer (r : Re.regex) (limit : option nat) (s : string) :
  Re.search r s = None -> Re.finditer limit r s = [].
Proof.
  unfold Re.search, Re.finditer. intros H. apply scan_no_match.
  destruct (Re.search_from r 0 None (chars s)) as [[a st]|]; [discriminate | reflexivity].
Qed.

Lemma sub_no_match (r : Re.regex) (repl : Re.rmatch -> string) (s : string) :
  Re.search r s = None -> Re.sub r repl s = s.
Proof.
  intros H. unfold Re.sub. rewrite (@search_none_finditer r None s H).
  cbn [Re.assemble skipn]. apply of_chars_chars.
Qed.

Lemma sub_count_no_match (r : Re.regex) (repl : Re.rmatch -> string) (s : string) (n : nat) :
  Re.search r s = None -> Re.sub_count r repl s n = s.
Proof.
  intros H. unfold Re.sub_count. rewrite (@search_none_finditer r (Some n) s H).
  cbn [Re.assemble skipn]. apply of_chars_chars.
Qed.

Lemma ltb_succ (p : nat) : (p <? S p)%nat = true.
Proof. apply Nat.ltb_lt. lia. Qed.

(** One step of a greedy star over a character class. *)
Lemma run_star_class_cons (q : ascii -> bool) (c : ascii) (l : list ascii)
  (p : nat) (pv : option ascii) (cs : list (nat * (nat * nat)))
  (k : Re.mstate -> option Re.mstate) :
  Re.run (Re.Star true (Re.Class q)) (Re.MState p pv (c :: l) cs) k
  = if q c
    then match Re.run (Re.Star true (Re.Class q)) (Re.MState (S p) (Some c) l cs) k with
         | Some x => Some x
         | None => k (Re.MState p pv (c :: l) cs)
         end
    else k (Re.MState p pv (c :: l) cs).
Proof.
  simpl. destruct (q c); [|reflexivity]. rewrite ltb_succ. reflexivity.
Qed.

Lemma run_star_class_nil (q : ascii -> bool)
  (p : nat) (pv : option ascii) (cs : list (nat * (nat * nat)))
  (k : Re.mstate -> option Re.mstate) :
  Re.run (Re.Star true (Re.Class q)) (Re.MState p pv [] cs) k = k (Re.MState p pv [] cs).
Proof. reflexivity. Qed.

(** The greedy star of a character class, with a continuation that accepts. *)
Lemma run_star_class (q : ascii -> bool) (l : list ascii) :
  forall (p : nat) (pv : option ascii) (cs : list (nat * (nat * nat))),
    Re.run (Re.Star true (Re.Class q)) (Re.MState p pv l cs) (fun st => Some st)
    = Some (skip_class q p pv l cs).
Proof.
  induction l as [|c l IH]; intros p pv cs; [reflexivity|].
  rewrite run_star_class_cons. cbn [skip_class].
  destruct (q c); [|reflexivity]. now rewrite IH.
Qed.

Lemma run_ws (l : list ascii) (p : nat) (pv : option ascii) :
  Re.run WS_RE (Re.MState p pv l []) (fun st => Some st)
  = match l with
    | c :: l' => if isspace c then Some (skip_class isspace (S p) (Some c) l' []) else None
    | [] => None
    end.
Proof.
  unfold WS_RE, Re.plus, Re.space. cbn [Re.run Re.rest Re.pos Re.caps].
  destruct l as [|c l]; [reflexivity|]. destruct (isspace c); [|reflexivity].
  apply (run_star_class isspace l (S p) (Some c) []).
Qed.

Lemma skip_class_spec (q : ascii -> bool) (l : list ascii) :
  forall (p : nat) (pv : option ascii) (cs : list (nat * (nat * nat))),
    exists sp,
      l = (sp ++ Re.rest (skip_class q p pv l cs))%list
      /\ Re.pos (skip_class q p pv l cs) = p + List.length sp
      /\ forallb q sp = true
      /\ head_is q (Re.rest (skip_class q p pv l cs)) = false
      /\ Re.caps (skip_class q p pv l cs) = cs.
Proof.
  induction l as [|c l IH]; intros p pv cs; cbn [skip_class].
  - exists []. simpl. split; [reflexivity|]. split; [lia|]. auto.
  - destruct (q c) eqn:E.
    + destruct (IH (S p) (Some c) cs) as (sp & H1 & H2 & H3 & H4 & H5).
      exists (c :: sp). cbn [app List.length forallb]. rewrite E, H3, H2, <- H1.
      split; [reflexivity|]. split; [lia|]. auto.
    + exists []. cbn [app List.length Re.rest Re.pos Re.caps head_is forallb].
      rewrite E. split; [reflexivity|]. split; [lia|]. auto.
Qed.

Lemma collapse_run (rep sp r : list ascii) :
  forallb isspace sp = true -> collapse rep true (sp ++ r) = collapse rep true r.
Proof.
  induction sp as [|c sp IH]; simpl; [reflexivity|].
  intros H. apply andb_true_iff in H as [-> H]. auto.
Qed.

Lemma collapse_fresh (rep r : list ascii) :
  head_is isspace r = false -> collapse rep true r = collapse rep false r.
Proof. destruct r as [|c r]; simpl; [reflexivity|]. now intros ->. Qed.

Lemma skipn_app_le {A : Type} (n : nat) (l m : list A) :
  n <= List.length l -> skipn n (l ++ m) = (skipn n l ++ m)%list.
Proof.
  intros H. rewrite skipn_app. replace (n - List.length l) with 0 by lia. reflexivity.
Qed.

Lemma slice_prefix {A : Type} (cur : nat) (pre l : list ascii) :
  cur <= List.length pre ->
  slice cur (List.length pre) (pre ++ l) = skipn cur pre.
Proof.
  intros H. unfold slice. rewrite skipn_app_le by exact H.
  rewrite firstn_app. rewrite length_skipn.
  replace (List.length pre - cur - (List.length pre - cur)) with 0 by lia.
  cbn [firstn]. rewrite app_nil_r. apply firstn_all2. rewrite length_skipn. lia.
Qed.

(** Substituting [rep] for [\s+]: the runs of white space are collapsed. *)
Lemma assemble_ws (rep : string) (n : nat) :
  forall (l pre : list ascii) (cur fuel : nat) (pv : option ascii),
    List.length l <= n -> List.length l < fuel -> cur <= List.length pre ->
    Re.assemble (pre ++ l) cur (fun _ => rep)
      (Re.scan fuel None WS_RE (pre ++ l) (List.length pre) pv l)
    = (skipn cur pre ++ collapse (chars rep) false l)%list.
Proof.
  induction n as [|n IH]; intros l pre cur fuel pv Hn Hf Hc.
  - destruct l; [|simpl in Hn; lia].
    rewrite scan_no_match by reflexivity. cbn [Re.assemble collapse].
    now rewrite !app_nil_r.
  - destruct l as [|c l].
    { rewrite scan_no_match by reflexivity. cbn [Re.assemble collapse].
      now rewrite !app_nil_r. }
    destruct fuel as [|fuel]; [lia|]. simpl in Hn, Hf.
    cbn [Re.scan Re.search_from]. rewrite run_ws. cbn [collapse].
    destruct (isspace c) eqn:E.
    + destruct (skip_class_spec isspace l (S (List.length pre)) (Some c) [])
        as (sp & H1 & H2 & H3 & H4 & H5).
      set (st := skip_class isspace (S (List.length pre)) (Some c) l []) in *.
      replace (List.length pre <? Re.pos st)%nat with true
        by (symmetry; apply Nat.ltb_lt; lia).
      cbn [option_map Re.assemble Re.m_start Re.m_end].
      rewrite (@slice_prefix ascii cur pre (c :: l) Hc).
      f_equal. f_equal.
      assert (Hsub : (pre ++ c :: l = (pre ++ c :: sp) ++ Re.rest st)%list).
      { rewrite <- app_assoc. cbn [app]. now rewrite <- H1. }
      assert (Hpos : Re.pos st = List.length (pre ++ c :: sp)).
      { rewrite H2, length_app. simpl. lia. }
      rewrite Hsub, Hpos.
      rewrite IH.
      * rewrite skipn_all. cbn [app]. clearbody st.
        rewrite H1. rewrite (collapse_run _ _ _ H3). now rewrite collapse_fresh.
      * apply (f_equal (@List.length ascii)) in H1. rewrite length_app in H1. lia.
      * apply (f_equal (@List.length ascii)) in H1. rewrite length_app in H1. lia.
      * lia.
    + change (Re.scan (S fuel) None WS_RE (pre ++ c :: l) (S (List.length pre)) (Some c) l)
        with (Re.scan (S fuel) None WS_RE (pre ++ c :: l) (S (List.length pre)) (Some c) l).
      replace (pre ++ c :: l)%list with ((pre ++ [c]) ++ l)%list
        by (rewrite <- app_assoc; reflexivity).
      replace (S (List.length pre)) with (List.length (pre ++ [c]))
        by (rewrite length_app; simpl; lia).
      specialize (IH l (pre ++ [c])%list cur (S fuel) (Some c)).
      cbn [Re.scan] in IH. rewrite IH; try lia.
      * rewrite skipn_app_le by exact Hc. now rewrite <- app_assoc.
      * rewrite length_app; simpl; lia.
Qed.

Lemma sub_ws (rep s : string) :
  Re.sub WS_RE (fun _ => rep) s = of_chars (collapse (chars rep) false (chars s)).
Proof.
  unfold Re.sub, Re.finditer. f_equal.
  pose proof (@assemble_ws rep (List.length (chars s)) (chars s) [] 0
                (S (String.length s)) None) as H.
  cbn [app List.length skipn] in H. apply H; try lia.
  rewrite chars_length. lia.
Qed.

Lemma norm_chars (s : string) :
  norm s = of_chars (rstrip_chars (lstrip_chars (collapse [" "%char] false (chars s)))).
Proof.
  unfold norm, strip. rewrite sub_ws, chars_of_chars. reflexivity.
Qed.

Lemma collapse_single_spaced (l : list ascii) :
  single_spaced (collapse [" "%char] true l) = true
  /\ head_is isspace (collapse [" "%char] true l) = false
  /\ single_spaced (collapse [" "%char] false l) = true.
Proof.
  induction l as [|c l (IH1 & IH2 & IH3)]; [auto|].
  cbn [collapse]. destruct (isspace c) eqn:E.
  - split; [exact IH1|]. split; [exact IH2|].
    cbn [app single_spaced]. rewrite IH1, IH2. reflexivity.
  - cbn [single_spaced head_is]. rewrite E, IH3. auto.
Qed.

Lemma lstrip_split (l : list ascii) :
  exists sp, l = (sp ++ lstrip_chars l)%list /\ forallb isspace sp = true.
Proof.
  induction l as [|c l (sp & H1 & H2)]; [exists []; auto|].
  cbn [lstrip_chars]. destruct (isspace c) eqn:E.
  - exists (c :: sp). cbn [app forallb]. rewrite E, H2, <- H1. auto.
  - exists []. auto.
Qed.

Lemma lstrip_head (l : list ascii) : head_is isspace (lstrip_chars l) = false.
Proof.
  induction l as [|c l IH]; [reflexivity|]. cbn [lstrip_chars].
  destruct (isspace c) eqn:E; [exact IH|]. cbn [head_is]. exact E.
Qed.

Lemma lstrip_id (l : list ascii) : head_is isspace l = false -> lstrip_chars l = l.
Proof. destruct l as [|c l]; [reflexivity|]. cbn [head_is lstrip_chars]. now intros ->. Qed.

Lemma rstrip_id (l : list ascii) : head_is isspace (rev l) = false -> rstrip_chars l = l.
Proof. intros H. unfold rstrip_chars. rewrite (lstrip_id _ H). apply rev_involutive. Qed.

Lemma rstrip_split (l : list ascii) :
  exists sp, l = (rstrip_chars l ++ sp)%list /\ forallb isspace sp = true.
Proof.
  destruct (lstrip_split (rev l)) as (sp & H1 & H2).
  exists (rev sp). split.
  - unfold rstrip_chars. rewrite <- rev_app_distr, <- H1. symmetry. apply rev_involutive.
  - rewrite forallb_forall in *. intros x Hx. apply H2. now apply in_rev.
Qed.

Lemma single_spaced_suffix (a b : list ascii) :
  single_spaced (a ++ b) = true -> single_spaced b = true.
Proof.
  induction a as [|c a IH]; [auto|]. cbn [app single_spaced].
  intros H. apply andb_true_iff in H as [_ H]. auto.
Qed.

Lemma head_is_app (q : ascii -> bool) (a b : list ascii) :
  head_is q (a ++ b) = false -> head_is q a = false.
Proof. destruct a; [reflexivity | auto]. Qed.

Lemma single_spaced_prefix (a b : list ascii) :
  single_spaced (a ++ b) = true -> single_spaced a = true.
Proof.
  induction a as [|c a IH]; [auto|]. cbn [app single_spaced].
  intros H. apply andb_true_iff in H as [H1 H2]. rewrite (IH H2), andb_true_r.
  destruct (isspace c); [|reflexivity].
  apply andb_true_iff in H1 as [-> H1]. apply negb_true_iff in H1.
  now rewrite (head_is_app _ _ _ H1).
Qed.

Lemma rstrip_head (l : list ascii) :
  head_is isspace l = false -> head_is isspace (rstrip_chars l) = false.
Proof.
  destruct (rstrip_split l) as (sp & H1 & H2). intros H.
  rewrite H1 in H. destruct (rstrip_chars l) as [|c r] eqn:E; [reflexivity|].
  exact H.
Qed.

Lemma strip_list_normal (l : list ascii) :
  single_spaced l = true ->
  single_spaced (rstrip_chars (lstrip_chars l)) = true
  /\ trimmed (rstrip_chars (lstrip_chars l)) = true.
Proof.
  intros H.
  destruct (lstrip_split l) as (sp & H1 & _).
  destruct (rstrip_split (lstrip_chars l)) as (sp' & H2 & _).
  split.
  - apply single_spaced_prefix with (b := sp'). rewrite <- H2.
    apply single_spaced_suffix with (a := sp). now rewrite <- H1.
  - unfold trimmed. rewrite (rstrip_head _ (lstrip_head l)).
    unfold rstrip_chars at 1. rewrite rev_involutive, lstrip_head. reflexivity.
Qed.

Lemma norm_normal (s : string) : normal (norm s) = true.
Proof.
  unfold normal. rewrite norm_chars, chars_of_chars.
  destruct (collapse_single_spaced (chars s)) as (_ & _ & H).
  destruct (strip_list_normal _ H) as [H1 H2]. now rewrite H1, H2.
Qed.

Lemma collapse_id (l : list ascii) :
  single_spaced l = true -> collapse [" "%char] false l = l.
Proof.
  induction l as [|c l IH]; [reflexivity|]. cbn [single_spaced collapse].
  intros H. apply andb_true_iff in H as [H1 H2].
  destruct (isspace c) eqn:E.
  - apply andb_true_iff in H1 as [H0 H1]. apply Ascii.eqb_eq in H0. subst c.
    apply negb_true_iff in H1. rewrite (collapse_fresh _ _ H1), (IH H2). reflexivity.
  - now rewrite (IH H2).
Qed.

Lemma normal_fixed (s : string) : normal s = true -> norm s = s.
Proof.
  unfold normal, trimmed. intros H.
  apply andb_true_iff in H as [H1 H]. apply andb_true_iff in H as [H2 H3].
  apply negb_true_iff in H2, H3.
  rewrite norm_chars, (collapse_id _ H1), (lstrip_id _ H2), (rstrip_id _ H3).
  apply of_chars_chars.
Qed.

Lemma norm_idem (s : string) : norm (norm s) = norm s.
Proof. apply normal_fixed, norm_normal. Qed.

Lemma single_spaced_no_double (l : list ascii) :
  single_spaced l = true -> contains_chars (chars "  ") l = false.
Proof.
  induction l as [|c l IH]; [reflexivity|].
  cbn [single_spaced]. intros H. apply andb_true_iff in H as [H1 H2].
  cbn [contains_chars]. rewrite (IH H2), orb_false_r.
  change (chars "  ") with [" "%char; " "%char]. cbn [starts_with].
  destruct (Ascii.eqb " " c) eqn:E; [|reflexivity].
  apply Ascii.eqb_eq in E. subst c.
  change (isspace " ") with true in H1. cbn [Ascii.eqb andb] in H1.
  destruct l as [|d l]; [reflexivity|]. cbn [head_is] in H1.
  destruct (Ascii.eqb " " d) eqn:E'; [|reflexivity].
  apply Ascii.eqb_eq in E'. subst d. discriminate.
Qed.

Lemma single_spaced_blank (l : list ascii) (c : ascii) :
  single_spaced l = true -> In c l -> isspace c = true -> c = " "%char.
Proof.
  induction l as [|d l IH]; [contradiction|].
  cbn [single_spaced]. intros H [-> | Hin] Hc.
  - apply andb_true_iff in H as [H _]. rewrite Hc in H.
    apply andb_true_iff in H as [H _]. now apply Ascii.eqb_eq in H.
  - apply andb_true_iff in H as [_ H]. auto.
Qed.

(** X5. [norm] gives a normal form: applying it again changes nothing,
    the result has no white space at its ends, holds no two blanks in a
    row, and its only white character is the blank. *)
Theorem norm_is_a_normal_form (s : string) :
  norm (norm s) = norm s
  /\ strip (norm s) = norm s
  /\ contains "  " (norm s) = false
  /\ (forall c, In c (chars (norm s)) -> isspace c = true -> c = " "%char).
Proof.
  pose proof (norm_normal s) as H. unfold normal, trimmed in H.
  apply andb_true_iff in H as [H1 H]. apply andb_true_iff in H as [H2 H3].
  apply negb_true_iff in H2, H3.
  split; [apply norm_idem|]. split.
  - unfold strip. rewrite (lstrip_id _ H2), (rstrip_id _ H3). apply of_chars_chars.
  - split; [apply single_spaced_no_double, H1|].
    intros c. now apply single_spaced_blank.
Qed.


(** * The texts of the entries *)

Lemma is_empty_true (s : string) : is_empty s = true -> s = "".
Proof. destruct s; [reflexivity | discriminate]. Qed.

Lemma strip_jinja_plain (s : string) : has_jinja s = false -> strip_jinja s = norm s.
Proof.
  unfold has_jinja, strip_jinja. intros H.
  rewrite sub_no_match; [reflexivity|].
  destruct (Re.search JINJA_RE s); [discriminate | reflexivity].
Qed.

Lemma leaf_text_norm (n : node) (raw text : string) :
  leaf_text n = Some (raw, text) ->
  tag_string n = Some raw /\ text = norm raw /\ is_empty text = false.
Proof.
  unfold leaf_text. destruct (existsb is_tag (tag_contents n)); [discriminate|].
  destruct (tag_string n) as [r|]; [|discriminate].
  destruct (is_empty r); [discriminate|]. cbv zeta.
  destruct (is_empty (norm r)) eqn:E; [discriminate|].
  intros H. inversion H; subst. auto.
Qed.

(** The text of a candidate: what is left of the normal form of the string
    of the tag once the markers are stripped; it is not empty and is in
    normal form. *)
Lemma candidate_of_text (n : node) (t c x : string) :
  candidate_of n = Some (t, c, x) ->
  exists raw, tag_string n = Some raw
              /\ x = strip_jinja (norm raw)
              /\ is_empty x = false /\ norm x = x.
Proof.
  unfold candidate_of. intros H.
  destruct (leaf_text n) as [[raw text]|] eqn:E; [|discriminate].
  apply leaf_text_norm in E as (Hs & Ht & He). subst text. exists raw. split; [exact Hs|].
  destruct (has_jinja (norm raw)) eqn:Hj.
  - destruct (is_empty (strip_jinja (norm raw))) eqn:Hh; [discriminate|].
    inversion H; subst. split; [reflexivity|]. split; [exact Hh|].
    unfold strip_jinja. apply norm_idem.
  - inversion H; subst. rewrite (strip_jinja_plain _ Hj).
    split; [symmetry; apply norm_idem|]. split; [exact He | apply norm_idem].
Qed.

Lemma number_candidates_texts (P : string -> Prop) (cands : list (string * string * string)) :
  (forall y, In y cands -> P (snd y)) ->
  forall counters r, In r (number_candidates counters cands) ->
                     P (display r) /\ original_text r = display r.
Proof.
  induction cands as [|[[t c] x] cands IH]; intros H counters r; [contradiction|].
  cbn [number_candidates]. intros [<- | Hin].
  - cbn [display original_text]. split; [|reflexivity]. apply (H (t, c, x)). now left.
  - eapply IH; [|exact Hin]. intros y Hy. apply H. now right.
Qed.

Lemma assoc_In (k v : string) (l : list (string * string)) :
  assoc k l = Some v -> In (k, v) l.
Proof.
  induction l as [|[k' v'] l IH]; [discriminate|]. cbn [assoc].
  destruct (String.eqb k k') eqn:E.
  - apply String.eqb_eq in E. subst. intros H; inversion H; now left.
  - intros H. right. auto.
Qed.

Section EntryTexts.
Context {adapter : TreeAdapter}.

Lemma status_block_text_normal (inner status text : string) :
  status_block_text inner status = Some text -> is_empty text = false /\ norm text = text.
Proof.
  unfold status_block_text. destruct (Re.search (status_pattern status) inner); [|discriminate].
  cbv zeta.
  destruct (is_empty (norm _)) eqn:E; [discriminate|].
  intros H. inversion H; subst. split; [exact E | apply norm_idem].
Qed.

Lemma status_texts_normal (html : string) (st text : string) :
  In (st, text) (_extract_status_texts_from_p_status html) ->
  In st STATUSES /\ is_empty text = false /\ norm text = text.
Proof.
  unfold _extract_status_texts_from_p_status.
  destruct (find_with_class "p" "status" (parse html)) as [[pp p]|]; [|contradiction].
  intros H. apply filter_map_In in H as (s & Hs & H).
  destruct (status_block_text _ s) as [x|] eqn:E; [|discriminate].
  inversion H; subst. split; [exact Hs|]. eapply status_block_text_normal; eassumption.
Qed.

Lemma status_nodes_of_In (texts : list (string * string)) (r : TextNodeRef) :
  In r (status_nodes_of texts) ->
  exists st, In st STATUSES /\ In (st, display r) texts /\ r = status_ref st (display r).
Proof.
  unfold status_nodes_of. intros H. apply filter_map_In in H as (st & Hs & H).
  destruct (assoc st texts) as [x|] eqn:E; [|discriminate].
  inversion H; subst. cbn [display]. exists st. split; [exact Hs|].
  split; [now apply assoc_In | reflexivity].
Qed.

(** X6. Every entry of the list carries a text that is not empty, is in
    normal form, and is both its display text and its original text. *)
Theorem entry_texts_are_normal (html : string) (r : TextNodeRef) :
  In r (extract_text_nodes html) ->
  display r <> ""
  /\ original_text r = display r
  /\ norm (display r) = display r.
Proof.
  unfold extract_text_nodes. intros H. apply in_app_or in H as [H | H].
  - apply (@number_candidates_texts (fun x => is_empty x = false /\ norm x = x)) in H.
    + destruct H as [[H1 H2] H3]. split; [|auto]. intros E. rewrite E in H1. discriminate.
    + intros [[t c] x] Hy. unfold text_candidates in Hy.
      apply filter_map_In in Hy as (pn & _ & Hy).
      apply candidate_of_text in Hy as (raw & _ & _ & H1 & H2). auto.
  - apply status_nodes_of_In in H as (st & _ & Hin & ->).
    apply status_texts_normal in Hin as (_ & H1 & H2).
    cbn [display original_text status_ref] in *.
    split; [|auto]. intros E. rewrite E in H1. discriminate.
Qed.

End EntryTexts.


(** * Decimal numerals, [int] and [split] *)

Lemma uint_digits (d : Decimal.uint) :
  forallb isdigit (chars (NilEmpty.string_of_uint d)) = true.
Proof. induction d; simpl; auto. Qed.

Lemma of_nat_digits (n : nat) : forallb isdigit (chars (of_nat n)) = true.
Proof. apply uint_digits. Qed.

Lemma to_uint_not_nil (n : nat) : Nat.to_uint n <> Decimal.Nil.
Proof.
  intros E. pose proof (Unsigned.to_of (Nat.to_uint n)) as H.
  rewrite Unsigned.of_to, E in H. discriminate.
Qed.

Lemma of_nat_not_empty (n : nat) : of_nat n <> "".
Proof.
  unfold of_nat. pose proof (to_uint_not_nil n) as H.
  destruct (Nat.to_uint n); [contradiction | discriminate ..].
Qed.

Lemma of_nat_inj (n m : nat) : of_nat n = of_nat m -> n = m.
Proof.
  unfold of_nat. intros E. apply Unsigned.to_uint_inj.
  apply (f_equal NilEmpty.uint_of_string) in E. rewrite !NilEmpty.usu in E.
  now inversion E.
Qed.

Lemma digits_value_uint (d : Decimal.uint) :
  forall (a : nat) (b : bool),
    digits_value (Z.of_nat a) b (chars (NilEmpty.string_of_uint d))
    = match d with
      | Decimal.Nil => if b then Some (Z.of_nat a) else None
      | _ => Some (Z.of_nat (Nat.of_uint_acc d a))
      end.
Proof.
  induction d; intros a b; [reflexivity|..];
    cbn [NilEmpty.string_of_uint chars list_ascii_of_string digits_value Nat.of_uint_acc];
    match goal with
    | |- context [isdigit ?c] => change (isdigit c) with true; cbv iota
    end;
    match goal with
    | |- digits_value ?x true _ = Some (Z.of_nat (Nat.of_uint_acc _ ?a')) =>
        replace x with (Z.of_nat a')
          by (rewrite ?Nat2Z.inj_succ, Nat.tail_mul_spec, Nat2Z.inj_mul; simpl; lia)
    end;
    rewrite IHd; destruct d; reflexivity.
Qed.

Lemma digit_facts (c : ascii) :
  isdigit c = true ->
  int_space c = false /\ Ascii.eqb c "-" = false /\ Ascii.eqb c "+" = false
  /\ Ascii.eqb c "|" = false /\ isspace c = false.
Proof.
  destruct c as [[] [] [] [] [] [] [] []]; vm_compute; intros H;
    try discriminate H; repeat split.
Qed.

Lemma lstrip_int_id (l : list ascii) :
  head_is isdigit l = true -> lstrip_int l = l.
Proof.
  destruct l as [|c l]; [reflexivity|]. cbn [head_is lstrip_int]. intros H.
  destruct (digit_facts _ H) as (-> & _). reflexivity.
Qed.

Lemma head_is_forallb (q : ascii -> bool) (l : list ascii) :
  l <> [] -> forallb q l = true -> head_is q l = true.
Proof.
  destruct l as [|c l]; [congruence|]. cbn [forallb head_is].
  intros _ H. now apply andb_true_iff in H as [H _].
Qed.

Lemma filter_all {A : Type} (q : A -> bool) (l : list A) :
  forallb q l = true -> filter q l = l.
Proof.
  induction l as [|c l IH]; [reflexivity|]. cbn [forallb filter].
  intros H. apply andb_true_iff in H as [-> H]. now rewrite IH.
Qed.

(** [int(str(n))] is [n], within the limit [int] puts on the number of
    digits. *)
Lemma int_of_nat (n : nat) :
  String.length (of_nat n) <= 4300 -> int (of_nat n) = Some (Z.of_nat n).
Proof.
  intros Hlen. unfold int.
  pose proof (of_nat_digits n) as Hd.
  assert (Hne : chars (of_nat n) <> []).
  { intros E. apply (of_nat_not_empty n). rewrite <- (of_chars_chars (of_nat n)), E.
    reflexivity. }
  rewrite (lstrip_int_id _ (head_is_forallb _ Hne Hd)).
  rewrite lstrip_int_id, rev_involutive.
  2:{ apply head_is_forallb.
      - intros E. apply Hne. rewrite <- (rev_involutive (chars (of_nat n))), E. reflexivity.
      - rewrite forallb_forall in *. intros x Hx. apply Hd. now apply in_rev. }
  destruct (chars (of_nat n)) as [|c l] eqn:E; [congruence|].
  rewrite (filter_all _ _ Hd).
  replace (4300 <? Z.of_nat (List.length (c :: l)))%Z with false.
  2:{ symmetry. apply Z.ltb_ge. rewrite <- E, chars_length. lia. }
  cbn [forallb] in Hd. apply andb_true_iff in Hd as [Hc _].
  destruct (digit_facts _ Hc) as (_ & -> & -> & _).
  rewrite <- E. unfold of_nat.
  change 0%Z with (Z.of_nat 0).
  rewrite (digits_value_uint (Nat.to_uint n) 0 false).
  pose proof (to_uint_not_nil n) as Hnn.
  destruct (Nat.to_uint n) eqn:Eu; [contradiction|..];
    rewrite <- Eu; change (Nat.of_uint_acc (Nat.to_uint n) 0) with (Nat.of_uint (Nat.to_uint n));
    now rewrite Unsigned.of_to.
Qed.

Lemma split_chars_seg (sep : ascii) (a : list ascii) :
  free_of sep a = true ->
  forall (n : nat) (acc rest : list ascii),
    split_chars sep (S n) acc (a ++ sep :: rest)
    = (rev acc ++ a)%list :: split_chars sep n [] rest.
Proof.
  induction a as [|x a IH]; intros H n acc rest.
  - cbn [app split_chars]. rewrite Ascii.eqb_refl, List.app_nil_r. reflexivity.
  - cbn [free_of forallb] in H. apply andb_true_iff in H as [Hx H].
    apply negb_true_iff in Hx. cbn [app split_chars]. rewrite Hx.
    rewrite (IH H). cbn [rev]. now rewrite <- app_assoc.
Qed.

Lemma split_chars_last (sep : ascii) (l : list ascii) : split_chars sep 0 [] l = [l].
Proof. destruct l; reflexivity. Qed.

Lemma contains_free (sep : ascii) (s : string) :
  contains (String sep "") s = false -> free_of sep (chars s) = true.
Proof.
  unfold contains. change (chars (String sep "")) with [sep].
  induction (chars s) as [|c l IH]; [reflexivity|].
  cbn [contains_chars starts_with free_of forallb]. rewrite andb_true_r.
  intros H. apply orb_false_iff in H as [H1 H2].
  rewrite Ascii.eqb_sym, H1. cbn [negb andb]. now apply IH.
Qed.

Lemma free_contains (sep : ascii) (s : string) :
  free_of sep (chars s) = true -> contains (String sep "") s = false.
Proof.
  unfold contains. change (chars (String sep "")) with [sep].
  induction (chars s) as [|c l IH]; [reflexivity|].
  cbn [contains_chars starts_with free_of forallb]. rewrite andb_true_r.
  intros H. apply andb_true_iff in H as [H1 H2]. apply negb_true_iff in H1.
  rewrite Ascii.eqb_sym, H1. cbn [orb]. now apply IH.
Qed.

Lemma of_nat_free (n : nat) : free_of "|" (chars (of_nat n)) = true.
Proof.
  pose proof (of_nat_digits n) as H. unfold free_of.
  rewrite forallb_forall in *. intros x Hx.
  destruct (digit_facts _ (H x Hx)) as (_ & _ & _ & -> & _). reflexivity.
Qed.

(** The address of a plain entry, read back as [apply_text_edits] reads it. *)
Lemma parse_text_key_of (t c : string) (n : nat) :
  contains "|" t = false -> contains "|" c = false ->
  String.length (of_nat n) <= 4300 ->
  parse_text_key ("TEXT|" ++ t ++ "|" ++ c ++ "|" ++ of_nat n) = Some (t, c, Z.of_nat n).
Proof.
  intros Ht Hc Hn. unfold parse_text_key.
  change (startswith "TEXT|" ("TEXT|" ++ t ++ "|" ++ c ++ "|" ++ of_nat n)) with true.
  cbn [negb]. unfold split.
  replace (chars ("TEXT|" ++ t ++ "|" ++ c ++ "|" ++ of_nat n))
    with (chars "TEXT" ++ "|"%char :: chars t ++ "|"%char :: chars c
            ++ "|"%char :: chars (of_nat n))%list
    by (rewrite !chars_app; reflexivity).
  rewrite split_chars_seg by reflexivity.
  rewrite (@split_chars_seg "|" (chars t) (@contains_free "|" t Ht)).
  rewrite (@split_chars_seg "|" (chars c) (@contains_free "|" c Hc)).
  rewrite split_chars_last. cbn [map rev app].
  rewrite !of_chars_chars, (@int_of_nat n Hn). reflexivity.
Qed.


(** * Addresses: distinct keys, and reading a key back *)

Lemma chars_inj (s t : string) : chars s = chars t -> s = t.
Proof. intros H. rewrite <- (of_chars_chars s), <- (of_chars_chars t). now rewrite H. Qed.

Lemma app_sep_inj (sep : ascii) (a : list ascii) :
  forall (a' r r' : list ascii),
    free_of sep a = true -> free_of sep a' = true ->
    (a ++ sep :: r = a' ++ sep :: r')%list -> a = a' /\ r = r'.
Proof.
  induction a as [|x a IH]; intros [|x' a'] r r' H H' E; cbn [app] in E.
  - inversion E; auto.
  - inversion E; subst. cbn [free_of forallb] in H'. rewrite Ascii.eqb_refl in H'. discriminate.
  - inversion E; subst. cbn [free_of forallb] in H. rewrite Ascii.eqb_refl in H. discriminate.
  - inversion E; subst. cbn [free_of forallb] in H, H'.
    apply andb_true_iff in H as [_ H]. apply andb_true_iff in H' as [_ H'].
    destruct (IH a' r r' H H' H2) as [-> ->]. auto.
Qed.

Lemma free_of_rev (sep : ascii) (l : list ascii) :
  free_of sep l = true -> free_of sep (rev l) = true.
Proof.
  unfold free_of. rewrite !forallb_forall. intros H x Hx. apply H. now apply in_rev.
Qed.

Lemma sep_app_inj (sep : ascii) (d d' c c' : list ascii) :
  free_of sep d = true -> free_of sep d' = true ->
  (c ++ sep :: d = c' ++ sep :: d')%list -> c = c' /\ d = d'.
Proof.
  intros H H' E. apply (f_equal (@rev ascii)) in E.
  rewrite !rev_app_distr in E. cbn [rev] in E. rewrite <- !app_assoc in E. cbn [app] in E.
  apply app_sep_inj in E as [E1 E2]; try now apply free_of_rev.
  apply (f_equal (@rev ascii)) in E1, E2. rewrite !rev_involutive in E1, E2. auto.
Qed.

Lemma append_inj_prefix (p x y : string) : p ++ x = p ++ y -> x = y.
Proof. induction p as [|a p IH]; cbn [String.append]; [auto|]. intros E. inversion E. auto. Qed.

(** The key of a plain entry determines its tag name, class and
    occurrence. *)
Lemma text_key_inj (t t' c c' : string) (n n' : nat) :
  contains "|" t = false -> contains "|" t' = false ->
  "TEXT|" ++ t ++ "|" ++ c ++ "|" ++ of_nat n = "TEXT|" ++ t' ++ "|" ++ c' ++ "|" ++ of_nat n' ->
  t = t' /\ c = c' /\ n = n'.
Proof.
  intros Ht Ht' E. apply append_inj_prefix in E.
  apply (f_equal chars) in E. rewrite !chars_app in E.
  change (chars "|") with ["|"%char] in E. cbn [app] in E.
  apply app_sep_inj in E as [E1 E2]; try now apply contains_free.
  apply sep_app_inj in E2 as [E2 E3]; try apply of_nat_free.
  apply chars_inj in E1, E2, E3. apply of_nat_inj in E3. auto.
Qed.

Lemma candidate_tag_free (t : string) : In t CANDIDATE_TAGS -> contains "|" t = false.
Proof.
  unfold CANDIDATE_TAGS. simpl.
  intros [<- | [<- | [<- | [<- | [<- | [<- | []]]]]]]; reflexivity.
Qed.

Lemma number_candidates_occ (cands : list (string * string * string)) :
  forall counters r,
    In r (number_candidates counters cands) ->
    counter_get (tag_name r, class_str r) counters < occurrence r.
Proof.
  induction cands as [|[[t c] x] cands IH]; intros counters r; [contradiction|].
  cbn [number_candidates]. intros [<- | Hin].
  - cbn [tag_name class_str occurrence]. lia.
  - apply IH in Hin. rewrite counter_get_set in Hin.
    destruct (key2_eqb (tag_name r, class_str r) (t, c)) eqn:E; [|exact Hin].
    apply key2_eqb_eq in E. rewrite E. lia.
Qed.

Lemma number_candidates_addresses (cands : list (string * string * string)) :
  forall counters, NoDup (map address_of (number_candidates counters cands)).
Proof.
  induction cands as [|[[t c] x] cands IH]; intros counters; [constructor|].
  cbn [number_candidates map]. constructor; [|apply IH].
  intros Hin. apply in_map_iff in Hin as (r & Hr & Hin).
  apply number_candidates_occ in Hin. unfold address_of in Hr.
  cbn [tag_name class_str occurrence] in Hr.
  injection Hr as E1 E2 E3. rewrite E1, E2, E3 in Hin.
  rewrite counter_get_set, key2_eqb_refl in Hin. lia.
Qed.

Lemma number_candidates_key (cands : list (string * string * string)) :
  forall counters r,
    In r (number_candidates counters cands) ->
    key r = "TEXT|" ++ tag_name r ++ "|" ++ class_str r ++ "|" ++ of_nat (occurrence r)
    /\ kind r = "text"
    /\ In (tag_name r, class_str r, display r) cands.
Proof.
  induction cands as [|[[t c] x] cands IH]; intros counters r; [contradiction|].
  cbn [number_candidates]. intros [<- | Hin].
  - cbn [key tag_name class_str occurrence kind display]. split; [reflexivity|].
    split; [reflexivity | now left].
  - destruct (IH _ _ Hin) as (H1 & H2 & H3). split; [exact H1|]. split; [exact H2 | now right].
Qed.

Lemma NoDup_map_on {A B C : Type} (f : A -> B) (h : A -> C) (l : list A) :
  (forall x y, In x l -> In y l -> h x = h y -> f x = f y) ->
  NoDup (map f l) -> NoDup (map h l).
Proof.
  induction l as [|x l IH]; intros Hinj H; [constructor|].
  cbn [map] in *. inversion H as [|? ? Hx Hl]; subst. constructor.
  - intros Hin. apply Hx. apply in_map_iff in Hin as (y & Hy & Hin).
    apply in_map_iff. exists y. split; [|exact Hin].
    symmetry. apply Hinj; [now left | now right | now symmetry].
  - apply IH; [|exact Hl]. intros a b Ha Hb. apply Hinj; now right.
Qed.

Lemma name_in_In (names : list string) (n : node) :
  name_in names n = true -> In (Soup.tag_name n) names.
Proof.
  unfold name_in. intros H. apply existsb_exists in H as (x & Hx & E).
  apply String.eqb_eq in E. now subst.
Qed.

Section Keys.
Context {adapter : TreeAdapter}.

Lemma text_candidates_tags (html : string) (t c x : string) :
  In (t, c, x) (text_candidates html) -> In t CANDIDATE_TAGS.
Proof.
  unfold text_candidates. intros H. apply filter_map_In in H as ([p n] & Hin & H).
  unfold find_all in Hin. apply filter_In in Hin as [_ Hn]. cbn [snd] in *.
  apply candidate_of_key in H as [H _]. inversion H; subst.
  now apply name_in_In.
Qed.

Lemma plain_entry_key (html : string) (r : TextNodeRef) :
  In r (extract_text_nodes html) -> kind r = "text" ->
  In r (number_candidates [] (text_candidates html))
  /\ key r = "TEXT|" ++ tag_name r ++ "|" ++ class_str r ++ "|" ++ of_nat (occurrence r)
  /\ In (tag_name r) CANDIDATE_TAGS.
Proof.
  unfold extract_text_nodes. intros H Hk. apply in_app_or in H as [H | H].
  - split; [exact H|]. destruct (number_candidates_key _ _ _ H) as (H1 & _ & H3).
    split; [exact H1|]. eapply text_candidates_tags; eassumption.
  - pose proof (status_nodes_kind (_extract_status_texts_from_p_status html)) as Hs.
    rewrite Forall_forall in Hs. apply Hs in H. rewrite Hk in H. discriminate.
Qed.

Lemma status_keys_nodup (texts : list (string * string)) :
  NoDup (map key (status_nodes_of texts)).
Proof.
  rewrite status_nodes_keys. unfold STATUSES. cbn [filter].
  repeat match goal with
         | |- context [assoc ?s texts] => destruct (assoc s texts)
         end; cbn [map];
    repeat (constructor; [cbn [In]; intros H;
                          repeat (destruct H as [H | H]; [discriminate H|]); exact H|]);
    constructor.
Qed.

(** X7. The keys of the list are pairwise distinct. *)
Theorem entry_keys_are_distinct (html : string) :
  NoDup (map key (extract_text_nodes html)).
Proof.
  assert (Hplain : NoDup (map key (number_candidates [] (text_candidates html)))).
  { apply NoDup_map_on with (f := address_of); [|apply number_candidates_addresses].
    intros x y Hx Hy E.
    destruct (number_candidates_key _ _ _ Hx) as (Kx & _ & Tx).
    destruct (number_candidates_key _ _ _ Hy) as (Ky & _ & Ty).
    apply text_candidates_tags, candidate_tag_free in Tx, Ty.
    rewrite Kx, Ky in E. apply text_key_inj in E as (E1 & E2 & E3); try assumption.
    unfold address_of. now rewrite E1, E2, E3. }
  unfold extract_text_nodes. rewrite map_app. apply NoDup_app; [exact Hplain | |].
  - apply status_keys_nodup.
  - intros k H1 H2.
    apply in_map_iff in H1 as (r1 & <- & H1). apply in_map_iff in H2 as (r2 & E & H2).
    pose proof (number_candidates_keys [] (text_candidates html)) as Hn.
    pose proof (status_nodes_keys_prefix (_extract_status_texts_from_p_status html)) as Hs.
    rewrite Forall_forall in Hn, Hs. apply Hn in H1. apply Hs in H2.
    rewrite E in H2. apply text_key_is_not_status_key in H1. congruence.
Qed.

(** X8. The key of a plain entry is read back by [apply_text_edits] as the
    tag name, the class and the occurrence of the entry, when the class
    holds no bar. *)
Theorem entry_key_is_read_back (html : string) (r : TextNodeRef) :
  In r (extract_text_nodes html) ->
  kind r = "text" ->
  contains "|" (class_str r) = false ->
  String.length (of_nat (occurrence r)) <= 4300 ->
  parse_text_key (key r) = Some (tag_name r, class_str r, Z.of_nat (occurrence r)).
Proof.
  intros Hin Hk Hc Hn. destruct (plain_entry_key _ _ Hin Hk) as (_ & -> & Ht).
  apply parse_text_key_of; [now apply candidate_tag_free | exact Hc | exact Hn].
Qed.

End Keys.


(** * A class attribute that holds the separator *)

Lemma digits_value_bar (l : list ascii) :
  forall (acc : Z) (b : bool), In "|"%char l -> digits_value acc b l = None.
Proof.
  induction l as [|c l IH]; intros acc b H; [contradiction|].
  cbn [digits_value]. destruct H as [-> | H].
  - reflexivity.
  - destruct (isdigit c); [now apply IH|].
    destruct (Ascii.eqb c "_" && b); [|reflexivity].
    destruct l as [|d l']; [reflexivity|]. destruct (isdigit d); [now apply IH | reflexivity].
Qed.

Lemma lstrip_int_bar (l : list ascii) : In "|"%char l -> In "|"%char (lstrip_int l).
Proof.
  induction l as [|c l IH]; [auto|]. cbn [lstrip_int]. intros [-> | H].
  - now left.
  - destruct (int_space c); [auto | now right].
Qed.

(** [int] refuses a string that holds a bar. *)
Lemma int_bar (s : string) : In "|"%char (chars s) -> int s = None.
Proof.
  intros H. unfold int.
  assert (H' : In "|"%char (rev (lstrip_int (rev (lstrip_int (chars s)))))).
  { apply -> in_rev. apply lstrip_int_bar. apply -> in_rev. now apply lstrip_int_bar. }
  destruct (rev (lstrip_int (rev (lstrip_int (chars s))))) as [|c l]; [reflexivity|].
  destruct (4300 <? _)%Z; [reflexivity|].
  destruct (Ascii.eqb c "-") eqn:E1.
  { apply Ascii.eqb_eq in E1. subst c. destruct H' as [H' | H']; [discriminate|].
    now rewrite digits_value_bar. }
  destruct (Ascii.eqb c "+") eqn:E2.
  { apply Ascii.eqb_eq in E2. subst c. destruct H' as [H' | H']; [discriminate|].
    now rewrite digits_value_bar. }
  now apply digits_value_bar.
Qed.

Lemma first_sep_split (sep : ascii) (l : list ascii) :
  free_of sep l = false ->
  exists a b, l = (a ++ sep :: b)%list /\ free_of sep a = true.
Proof.
  induction l as [|c l IH]; [discriminate|]. cbn [free_of forallb].
  destruct (Ascii.eqb c sep) eqn:E; cbn [negb andb].
  - apply Ascii.eqb_eq in E. subst. intros _. exists [], l. auto.
  - intros H. destruct (IH H) as (a & b & -> & Ha). exists (c :: a), b.
    cbn [app free_of forallb]. rewrite E. auto.
Qed.

Lemma contains_not_free (sep : ascii) (s : string) :
  contains (String sep "") s = true -> free_of sep (chars s) = false.
Proof.
  intros H. destruct (free_of sep (chars s)) eqn:E; [|reflexivity].
  apply free_contains in E. congruence.
Qed.

(** A key whose class holds a bar is not read as an address. *)
Lemma parse_text_key_bar (t c : string) (n : nat) :
  contains "|" t = false -> contains "|" c = true ->
  parse_text_key ("TEXT|" ++ t ++ "|" ++ c ++ "|" ++ of_nat n) = None.
Proof.
  intros Ht Hc. unfold parse_text_key.
  change (startswith "TEXT|" ("TEXT|" ++ t ++ "|" ++ c ++ "|" ++ of_nat n)) with true.
  cbn [negb]. unfold split.
  destruct (@first_sep_split "|" (chars c) (@contains_not_free "|" c Hc)) as (c1 & c2 & Ec & Hc1).
  replace (chars ("TEXT|" ++ t ++ "|" ++ c ++ "|" ++ of_nat n))
    with (chars "TEXT" ++ "|"%char :: chars t ++ "|"%char :: c1
            ++ "|"%char :: (c2 ++ "|"%char :: chars (of_nat n)))%list.
  2:{ rewrite !chars_app, Ec, <- !app_assoc. reflexivity. }
  rewrite split_chars_seg by reflexivity.
  rewrite (@split_chars_seg "|" (chars t) (@contains_free "|" t Ht)).
  rewrite (@split_chars_seg "|" c1 Hc1).
  rewrite split_chars_last. cbn [map rev app].
  rewrite int_bar; [reflexivity|].
  rewrite chars_of_chars. apply in_or_app. right. now left.
Qed.

Section BarInClass.
Context {adapter : TreeAdapter}.

(** X9. A plain entry whose class holds a bar cannot be edited: the edit
    addressed to it is dropped. *)
Theorem bar_in_class_blocks_the_edit (html new_text : string) (r : TextNodeRef) :
  In r (extract_text_nodes html) ->
  kind r = "text" ->
  contains "|" (class_str r) = true ->
  apply_text_edits html [(key r, new_text)] = apply_text_edits html [].
Proof.
  intros Hin Hk Hc. destruct (plain_entry_key _ _ Hin Hk) as (_ & Ekey & Ht).
  assert (Hp : parse_text_key (key r) = None).
  { rewrite Ekey. apply parse_text_key_bar; [now apply candidate_tag_free | exact Hc]. }
  unfold apply_text_edits. cbn [fold_left]. unfold apply_one_edit at 1. rewrite Hp.
  unfold collect_status_edits. cbn [filter_map fst].
  replace (startswith "STATUS|" (key r)) with false; [reflexivity|].
  symmetry. apply text_key_is_not_status_key. rewrite Ekey. reflexivity.
Qed.

End BarInClass.


(** * One edit, in general *)

Section EditReaches.
Context {adapter : TreeAdapter}.

(** The [i]-th indexed tag and the [i]-th entry, when extraction skips
    nothing. *)
Lemma entry_of_indexed_tag (html : string) (i : nat) (pn : path * node) :
  decompose_all SKIP_TAGS (parse html) = parse html ->
  (forall q, In q (indexed_tags (parse html)) -> candidate_of (snd q) <> None) ->
  nth_error (indexed_tags (parse html)) i = Some pn ->
  exists t c x n,
    candidate_of (snd pn) = Some (t, c, x)
    /\ nth_error (extract_text_nodes html) i = Some (text_ref t c x (n + 1))
    /\ nth_error (index_get (t, c) (build_index (parse html))) n = Some (fst pn).
Proof.
  intros Hskip Hkept Hi.
  assert (Hc : text_candidates html = map triple_of (indexed_tags (parse html))).
  { unfold text_candidates, indexed_tags. rewrite Hskip.
    apply candidates_are_indexed_tags. intros q Hq Hl. apply Hkept.
    unfold indexed_tags. apply filter_In. auto. }
  assert (Hpn : candidate_of (snd pn) <> None).
  { apply Hkept. eapply nth_error_In; eassumption. }
  destruct (candidate_of (snd pn)) as [[[t c] x]|] eqn:Ecand; [clear Hpn | contradiction].
  assert (Ht : triple_of pn = (t, c, x)) by (unfold triple_of; now rewrite Ecand).
  assert (Hnth : nth_error (text_candidates html) i = Some (t, c, x)).
  { rewrite Hc, nth_error_map, Hi. simpl. now rewrite Ht. }
  pose proof (number_candidates_nth _ [] _ Hnth) as Hr.
  exists t, c, x.
  exists (List.length (filter (fun q => key2_eqb (t, c) (key_of (snd q)))
                              (firstn i (indexed_tags (parse html))))).
  split; [reflexivity|]. split.
  { unfold extract_text_nodes. rewrite nth_error_app1.
    - rewrite Hr. cbn [counter_get]. rewrite Hc, firstn_map, filter_key_map_triple.
      reflexivity.
    - apply nth_error_Some. rewrite Hr. discriminate. }
  rewrite index_get_build_index, nth_error_map.
  rewrite (nth_error_filter_prefix _ _ _ Hi); [reflexivity|].
  apply candidate_of_key in Ecand as [-> _]. apply key2_eqb_refl.
Qed.

Lemma indexed_tag_lookup (s : soup) (pn : path * node) :
  In pn (indexed_tags s) -> lookup (fst pn) s = Some (snd pn) /\ In (Soup.tag_name (snd pn)) CANDIDATE_TAGS.
Proof.
  unfold indexed_tags. intros H. apply filter_In in H as [H _]. destruct pn as [p n].
  split; [eapply find_all_lookup; eassumption|].
  unfold find_all in H. apply filter_In in H as [_ H]. now apply name_in_In.
Qed.

(** X10. When extraction skips nothing (no [style], [script], [svg] or
    [head] element, and no indexed tag without an entry), the class of the
    [i]-th entry holds no bar, its occurrence has at most 4300 digits (the
    bound of [int]), and the string of the [i]-th indexed tag, if it holds
    template markers, has a label that is not empty: the edit addressed to
    the [i]-th entry rewrites the string of the element the entry was made
    for, and nothing beside or above that element. *)
Theorem edit_reaches_its_element (html new_text raw : string) (i : nat)
  (pn : path * node) (r : TextNodeRef) :
  decompose_all SKIP_TAGS (parse html) = parse html ->
  (forall q, In q (indexed_tags (parse html)) -> candidate_of (snd q) <> None) ->
  nth_error (indexed_tags (parse html)) i = Some pn ->
  nth_error (extract_text_nodes html) i = Some r ->
  tag_string (snd pn) = Some raw ->
  (has_jinja raw = true -> strip_jinja raw <> "") ->
  contains "|" (class_str r) = false ->
  String.length (of_nat (occurrence r)) <= 4300 ->
  apply_text_edits html [(key r, new_text)]
  = decode (update (fst pn) (set_string (edited_string raw new_text)) (parse html))
  /\ lookup (fst pn) (parse html) = Some (snd pn)
  /\ forall q, is_prefix (fst pn) q = false -> is_prefix q (fst pn) = false ->
               lookup q (update (fst pn) (set_string (edited_string raw new_text)) (parse html))
               = lookup q (parse html).
Proof.
  intros Hskip Hkept Hi Hr Hraw Hlabel Hbar Hdigits.
  destruct (@entry_of_indexed_tag html i pn Hskip Hkept Hi) as (t & c & x & n & Hcand & Hr' & Hidx).
  rewrite Hr in Hr'. injection Hr' as ->.
  cbn [class_str occurrence key text_ref] in *.
  destruct (@indexed_tag_lookup (parse html) pn (nth_error_In _ _ Hi)) as [Hlook Htag].
  apply candidate_of_key in Hcand as [Hkey _]. unfold key_of in Hkey.
  injection Hkey as Ht Hc. rewrite <- Ht in Htag.
  split; [|split; [exact Hlook | intros q H1 H2; now apply lookup_update_apart]].
  unfold apply_text_edits. cbn [fold_left]. unfold apply_one_edit at 1.
  rewrite (@parse_text_key_of t c (n + 1) (@candidate_tag_free t Htag) Hbar Hdigits).
  assert (Hlen : n < List.length (index_get (t, c) (build_index (parse html)))).
  { apply nth_error_Some. rewrite Hidx. discriminate. }
  replace ((1 <=? Z.of_nat (n + 1))%Z
           && (Z.of_nat (n + 1) <=? Z.of_nat (List.length (index_get (t, c) (build_index (parse html)))))%Z)
    with true by (symmetry; apply andb_true_iff; split; apply Z.leb_le; lia).
  cbn [negb]. replace (Z.to_nat (Z.of_nat (n + 1) - 1)) with n by lia.
  rewrite Hidx, Hlook. cbn [old_raw_of]. rewrite Hraw.
  unfold collect_status_edits. cbn [filter_map fst].
  change (startswith "STATUS|" ("TEXT|" ++ t ++ "|" ++ c ++ "|" ++ of_nat (n + 1))) with false.
  cbv iota. unfold edited_string.
  destruct (has_jinja raw) eqn:Hj; [|reflexivity].
  destruct (is_empty (strip_jinja raw)) eqn:He; [|reflexivity].
  apply is_empty_true in He. now destruct (Hlabel eq_refl).
Qed.

End EditReaches.


(** * Image entries: distinct numbers and locators *)

Lemma uint_of_zeros (k : nat) (s : string) :
  NilEmpty.uint_of_string (zeros k ++ s)
  = option_map (pad_uint k) (NilEmpty.uint_of_string s).
Proof.
  induction k as [|k IH]; cbn [zeros String.append pad_uint].
  - now destruct (NilEmpty.uint_of_string s).
  - cbn [NilEmpty.uint_of_string]. rewrite IH.
    now destruct (NilEmpty.uint_of_string s).
Qed.

Lemma of_uint_pad (k : nat) (d : Decimal.uint) : Nat.of_uint (pad_uint k d) = Nat.of_uint d.
Proof.
  induction k as [|k IH]; [reflexivity|]. cbn [pad_uint]. rewrite <- IH. reflexivity.
Qed.

Lemma of_nat_03d_inj (n m : nat) : of_nat_03d n = of_nat_03d m -> n = m.
Proof.
  unfold of_nat_03d, of_nat. intros E.
  apply (f_equal NilEmpty.uint_of_string) in E.
  rewrite !uint_of_zeros, !NilEmpty.usu in E. cbn [option_map] in E.
  injection E as E. apply (f_equal Nat.of_uint) in E.
  now rewrite !of_uint_pad, !Unsigned.of_to in E.
Qed.

Lemma imap_pair_index {A : Type} (l : list A) :
  forall (i k : nat) (x : A), In (k, x) (imap (fun i x => (i, x)) i l) -> i <= k.
Proof.
  induction l as [|y l IH]; intros i k x; [contradiction|].
  cbn [imap]. intros [E | H]; [inversion E; lia|]. apply IH in H. lia.
Qed.

Lemma NoDup_filter_map_imap {A B C : Type} (f : nat * A -> option B) (g : B -> C)
  (l : list A) :
  (forall i x y i' x' y', f (i, x) = Some y -> f (i', x') = Some y' -> g y = g y' -> i = i') ->
  forall i, NoDup (map g (filter_map f (imap (fun i x => (i, x)) i l))).
Proof.
  intros Hinj. induction l as [|x l IH]; intros i; [constructor|].
  cbn [imap filter_map]. destruct (f (i, x)) as [y|] eqn:E; [|apply IH].
  cbn [map]. constructor; [|apply IH].
  intros Hin. apply in_map_iff in Hin as (y' & Hy & Hin).
  apply filter_map_In in Hin as ([k x'] & Hk & Hf).
  apply imap_pair_index in Hk. specialize (Hinj _ _ _ _ _ _ E Hf (eq_sym Hy)). lia.
Qed.

Lemma NoDup_concat_imap {A B C : Type} (h : nat -> A -> list B) (g : B -> C) (tag : C -> nat)
  (l : list A) :
  (forall i x, NoDup (map g (h i x))) ->
  (forall i x y, In y (h i x) -> tag (g y) = i) ->
  forall i, NoDup (map g (List.concat (imap h i l)))
            /\ forall y, In y (List.concat (imap h i l)) -> i <= tag (g y).
Proof.
  intros H1 H2. induction l as [|x l IH]; intros i.
  - split; [constructor | contradiction].
  - change (imap h i (x :: l)) with (h i x :: imap h (S i) l). cbn [List.concat].
    destruct (IH (S i)) as [IHa IHb]. split.
    + rewrite map_app. apply NoDup_app; [apply H1 | exact IHa |].
      intros c Ha Hb. apply in_map_iff in Ha as (y & <- & Ha).
      apply in_map_iff in Hb as (y' & E & Hb).
      apply H2 in Ha. apply IHb in Hb. rewrite E in Hb. lia.
    + intros y Hy. apply in_app_or in Hy as [Hy | Hy].
      * apply H2 in Hy. lia.
      * apply IHb in Hy. lia.
Qed.

Lemma url_items_locators (kind_ : string) (tag_idx : nat) (urls : list string) :
  NoDup (map (fun it : image_item => snd it) (url_items kind_ tag_idx urls))
  /\ forall it, In it (url_items kind_ tag_idx urls) ->
                loc_kind (snd it) = kind_ /\ a (snd it) = Z.of_nat tag_idx.
Proof.
  unfold url_items. split.
  - apply NoDup_filter_map_imap. intros i x y i' x' y'. cbn [fst snd].
    destruct (is_empty (strip x)); [discriminate|].
    destruct (is_empty (strip x')); [discriminate|].
    intros E E' H. inversion E; inversion E'; subst. cbn [snd] in H.
    inversion H. lia.
  - intros it H. apply filter_map_In in H as ([k x] & _ & H). cbn [fst snd] in H.
    destruct (is_empty (strip x)); [discriminate|]. inversion H. auto.
Qed.

Lemma img_items_locators (imgs : list (path * node)) :
  NoDup (map (fun it : image_item => snd it) (img_items imgs))
  /\ forall it, In it (img_items imgs) -> loc_kind (snd it) = "img".
Proof.
  unfold img_items. split.
  - apply NoDup_filter_map_imap. intros i x y i' x' y'. cbn [fst snd].
    destruct (is_empty (src_of (snd x))); [discriminate|].
    destruct (is_empty (src_of (snd x'))); [discriminate|].
    intros E E' H. inversion E; inversion E'; subst. cbn [snd] in H.
    inversion H. lia.
  - intros it H. apply filter_map_In in H as ([k x] & _ & H). cbn [fst snd] in H.
    destruct (is_empty (src_of (snd x))); [discriminate|]. inversion H. auto.
Qed.

Lemma tagged_items_locators (kind_ : string) (text_of : node -> string)
  (tags : list (path * node)) :
  NoDup (map (fun it : image_item => snd it)
             (List.concat (imap (fun i (tag : path * node) =>
                                   url_items kind_ i (Re.findall1 BG_URL_RE (text_of (snd tag))))
                                0 tags)))
  /\ forall it, In it (List.concat (imap (fun i (tag : path * node) =>
                                   url_items kind_ i (Re.findall1 BG_URL_RE (text_of (snd tag))))
                                0 tags)) -> loc_kind (snd it) = kind_.
Proof.
  split.
  - apply (@NoDup_concat_imap _ _ _
             (fun i (tag : path * node) =>
                url_items kind_ i (Re.findall1 BG_URL_RE (text_of (snd tag))))
             (fun it : image_item => snd it)
             (fun loc => Z.to_nat (a loc))).
    + intros i x. apply url_items_locators.
    + intros i x y Hy. apply url_items_locators in Hy as [_ ->]. lia.
  - intros it H. apply concat_imap_In in H as (i & c & _ & _ & H).
    now apply url_items_locators in H as [-> _].
Qed.

Lemma image_items_locators (s : soup) :
  NoDup (map (fun it : image_item => snd it) (image_items s)).
Proof.
  unfold image_items, inline_items, block_items. rewrite !map_app.
  destruct (img_items_locators (find_all ["img"] s)) as [N1 K1].
  destruct (tagged_items_locators "inline_style" style_of (find_all_with_attr "style" s))
    as [N2 K2].
  destruct (tagged_items_locators "style_tag" get_text (find_all ["style"] s)) as [N3 K3].
  apply NoDup_app; [exact N1 | apply NoDup_app; [exact N2 | exact N3 |] |].
  - intros loc H H'. apply in_map_iff in H as (it & <- & H).
    apply in_map_iff in H' as (it' & E & H'). apply K2 in H. apply K3 in H'.
    rewrite E in H'. rewrite H in H'. discriminate.
  - intros loc H H'. apply in_map_iff in H as (it & <- & H). apply K1 in H.
    apply in_app_or in H' as [H' | H']; apply in_map_iff in H' as (it' & E & H').
    + apply K2 in H'. rewrite E, H in H'. discriminate.
    + apply K3 in H'. rewrite E, H in H'. discriminate.
Qed.

Section Ids.
Context {adapter : TreeAdapter} {codec : ImageCodec}.

Lemma number_entries_ids (items : list image_item) :
  forall c, NoDup (map img_id (number_entries c items))
            /\ forall e, In e (number_entries c items) ->
                         exists k, c < k /\ img_id e = "IMG" ++ of_nat_03d k.
Proof.
  induction items as [|[[s u] loc] items IH]; intros c.
  - split; [constructor | contradiction].
  - cbn [number_entries map]. destruct (IH (c + 1)) as [IHa IHb]. split.
    + constructor; [|exact IHa]. rewrite img_id_entry_of.
      intros H. apply in_map_iff in H as (e & E & H).
      apply IHb in H as (k & Hk & Ek). rewrite Ek in E.
      apply append_inj_prefix in E. apply of_nat_03d_inj in E. lia.
    + intros e [<- | H].
      * exists (c + 1). rewrite img_id_entry_of. split; [lia | reflexivity].
      * apply IHb in H as (k & Hk & Ek). exists k. split; [lia | exact Ek].
Qed.

(** X11. No two entries of [extract_images] share their identifier, and no
    two share their locator. *)
Theorem image_entries_are_told_apart (html : string) :
  NoDup (map img_id (extract_images html))
  /\ NoDup (map locator (extract_images html)).
Proof.
  rewrite extract_images_items. split.
  - apply number_entries_ids.
  - rewrite number_entries_locators. apply image_items_locators.
Qed.

End Ids.


(* ------------------------------------------------------------------ *)
(** * Image replacement: scanning the result again *)
(* ------------------------------------------------------------------ *)

Lemma map_nth_ext {A : Type} (f g : A -> A) (i : nat) (l : list A) :
  (forall x, f x = g x) -> map_nth i f l = map_nth i g l.
Proof.
  intros H. revert i; induction l as [|x l IH]; intros [|i]; simpl; try reflexivity.
  - now rewrite H.
  - now rewrite IH.
Qed.

Lemma update_cons (f : node -> node) (r : path) :
  forall (i : nat) (s : soup), update (i :: r) f s = map_nth i (upd_node r f) s.
Proof.
  induction r as [|j r IH]; intros i s; [reflexivity|].
  change (update (i :: j :: r) f s) with (map_nth i (on_contents (update (j :: r) f)) s).
  apply map_nth_ext. intros [k t | nm at_ cs]; cbn [upd_node on_contents]; [reflexivity|].
  now rewrite IH.
Qed.

Lemma locator_eqb_eq (x y : ImageLocator) : locator_eqb x y = true <-> x = y.
Proof.
  unfold locator_eqb. destruct x as [k1 a1 b1], y as [k2 a2 b2]. cbn [loc_kind a b].
  rewrite !andb_true_iff, String.eqb_eq, !Z.eqb_eq. split.
  - intros [[-> ->] ->]. reflexivity.
  - intros E. inversion E. auto.
Qed.

Lemma map_map_nth {A B : Type} (h : A -> B) (g : A -> A) (i : nat) (l : list A) :
  (forall x, h (g x) = h x) -> map h (map_nth i g l) = map h l.
Proof.
  intros H. revert i; induction l as [|x l IH]; intros [|i]; simpl; try reflexivity.
  - now rewrite H.
  - now rewrite IH.
Qed.

(** Setting an attribute changes no string. *)
Lemma strings_of_upd_node (k v : string) (types : list strkind) (n : node) :
  forall r, strings_of types (upd_node r (set_attr k v) n) = strings_of types n.
Proof.
  induction n as [kd s | nm at_ cs IH] using node_induction; intros [|i r]; try reflexivity.
  cbn [upd_node on_contents strings_of]. f_equal.
  revert i; induction cs as [|c cs IHcs]; intros [|i]; simpl; try reflexivity.
  - inversion IH; subst. now rewrite H1.
  - inversion IH; subst. now rewrite IHcs.
Qed.

Lemma Forall2_same {A : Type} (R : A -> A -> Prop) (l : list A) :
  (forall x, In x l -> R x x) -> Forall2 R l l.
Proof.
  induction l as [|x l IH]; intros H; constructor.
  - apply H. now left.
  - apply IH. intros y Hy. apply H. now right.
Qed.

Lemma attr_step_same (k v : string) (p : path) (x : path * node) :
  fst x <> p -> attr_step k v p x x.
Proof. intros H. unfold attr_step. repeat split; auto. intros E. contradiction. Qed.

(** The paths of the elements below a node start with the path of the node. *)
Lemma tags_of_path (n : node) (p q : path) (m : node) :
  In (q, m) (tags_of p n) -> exists r, q = (p ++ r)%list.
Proof. intros H. apply tags_of_sub_node in H as (r & H & _). eauto. Qed.

Lemma children_path (q : path) (cs : list node) (i : nat) (x : path * node) :
  In x (List.concat (imap (fun i c => tags_of (q ++ [i])%list c) i cs)) ->
  exists k t, i <= k /\ fst x = (q ++ k :: t)%list.
Proof.
  intros H. apply concat_imap_In in H as (k & c & Hk & _ & H).
  destruct x as [p m]. apply tags_of_path in H as (t & ->).
  exists k, t. split; [exact Hk|]. cbn [fst]. now rewrite <- app_assoc.
Qed.

Lemma app_cons_neq (q t : path) (k : nat) : (q ++ k :: t)%list <> q.
Proof.
  intros E. apply (f_equal (@List.length nat)) in E. rewrite length_app in E.
  simpl in E. lia.
Qed.

Lemma children_step (k v : string) (q r : path) (cs : list node) :
  Forall (fun c => forall q r, Forall2 (attr_step k v (q ++ r)%list)
                                 (tags_of q c) (tags_of q (upd_node r (set_attr k v) c))) cs ->
  forall i j,
    Forall2 (attr_step k v (q ++ (i + j) :: r)%list)
      (List.concat (imap (fun i c => tags_of (q ++ [i])%list c) i cs))
      (List.concat (imap (fun i c => tags_of (q ++ [i])%list c) i
                      (map_nth j (upd_node r (set_attr k v)) cs))).
Proof.
  induction cs as [|c cs IHcs]; intros IH i j.
  - destruct j; constructor.
  - inversion IH as [|c' cs' Hc Hcs]; subst.
    destruct j as [|j].
    + cbn [map_nth]. 
      change (imap ?f i (?x :: ?l)) with (f i x :: imap f (S i) l). cbn [List.concat].
      apply Forall2_app.
      * specialize (Hc (q ++ [i])%list r). rewrite <- app_assoc in Hc. cbn [app] in Hc.
        now rewrite Nat.add_0_r.
      * apply Forall2_same. intros x Hx. apply attr_step_same.
        apply children_path in Hx as (k' & t & Hk & ->).
        intros E. apply app_inv_head in E. inversion E. lia.
    + cbn [map_nth].
      change (imap ?f i (?x :: ?l)) with (f i x :: imap f (S i) l). cbn [List.concat].
      apply Forall2_app.
      * apply Forall2_same. intros [p m] Hx. apply attr_step_same.
        apply tags_of_path in Hx as (t & ->). cbn [fst]. rewrite <- app_assoc. cbn [app].
        intros E. apply app_inv_head in E. inversion E. lia.
      * replace (i + S j) with (S i + j) by lia. apply IHcs. exact Hcs.
Qed.

(** Setting an attribute inside a node: the elements below it, one by one. *)
Lemma tags_of_upd_node (k v : string) (n : node) :
  forall q r, Forall2 (attr_step k v (q ++ r)%list)
                (tags_of q n) (tags_of q (upd_node r (set_attr k v) n)).
Proof.
  induction n as [kd s | nm at_ cs IH] using node_induction; intros q r.
  - destruct r; constructor.
  - destruct r as [|j r].
    + cbn [upd_node set_attr tags_of]. rewrite app_nil_r. constructor.
      * unfold attr_step. cbn [fst snd Soup.tag_name tag_attrs strings_of].
        repeat split; auto. intros E. contradiction.
      * apply Forall2_same. intros x Hx. apply attr_step_same.
        apply children_path in Hx as (k' & t & _ & ->). apply app_cons_neq.
    + cbn [upd_node on_contents tags_of]. constructor.
      * unfold attr_step. cbn [fst snd Soup.tag_name tag_attrs strings_of].
        split; [reflexivity|]. split; [reflexivity|]. split.
        { intros types. f_equal. apply map_map_nth. intros x. apply strings_of_upd_node. }
        split; [|reflexivity]. intros E. symmetry in E. now apply app_cons_neq in E.
      * apply (children_step q r IH 0 j).
Qed.

(** Setting an attribute at a path: the elements of the document, one by
    one. *)
Lemma all_tags_update (k v : string) (p : path) (s : soup) :
  Forall2 (attr_step k v p) (all_tags s) (all_tags (update p (set_attr k v) s)).
Proof.
  destruct p as [|i r].
  - cbn [update]. apply Forall2_same. intros x Hx. apply attr_step_same.
    apply (children_path []) in Hx as (k' & t & _ & ->). discriminate.
  - rewrite update_cons. unfold all_tags.
    assert (H : Forall (fun c => forall q r, Forall2 (attr_step k v (q ++ r)%list)
                           (tags_of q c) (tags_of q (upd_node r (set_attr k v) c))) s).
    { rewrite Forall_forall. intros c _. apply tags_of_upd_node. }
    exact (@children_step k v [] r s H 0 i).
Qed.

(** No two elements of a document share their path. *)
Lemma children_paths_nodup (q : path) (cs : list node) :
  Forall (fun c => forall q, NoDup (map fst (tags_of q c))) cs ->
  forall i, NoDup (map fst (List.concat (imap (fun i c => tags_of (q ++ [i])%list c) i cs))).
Proof.
  induction cs as [|c cs IHcs]; intros IH i; [constructor|].
  inversion IH as [|c' cs' Hc Hcs]; subst.
  change (imap ?f i (?x :: ?l)) with (f i x :: imap f (S i) l). cbn [List.concat].
  rewrite map_app. apply NoDup_app; [apply Hc | now apply IHcs |].
  intros p Ha Hb. apply in_map_iff in Ha as ([p1 m1] & <- & Ha).
  apply in_map_iff in Hb as (y & E & Hb).
  apply tags_of_path in Ha as (t & ->).
  apply children_path in Hb as (k' & t' & Hk & Hy). cbn [fst] in E. rewrite Hy in E.
  rewrite <- app_assoc in E. apply app_inv_head in E. inversion E. lia.
Qed.

Lemma tags_of_paths_nodup (n : node) : forall q, NoDup (map fst (tags_of q n)).
Proof.
  induction n as [kd s | nm at_ cs IH] using node_induction; intros q; [constructor|].
  cbn [tags_of map fst]. constructor.
  - intros H. apply in_map_iff in H as (y & E & H).
    apply children_path in H as (k' & t & _ & Hy). rewrite Hy in E.
    now apply app_cons_neq in E.
  - now apply children_paths_nodup.
Qed.

Lemma all_tags_paths_nodup (s : soup) : NoDup (map fst (all_tags s)).
Proof.
  unfold all_tags. apply (@children_paths_nodup [] s).
  rewrite Forall_forall. intros c _. apply tags_of_paths_nodup.
Qed.

Lemma NoDup_map_filter {A B : Type} (f : A -> B) (pr : A -> bool) (l : list A) :
  NoDup (map f l) -> NoDup (map f (filter pr l)).
Proof.
  induction l as [|x l IH]; intros H; [constructor|].
  inversion H as [|y l' Hn Hl]; subst. cbn [filter].
  destruct (pr x); [|now apply IH]. cbn [map]. constructor; [|now apply IH].
  intros Hin. apply Hn. apply in_map_iff in Hin as (z & E & Hin).
  apply filter_In in Hin as [Hin _]. apply in_map_iff. eauto.
Qed.

Lemma Forall2_filter {A : Type} (R : A -> A -> Prop) (pr : A -> bool) (l l' : list A) :
  Forall2 R l l' -> (forall x y, R x y -> pr y = pr x) ->
  Forall2 R (filter pr l) (filter pr l').
Proof.
  intros H Hp. induction H as [|x y l l' Hxy Hl IH]; [constructor|].
  cbn [filter]. rewrite (Hp _ _ Hxy). destruct (pr x); [constructor|]; assumption.
Qed.

Lemma assoc_set_same (k v : string) (l : list (string * string)) :
  assoc k (assoc_set k v l) = Some v.
Proof.
  induction l as [|[k' v'] l IH]; simpl.
  - now rewrite String.eqb_refl.
  - destruct (String.eqb k k') eqn:E; simpl; [now rewrite String.eqb_refl|].
    now rewrite E.
Qed.

Lemma assoc_set_other (k k' v : string) (l : list (string * string)) :
  k' <> k -> assoc k' (assoc_set k v l) = assoc k' l.
Proof.
  intros Hne. induction l as [|[k2 v2] l IH]; simpl.
  - apply String.eqb_neq in Hne. now rewrite Hne.
  - destruct (String.eqb k k2) eqn:E; simpl.
    + apply String.eqb_eq in E. subst k2.
      apply String.eqb_neq in Hne. now rewrite Hne.
    + now rewrite IH.
Qed.

Lemma attr_step_get_other (k k' v : string) (p : path) (x y : path * node) :
  k' <> k -> attr_step k v p x y -> get k' (snd y) = get k' (snd x).
Proof.
  intros Hne (_ & _ & _ & H1 & H2). unfold get.
  destruct (list_eq_dec Nat.eq_dec (fst x) p) as [E | E].
  - rewrite (H1 E). now apply assoc_set_other.
  - now rewrite (H2 E).
Qed.

Lemma find_all_update (names : list string) (k v : string) (p : path) (s : soup) :
  Forall2 (attr_step k v p) (find_all names s) (find_all names (update p (set_attr k v) s)).
Proof.
  unfold find_all. apply Forall2_filter; [apply all_tags_update|].
  intros x y (_ & Hn & _). unfold name_in. now rewrite Hn.
Qed.

Lemma find_all_with_attr_update (k k' v : string) (p : path) (s : soup) :
  k' <> k ->
  Forall2 (attr_step k v p) (find_all_with_attr k' s)
    (find_all_with_attr k' (update p (set_attr k v) s)).
Proof.
  intros Hne. unfold find_all_with_attr. apply Forall2_filter; [apply all_tags_update|].
  intros x y H. now rewrite (attr_step_get_other Hne H).
Qed.

Lemma find_all_paths_nodup (names : list string) (s : soup) :
  NoDup (map fst (find_all names s)).
Proof. unfold find_all. apply NoDup_map_filter, all_tags_paths_nodup. Qed.

Lemma NoDup_map_nth_error {A B : Type} (f : A -> B) (l : list A) (i j : nat) (x y : A) :
  NoDup (map f l) -> nth_error l i = Some x -> nth_error l j = Some y -> f x = f y -> i = j.
Proof.
  intros Hn Hi Hj E. rewrite NoDup_nth_error in Hn. apply Hn.
  - rewrite length_map. apply nth_error_Some. congruence.
  - rewrite !nth_error_map, Hi, Hj. cbn. now rewrite E.
Qed.

(** The texts of the tags, when the tags are the same one by one. *)
Lemma tagged_items_same (kind_ : string) (text_of : node -> string)
  (l l' : list (path * node)) :
  Forall2 (fun x y => text_of (snd y) = text_of (snd x)) l l' ->
  forall i,
    List.concat (imap (fun i (tag : path * node) =>
                         url_items kind_ i (Re.findall1 BG_URL_RE (text_of (snd tag)))) i l')
    = List.concat (imap (fun i (tag : path * node) =>
                         url_items kind_ i (Re.findall1 BG_URL_RE (text_of (snd tag)))) i l).
Proof.
  induction 1 as [|x y l l' Hxy Hl IH]; intros i; [reflexivity|].
  change (imap ?f i (?x :: ?l)) with (f i x :: imap f (S i) l). cbn [List.concat].
  now rewrite Hxy, IH.
Qed.

Lemma map_same {A : Type} (g : A -> A) (l : list A) :
  (forall x, In x l -> g x = x) -> map g l = l.
Proof.
  induction l as [|x l IH]; intros H; [reflexivity|]. cbn [map].
  rewrite H by now left. f_equal. apply IH. intros y Hy. apply H. now right.
Qed.

Lemma item_with_source_other (loc : ImageLocator) (u : string) (it : image_item) :
  snd it <> loc -> item_with_source loc u it = it.
Proof.
  intros H. unfold item_with_source.
  destruct (locator_eqb (snd it) loc) eqn:E; [|reflexivity].
  apply locator_eqb_eq in E. contradiction.
Qed.

(** The items of the [img] tags after one of them got a new source. *)
Lemma img_items_step (new : string) (p : path) (a0 : nat) (l l' : list (path * node)) :
  Forall2 (attr_step "src" new p) l l' ->
  is_empty (strip new) = false ->
  forall i0,
    (forall i x, nth_error l i = Some x -> (fst x = p <-> i0 + i = a0)) ->
    (forall x, In x l -> fst x = p -> is_empty (src_of (snd x)) = false) ->
    filter_map (fun ix : nat * (path * node) =>
                  let src := src_of (snd (snd ix)) in
                  if is_empty src then None
                  else Some ("img-tag", src, mkImageLocator "img" (Z.of_nat (fst ix)) 0))
               (imap (fun i x => (i, x)) i0 l')
    = map (item_with_source (mkImageLocator "img" (Z.of_nat a0) 0) (strip new))
        (filter_map (fun ix : nat * (path * node) =>
                  let src := src_of (snd (snd ix)) in
                  if is_empty src then None
                  else Some ("img-tag", src, mkImageLocator "img" (Z.of_nat (fst ix)) 0))
               (imap (fun i x => (i, x)) i0 l)).
Proof.
  intros H Hnew.
  set (h := fun ix : nat * (path * node) =>
              let src := src_of (snd (snd ix)) in
              if is_empty src then None
              else Some ("img-tag", src, mkImageLocator "img" (Z.of_nat (fst ix)) 0)).
  induction H as [|x y l l' Hxy Hl IH]; intros i0 Hpos Hsrc; [reflexivity|].
  change (imap ?f i0 (?x :: ?l)) with (f i0 x :: imap f (S i0) l).
  cbn [filter_map].
  rewrite (IH (S i0)).
  2:{ intros i z Hz. rewrite (Hpos (S i) z Hz). lia. }
  2:{ intros z Hz. apply Hsrc. now right. }
  clear IH.
  destruct Hxy as (_ & _ & _ & H1 & H2).
  destruct (list_eq_dec Nat.eq_dec (fst x) p) as [E | E].
  - assert (Ei : i0 = a0) by (apply (Hpos 0 x eq_refl) in E; lia).
    assert (Ey : src_of (snd y) = strip new).
    { unfold src_of, get. now rewrite (H1 E), assoc_set_same. }
    assert (Hy : h (i0, y)
                 = Some ("img-tag", strip new, mkImageLocator "img" (Z.of_nat i0) 0)).
    { unfold h. cbn [fst snd]. now rewrite Ey, Hnew. }
    assert (Hx : h (i0, x)
                 = Some ("img-tag", src_of (snd x), mkImageLocator "img" (Z.of_nat i0) 0)).
    { unfold h. cbn [fst snd]. now rewrite (Hsrc x (or_introl eq_refl) E). }
    rewrite Hx, Hy. cbn [map].
    unfold item_with_source at 2. cbn [snd]. rewrite Ei.
    replace (locator_eqb _ _) with true by (symmetry; now apply locator_eqb_eq).
    reflexivity.
  - assert (Ey : src_of (snd y) = src_of (snd x)).
    { unfold src_of, get. now rewrite (H2 E). }
    assert (Hy : h (i0, y) = h (i0, x)).
    { unfold h. cbn [fst snd]. now rewrite Ey. }
    rewrite Hy. destruct (h (i0, x)) as [it|] eqn:Hx; [|reflexivity]. cbn [map].
    rewrite item_with_source_other; [reflexivity|].
    unfold h in Hx. cbn [fst snd] in Hx.
    destruct (is_empty (src_of (snd x))); [discriminate|].
    injection Hx as <-. cbn [snd].
    intros Eloc. inversion Eloc as [Ez]. apply Nat2Z.inj in Ez.
    apply E. apply (Hpos 0 x eq_refl). lia.
Qed.

Lemma img_items_source (imgs : list (path * node)) (it : image_item) :
  In it (img_items imgs) ->
  exists idx img, snd it = mkImageLocator "img" (Z.of_nat idx) 0
                  /\ nth_error imgs idx = Some img
                  /\ is_empty (src_of (snd img)) = false.
Proof.
  unfold img_items. rewrite filter_map_In. intros ([idx img] & Hin & Hf).
  apply imap_pair_In in Hin as [_ Hnth]. rewrite Nat.sub_0_r in Hnth.
  cbn [fst snd] in Hf. destruct (is_empty (src_of (snd img))) eqn:E; [discriminate|].
  inversion Hf; subst. exists idx, img. auto.
Qed.

Section Rescanned.
Context {adapter : TreeAdapter} {codec : ImageCodec}.

Lemma number_entries_with_source (loc : ImageLocator) (u : string) (items : list image_item) :
  forall c, number_entries c (map (item_with_source loc u) items)
            = map (with_source loc u) (number_entries c items).
Proof.
  induction items as [|[[s0 u0] l0] items IH]; intros c; [reflexivity|].
  cbn [map number_entries]. rewrite <- IH. unfold item_with_source at 1, with_source at 1.
  rewrite locator_entry_of, img_id_entry_of. cbn [snd].
  destruct (locator_eqb l0 loc); reflexivity.
Qed.

(** The items of a document after the [i]-th [img] tag, which had a source,
    got a new one. *)
Lemma image_items_update (s : soup) (new : string) (i : nat) (img : path * node) :
  nth_error (find_all ["img"] s) i = Some img ->
  is_empty (src_of (snd img)) = false ->
  is_empty (strip new) = false ->
  image_items (update (fst img) (set_attr "src" new) s)
  = map (item_with_source (mkImageLocator "img" (Z.of_nat i) 0) (strip new)) (image_items s).
Proof.
  intros Hi Hsrc Hnew. unfold image_items. rewrite !map_app. f_equal; [|f_equal].
  - unfold img_items.
    apply (@img_items_step new (fst img) i (find_all ["img"] s)
             (find_all ["img"] (update (fst img) (set_attr "src" new) s)));
      [apply find_all_update | exact Hnew | |].
    + intros j x Hj. cbn [Nat.add]. split.
      * intros E. symmetry.
        apply (@NoDup_map_nth_error _ _ fst (find_all ["img"] s) i j img x);
          [apply find_all_paths_nodup | exact Hi | exact Hj | now symmetry].
      * intros <-. congruence.
    + intros x Hx E.
      assert (Ex : x = img).
      { apply nth_error_In in Hi. destruct x as [q m], img as [q' m'].
        cbn [fst] in E. subst q'.
        apply find_all_lookup in Hx, Hi. congruence. }
      now rewrite Ex.
  - rewrite map_same.
    + unfold inline_items. apply tagged_items_same.
      assert (Hne : "style" <> "src") by discriminate.
      pose proof (@find_all_with_attr_update "src" "style" new (fst img) s Hne) as H.
      induction H as [|x y l l' Hxy Hl IH]; constructor; [|exact IH].
      unfold style_of. now rewrite (attr_step_get_other Hne Hxy).
    + intros it Hit. apply item_with_source_other.
      apply (proj2 (tagged_items_locators "inline_style" style_of _)) in Hit.
      intros E. rewrite E in Hit. discriminate.
  - rewrite map_same.
    + unfold block_items. apply tagged_items_same.
      pose proof (@find_all_update ["style"] "src" new (fst img) s) as H.
      induction H as [|x y l l' Hxy Hl IH]; constructor; [|exact IH].
      destruct Hxy as (_ & Hn & Hs & _). unfold get_text. now rewrite Hn, Hs.
    + intros it Hit. apply item_with_source_other.
      apply (proj2 (tagged_items_locators "style_tag" get_text _)) in Hit.
      intros E. rewrite E in Hit. discriminate.
Qed.

(** Replacing the image of an [img] entry, and scanning the result again. *)
Lemma rescan_after_replace (html new : string) (e : ImageEntry)
  (img : path * node) :
  In e (extract_images html) ->
  loc_kind (locator e) = "img" ->
  nth_error (find_all ["img"] (parse html)) (Z.to_nat (a (locator e))) = Some img ->
  is_empty (strip new) = false ->
  parse (decode (update (fst img) (set_attr "src" new) (parse html)))
  = update (fst img) (set_attr "src" new) (parse html) ->
  replace_image_in_html html (locator e) new
  = Return (decode (update (fst img) (set_attr "src" new) (parse html)))
  /\ extract_images (decode (update (fst img) (set_attr "src" new) (parse html)))
     = map (with_source (locator e) (strip new)) (extract_images html).
Proof.
  intros He Hk Hi Hnew Hround.
  rewrite extract_images_items in He.
  apply number_entries_In in He as (id & s0 & u0 & loc & Hit & ->).
  rewrite locator_entry_of in *.
  assert (Himg : In (s0, u0, loc) (img_items (find_all ["img"] (parse html)))).
  { unfold image_items in Hit. apply in_app_or in Hit as [Hit | Hit]; [exact Hit|].
    apply in_app_or in Hit as [Hit | Hit].
    - apply (proj2 (tagged_items_locators "inline_style" style_of _)) in Hit.
      cbn [snd] in Hit. rewrite Hk in Hit. discriminate.
    - apply (proj2 (tagged_items_locators "style_tag" get_text _)) in Hit.
      cbn [snd] in Hit. rewrite Hk in Hit. discriminate. }
  apply img_items_source in Himg as (idx & img0 & Eloc & Hnth & Hsrc).
  cbn [snd] in Eloc. subst loc. cbn [a] in Hi. rewrite Nat2Z.id in Hi.
  assert (img0 = img) by congruence. subst img0. split.
  - now apply replace_img_at.
  - rewrite !extract_images_items, Hround, (@image_items_update (parse html) new idx img Hnth Hsrc Hnew).
    apply number_entries_with_source.
Qed.

(** X12. Replacing the image of an [img] entry and scanning the result
    again: the entries are those of the document before, with the same
    identifiers and locators, in the same order, except that the entry of
    the replaced image is now the one of the new source. *)
Theorem replaced_image_is_rescanned (html new : string) (e : ImageEntry)
  (img : path * node) :
  In e (extract_images html) ->
  loc_kind (locator e) = "img" ->
  nth_error (find_all ["img"] (parse html)) (Z.to_nat (a (locator e))) = Some img ->
  is_empty (strip new) = false ->
  parse (decode (update (fst img) (set_attr "src" new) (parse html)))
  = update (fst img) (set_attr "src" new) (parse html) ->
  replace_image_in_html html (locator e) new
  = Return (decode (update (fst img) (set_attr "src" new) (parse html)))
  /\ extract_images (decode (update (fst img) (set_attr "src" new) (parse html)))
     = map (with_source (locator e) (strip new)) (extract_images html).
Proof. apply rescan_after_replace. Qed.

End Rescanned.

(* ------------------------------------------------------------------ *)
(** * Image files: the data URL of a file *)
(* ------------------------------------------------------------------ *)

(** A greedy star over a character class takes the whole run when what
    follows accepts there. *)
Lemma run_star_class_greedy (q : ascii -> bool) (k : Re.mstate -> option Re.mstate)
  (l : list ascii) :
  forall (p : nat) (pv : option ascii) (cs : list (nat * (nat * nat))) (x : Re.mstate),
    k (skip_class q p pv l cs) = Some x ->
    Re.run (Re.Star true (Re.Class q)) (Re.MState p pv l cs) k = Some x.
Proof.
  induction l as [|c l IH]; intros p pv cs x H; [exact H|].
  rewrite run_star_class_cons. cbn [skip_class] in H.
  destruct (q c); [|exact H]. now rewrite (IH _ _ _ _ H).
Qed.

Lemma skip_all (l : list ascii) :
  forall (p : nat) (pv : option ascii) (cs : list (nat * (nat * nat))),
    skip_class (fun _ => true) p pv l cs
    = Re.MState (p + List.length l) (prev_after pv l) [] cs.
Proof.
  induction l as [|c l IH]; intros p pv cs; cbn [skip_class List.length].
  - now rewrite Nat.add_0_r.
  - rewrite IH. f_equal. lia.
Qed.

(** A sequence of character classes, on characters that are in them. *)
Lemma run_seq_of_classes (qs : list (ascii -> bool)) :
  forall (w l : list ascii) (p : nat) (pv : option ascii) (cs : list (nat * (nat * nat)))
         (k : Re.mstate -> option Re.mstate),
    Forall2 (fun q c => q c = true) qs w ->
    Re.run (Re.seq_of (map Re.Class qs)) (Re.MState p pv (w ++ l)%list cs) k
    = k (Re.MState (p + List.length w) (prev_after pv w) l cs).
Proof.
  induction qs as [|q qs IH]; intros w l p pv cs k H.
  - inversion H; subst. cbn. now rewrite Nat.add_0_r.
  - inversion H as [|q' c qs' w' Hq Hw]; subst.
    assert (E : Re.run (Re.seq_of (map Re.Class (q :: qs)))
                  (Re.MState p pv ((c :: w') ++ l)%list cs) k
                = Re.run (Re.seq_of (map Re.Class qs))
                    (Re.MState (S p) (Some c) (w' ++ l)%list cs) k).
    { destruct qs as [|q2 qs].
      - inversion Hw; subst. cbn. now rewrite Hq.
      - cbn [map Re.seq_of Re.run Re.rest Re.pos Re.caps app]. now rewrite Hq. }
    rewrite E, (IH w' l (S p) (Some c) cs k Hw). f_equal. f_equal.
    cbn [List.length]. lia.
Qed.

Lemma run_ilit (s : string) (l : list ascii) (p : nat) (pv : option ascii)
  (cs : list (nat * (nat * nat))) (k : Re.mstate -> option Re.mstate) :
  Re.run (Re.ilit s) (Re.MState p pv (chars s ++ l)%list cs) k
  = k (Re.MState (p + String.length s) (prev_after pv (chars s)) l cs).
Proof.
  unfold Re.ilit.
  change (map Re.ichr (chars s))
    with (map (fun c => Re.Class (fun x => Ascii.eqb (lower_char x) (lower_char c))) (chars s)).
  rewrite <- (map_map (fun c x => Ascii.eqb (lower_char x) (lower_char c)) Re.Class).
  rewrite run_seq_of_classes.
  - now rewrite chars_length.
  - induction (chars s) as [|c w IH]; constructor; [apply Ascii.eqb_refl | exact IH].
Qed.

(** A literal whose first character is not the next one. *)
Lemma run_ilit_mismatch (c0 c : ascii) (s : string) (l : list ascii) (p : nat)
  (pv : option ascii) (cs : list (nat * (nat * nat))) (k : Re.mstate -> option Re.mstate) :
  Ascii.eqb (lower_char c) (lower_char c0) = false ->
  Re.run (Re.ilit (String c0 s)) (Re.MState p pv (c :: l) cs) k = None.
Proof.
  intros H. unfold Re.ilit. cbn [chars list_ascii_of_string map].
  destruct (map Re.ichr (list_ascii_of_string s)); cbn [Re.seq_of Re.run Re.ichr Re.rest];
    now rewrite H.
Qed.

Lemma run_group (i : nat) (r : Re.regex) (st : Re.mstate)
  (k : Re.mstate -> option Re.mstate) :
  Re.run (Re.Group i r) st k
  = Re.run r st (fun st' =>
      k (Re.MState (Re.pos st') (Re.prev st') (Re.rest st')
           ((i, (Re.pos st, Re.pos st')) :: Re.caps st'))).
Proof. reflexivity. Qed.

Lemma run_seq (r1 r2 : Re.regex) (st : Re.mstate) (k : Re.mstate -> option Re.mstate) :
  Re.run (Re.Seq r1 r2) st k = Re.run r1 st (fun st' => Re.run r2 st' k).
Proof. reflexivity. Qed.

Lemma run_alt (r1 r2 : Re.regex) (st : Re.mstate) (k : Re.mstate -> option Re.mstate) :
  Re.run (Re.Alt r1 r2) st k
  = match Re.run r1 st k with Some x => Some x | None => Re.run r2 st k end.
Proof. reflexivity. Qed.

Lemma run_class (q : ascii -> bool) (c : ascii) (l : list ascii) (p : nat)
  (pv : option ascii) (cs : list (nat * (nat * nat))) (k : Re.mstate -> option Re.mstate) :
  Re.run (Re.Class q) (Re.MState p pv (c :: l) cs) k
  = if q c then k (Re.MState (S p) (Some c) l cs) else None.
Proof. reflexivity. Qed.

(** [(.+)$] under [re.DOTALL], on what is left of the subject when it is
    not empty: all of it. *)
Lemma run_rest_group (i : nat) (c : ascii) (l : list ascii) (p : nat) (pv : option ascii)
  (cs : list (nat * (nat * nat))) :
  Re.run (Re.Seq (Re.Group i (Re.plus Re.any)) Re.Eos) (Re.MState p pv (c :: l) cs)
    (fun st => Some st)
  = Some (Re.MState (S p + List.length l) (prev_after (Some c) l) []
            ((i, (p, S p + List.length l)) :: cs)).
Proof.
  rewrite run_seq, run_group. unfold Re.plus, Re.any. rewrite run_seq.
  rewrite run_class.
  apply run_star_class_greedy. rewrite skip_all. reflexivity.
Qed.

(** The pattern of the data URLs on a PNG or JPEG data URL whose payload is
    not empty. *)
Lemma data_url_run_png (c : ascii) (l : list ascii) :
  Re.run DATA_URL_RE
    (Re.MState 0 None (chars "data:image/png;base64," ++ c :: l)%list [])
    (fun st => Some st)
  = Some (Re.MState (23 + List.length l) (prev_after (Some c) l) []
            [(3, (22, 23 + List.length l)); (1, (5, 14)); (2, (11, 14))]).
Proof.
  unfold DATA_URL_RE. cbn [Re.seq_of].
  change (chars "data:image/png;base64," ++ c :: l)%list
    with (chars "data:" ++ (chars "image/" ++ (chars "png"
            ++ (chars ";base64," ++ c :: l))))%list.
  rewrite run_seq, run_ilit. rewrite run_seq, run_group, run_seq, run_ilit.
  rewrite run_group, run_alt, run_ilit.
  cbn [Re.pos Re.prev Re.rest Re.caps].
  rewrite run_seq, run_ilit. rewrite run_rest_group. reflexivity.
Qed.

Lemma data_url_run_jpeg (c : ascii) (l : list ascii) :
  Re.run DATA_URL_RE
    (Re.MState 0 None (chars "data:image/jpeg;base64," ++ c :: l)%list [])
    (fun st => Some st)
  = Some (Re.MState (24 + List.length l) (prev_after (Some c) l) []
            [(3, (23, 24 + List.length l)); (1, (5, 15)); (2, (11, 15))]).
Proof.
  unfold DATA_URL_RE. cbn [Re.seq_of].
  change (chars "data:image/jpeg;base64," ++ c :: l)%list
    with (chars "data:" ++ (chars "image/" ++ ("j"%char :: chars "peg;base64," ++ c :: l)))%list.
  rewrite run_seq, run_ilit. rewrite run_seq, run_group, run_seq, run_ilit.
  rewrite run_group, run_alt.
  rewrite run_ilit_mismatch by reflexivity.
  rewrite run_alt.
  change ("j"%char :: chars "peg;base64," ++ c :: l)%list
    with (chars "jpeg" ++ (chars ";base64," ++ c :: l))%list.
  rewrite run_ilit.
  cbn [Re.pos Re.prev Re.rest Re.caps].
  rewrite run_seq, run_ilit. rewrite run_rest_group. reflexivity.
Qed.

Lemma collapse_no_space (rep l : list ascii) :
  forallb (fun x => negb (isspace x)) l = true -> collapse rep false l = l.
Proof.
  induction l as [|c l IH]; [reflexivity|]. cbn [forallb collapse].
  intros H. apply andb_true_iff in H as [H1 H2]. apply negb_true_iff in H1.
  now rewrite H1, IH.
Qed.

Lemma b64_digit_no_space (n : nat) : isspace (b64_digit n) = false.
Proof.
  unfold b64_digit.
  destruct (nth_in_or_default n (chars B64_ALPHABET) "="%char) as [H | ->];
    [|reflexivity].
  assert (Hall : forallb (fun x => negb (isspace x)) (chars B64_ALPHABET) = true)
    by (vm_compute; reflexivity).
  rewrite forallb_forall in Hall. apply Hall in H. now apply negb_true_iff in H.
Qed.

(** The encoder writes no white space, and writes something for every
    content that is not empty. *)
Lemma b64encode_chars_no_space (raw : list Byte.byte) :
  forallb (fun x => negb (isspace x)) (b64encode_chars raw) = true.
Proof.
  assert (H : forall n raw, List.length raw <= n ->
                forallb (fun x => negb (isspace x)) (b64encode_chars raw) = true).
  { clear raw. induction n as [|n IH]; intros raw Hn.
    - destruct raw; [reflexivity | simpl in Hn; lia].
    - destruct raw as [|x [|y [|z raw]]]; [reflexivity | | |];
        cbn [b64encode_chars forallb]; rewrite ?b64_digit_no_space; cbn [negb andb];
        try reflexivity.
      apply IH. simpl in Hn. lia. }
  now apply (H (List.length raw)).
Qed.

Lemma b64encode_chars_not_nil (raw : list Byte.byte) :
  raw <> [] -> b64encode_chars raw <> [].
Proof. destruct raw as [|x [|y [|z raw]]]; [congruence | | |]; discriminate. Qed.

Section DataUrls.
Context {codec : ImageCodec}.

Lemma entry_of_png (id src : string) (loc : ImageLocator) (c : ascii) (l : list ascii) :
  forallb (fun x => negb (isspace x)) (c :: l) = true ->
  entry_of id src ("data:image/png;base64," ++ of_chars (c :: l)) loc
  = data_entry id src "image/png" "png" (of_chars (c :: l)) loc.
Proof.
  intros Hns. unfold entry_of, Re.rmatch_at_start.
  rewrite chars_app, chars_of_chars, data_url_run_png.
  cbn [Re.pos Re.caps]. unfold Re.group_or_empty, Re.group.
  cbn [Re.cap_lookup Nat.eqb Re.m_caps Re.m_subject].
  assert (E1 : slice 5 14 (chars "data:image/png;base64," ++ c :: l) = chars "image/png")
    by reflexivity.
  assert (E3 : slice 22 (23 + List.length l) (chars "data:image/png;base64," ++ c :: l)
               = c :: l).
  { unfold slice. replace (23 + List.length l - 22) with (List.length (c :: l))
      by (cbn [List.length]; lia).
    change (skipn 22 (chars "data:image/png;base64," ++ c :: l)) with (c :: l).
    apply firstn_all. }
  rewrite E1, E3, sub_ws, chars_of_chars, (collapse_no_space _ _ Hns).
  reflexivity.
Qed.

Lemma entry_of_jpeg (id src : string) (loc : ImageLocator) (c : ascii) (l : list ascii) :
  forallb (fun x => negb (isspace x)) (c :: l) = true ->
  entry_of id src ("data:image/jpeg;base64," ++ of_chars (c :: l)) loc
  = data_entry id src "image/jpeg" "jpg" (of_chars (c :: l)) loc.
Proof.
  intros Hns. unfold entry_of, Re.rmatch_at_start.
  rewrite chars_app, chars_of_chars, data_url_run_jpeg.
  cbn [Re.pos Re.caps]. unfold Re.group_or_empty, Re.group.
  cbn [Re.cap_lookup Nat.eqb Re.m_caps Re.m_subject].
  assert (E1 : slice 5 15 (chars "data:image/jpeg;base64," ++ c :: l) = chars "image/jpeg")
    by reflexivity.
  assert (E3 : slice 23 (24 + List.length l) (chars "data:image/jpeg;base64," ++ c :: l)
               = c :: l).
  { unfold slice. replace (24 + List.length l - 23) with (List.length (c :: l))
      by (cbn [List.length]; lia).
    change (skipn 23 (chars "data:image/jpeg;base64," ++ c :: l)) with (c :: l).
    apply firstn_all. }
  rewrite E1, E3, sub_ws, chars_of_chars, (collapse_no_space _ _ Hns).
  reflexivity.
Qed.

End DataUrls.

Lemma head_is_rev_forallb (q : ascii -> bool) (l : list ascii) :
  forallb (fun x => negb (q x)) l = true -> head_is q (rev l) = false.
Proof.
  intros H. destruct (rev l) as [|c r] eqn:E; [reflexivity|]. cbn [head_is].
  rewrite forallb_forall in H. apply negb_true_iff, H, in_rev. rewrite E. now left.
Qed.

Lemma strip_no_space (s : string) :
  forallb (fun x => negb (isspace x)) (chars s) = true -> strip s = s.
Proof.
  intros H. unfold strip. rewrite lstrip_id, rstrip_id; [apply of_chars_chars | |].
  - now apply head_is_rev_forallb.
  - destruct (chars s) as [|c l]; [reflexivity|]. cbn [head_is].
    cbn [forallb] in H. apply andb_true_iff in H as [H _]. now apply negb_true_iff.
Qed.

Section FileImages.
Context {host : FileHost} {codec : ImageCodec}.

Lemma guess_mime_cases (path : string) :
  _guess_mime_for_file path = "image/png" \/ _guess_mime_for_file path = "image/jpeg"
  \/ _guess_mime_for_file path = "".
Proof.
  unfold _guess_mime_for_file.
  destruct (is_png_or_jpeg _) eqn:E.
  - unfold is_png_or_jpeg in E. apply orb_true_iff in E as [E | E];
      apply String.eqb_eq in E; auto.
  - destruct (String.eqb _ ".png"); [auto|].
    destruct (_ || _); auto.
Qed.

(** What [make_data_url_from_file] returns when it returns. *)
Lemma make_data_url_returns (path url : string) (raw : list Byte.byte) :
  make_data_url_from_file path = inr (url, raw) ->
  read_bytes path = Some raw
  /\ url = "data:" ++ _guess_mime_for_file path ++ ";base64," ++ b64encode raw
  /\ (_guess_mime_for_file path = "image/png" \/ _guess_mime_for_file path = "image/jpeg").
Proof.
  unfold make_data_url_from_file. intros H.
  destruct (is_png_or_jpeg (_guess_mime_for_file path)) eqn:E; [|discriminate].
  cbn [negb] in H. destruct (read_bytes path) as [raw'|]; [|discriminate].
  injection H as <- <-. split; [reflexivity|]. split; [reflexivity|].
  unfold is_png_or_jpeg in E. apply orb_true_iff in E as [E | E];
    apply String.eqb_eq in E; auto.
Qed.

Lemma file_url_entry (path url : string) (raw : list Byte.byte) (id src : string)
  (loc : ImageLocator) :
  make_data_url_from_file path = inr (url, raw) ->
  raw <> [] ->
  b64decode (b64encode raw) = Some raw ->
  strip url = url
  /\ entry_of id src url loc
     = mkImageEntry id src (_guess_mime_for_file path)
         (if String.eqb (_guess_mime_for_file path) "image/jpeg" then "jpg" else "png")
         (fst (_detect_size_from_bytes raw)) (snd (_detect_size_from_bytes raw))
         (Some raw) "(data-url)" loc.
Proof.
  intros H Hraw Hdec. apply make_data_url_returns in H as (_ & -> & Hm).
  pose proof (b64encode_chars_no_space raw) as Hns.
  pose proof (b64encode_chars_not_nil Hraw) as Hnn.
  unfold b64encode in *. destruct (b64encode_chars raw) as [|c l] eqn:E; [congruence|].
  assert (Hdata : forall mime fmt,
             data_entry id src mime fmt (of_chars (c :: l)) loc
             = mkImageEntry id src mime fmt
                 (fst (_detect_size_from_bytes raw)) (snd (_detect_size_from_bytes raw))
                 (Some raw) "(data-url)" loc).
  { intros mime fmt. unfold data_entry. rewrite Hdec.
    destruct raw; [congruence | reflexivity]. }
  destruct Hm as [-> | ->]; split.
  - apply strip_no_space. change ("data:" ++ "image/png" ++ ";base64," ++ of_chars (c :: l))
      with ("data:image/png;base64," ++ of_chars (c :: l)).
    rewrite chars_app, chars_of_chars, forallb_app, Hns. reflexivity.
  - change ("data:" ++ "image/png" ++ ";base64," ++ of_chars (c :: l))
      with ("data:image/png;base64," ++ of_chars (c :: l)).
    rewrite (@entry_of_png codec id src loc c l Hns). apply Hdata.
  - apply strip_no_space. change ("data:" ++ "image/jpeg" ++ ";base64," ++ of_chars (c :: l))
      with ("data:image/jpeg;base64," ++ of_chars (c :: l)).
    rewrite chars_app, chars_of_chars, forallb_app, Hns. reflexivity.
  - change ("data:" ++ "image/jpeg" ++ ";base64," ++ of_chars (c :: l))
      with ("data:image/jpeg;base64," ++ of_chars (c :: l)).
    rewrite (@entry_of_jpeg codec id src loc c l Hns). apply Hdata.
Qed.

(** X13. A PNG or JPEG file that is not empty, made a data URL by
    [make_data_url_from_file], is read back by the scan of the images as an
    image of the same type that holds the bytes of the file. *)
Theorem file_image_is_recognised (path url : string) (raw : list Byte.byte)
  (id src : string) (loc : ImageLocator) :
  make_data_url_from_file path = inr (url, raw) ->
  raw <> [] ->
  b64decode (b64encode raw) = Some raw ->
  entry_of id src url loc
  = mkImageEntry id src (_guess_mime_for_file path)
      (if String.eqb (_guess_mime_for_file path) "image/jpeg" then "jpg" else "png")
      (fst (_detect_size_from_bytes raw)) (snd (_detect_size_from_bytes raw))
      (Some raw) "(data-url)" loc.
Proof. intros H Hraw Hdec. exact (proj2 (@file_url_entry path url raw id src loc H Hraw Hdec)). Qed.

(** X14. An empty file with the name of a PNG or JPEG file is accepted by
    [make_data_url_from_file], but the data URL made of it has no payload
    and the scan of the images does not take it for a data URL: the entry
    has no type and no bytes, and the URL is its hint. *)
Theorem empty_file_is_not_recognised (path url : string) (raw : list Byte.byte)
  (id src : string) (loc : ImageLocator) :
  make_data_url_from_file path = inr (url, raw) ->
  raw = [] ->
  entry_of id src url loc = mkImageEntry id src "image/unknown" "?" None None None url loc.
Proof.
  intros H ->. apply make_data_url_returns in H as (_ & -> & Hm).
  destruct Hm as [-> | ->]; reflexivity.
Qed.

End FileImages.

Section ReplaceWithFile.
Context {adapter : TreeAdapter} {host : FileHost} {codec : ImageCodec}.

(** X15. What replacing the selected image with a file comes to: the data
    URL of a PNG or JPEG file that is not empty is accepted in place of the
    source of an [img] entry, and the next scan lists the same entries
    under the same identifiers, the entry of the replaced image now holding
    the type and the bytes of the file. *)
Theorem file_replaces_image (html file url : string) (raw : list Byte.byte)
  (e : ImageEntry) (img : path * node) :
  In e (extract_images html) ->
  loc_kind (locator e) = "img" ->
  nth_error (find_all ["img"] (parse html)) (Z.to_nat (a (locator e))) = Some img ->
  make_data_url_from_file file = inr (url, raw) ->
  raw <> [] ->
  b64decode (b64encode raw) = Some raw ->
  parse (decode (update (fst img) (set_attr "src" url) (parse html)))
  = update (fst img) (set_attr "src" url) (parse html) ->
  replace_image_in_html html (locator e) url
  = Return (decode (update (fst img) (set_attr "src" url) (parse html)))
  /\ extract_images (decode (update (fst img) (set_attr "src" url) (parse html)))
     = map (with_source (locator e) url) (extract_images html)
  /\ with_source (locator e) url e
     = mkImageEntry (img_id e) "img-tag" (_guess_mime_for_file file)
         (if String.eqb (_guess_mime_for_file file) "image/jpeg" then "jpg" else "png")
         (fst (_detect_size_from_bytes raw)) (snd (_detect_size_from_bytes raw))
         (Some raw) "(data-url)" (locator e).
Proof.
  intros He Hk Hi Hurl Hraw Hdec Hround.
  destruct (@file_url_entry host codec file url raw (img_id e) "img-tag" (locator e)
              Hurl Hraw Hdec) as [Hstrip Hentry].
  assert (Hne : is_empty (strip url) = false).
  { rewrite Hstrip. apply make_data_url_returns in Hurl as (_ & -> & _). reflexivity. }
  destruct (@rescan_after_replace adapter codec html url e img He Hk Hi Hne Hround)
    as [H1 H2].
  rewrite Hstrip in H2. split; [exact H1|]. split; [exact H2|].
  unfold with_source. replace (locator_eqb _ _) with true; [exact Hentry|].
  symmetry. now apply locator_eqb_eq.
Qed.

End ReplaceWithFile.

(* ------------------------------------------------------------------ *)
(** * More properties on documents read by [mini_adapter] *)
(* ------------------------------------------------------------------ *)

Section MoreOnMiniSoup.
#[local] Existing Instance mini_adapter.

Lemma entry_texts_are_normal_witness :
  In (text_ref "p" "" "Score:" 1) (extract_text_nodes score_page)
  /\ norm "Score:" = "Score:".
Proof.
  assert (H : In (text_ref "p" "" "Score:" 1) (extract_text_nodes score_page))
    by (vm_compute; tauto).
  split; [exact H|].
  exact (proj2 (proj2 (@entry_texts_are_normal mini_adapter score_page _ H))).
Defined.

Lemma entry_key_is_read_back_witness :
  In (text_ref "p" "x" "Hello" 1) (extract_text_nodes hello_page)
  /\ parse_text_key "TEXT|p|x|1" = Some ("p", "x", 1%Z).
Proof.
  assert (H : In (text_ref "p" "x" "Hello" 1) (extract_text_nodes hello_page))
    by (vm_compute; tauto).
  split; [exact H|].
  assert (Hn : String.length (of_nat (occurrence (text_ref "p" "x" "Hello" 1))) <= 4300)
    by (vm_compute; lia).
  exact (@entry_key_is_read_back mini_adapter hello_page _ H eq_refl eq_refl Hn).
Defined.

Lemma bar_in_class_blocks_the_edit_witness :
  In (text_ref "p" "a|b" "Hi" 1) (extract_text_nodes barred_page)
  /\ apply_text_edits barred_page [("TEXT|p|a|b|1", "Bye")]
     = apply_text_edits barred_page [].
Proof.
  assert (H : In (text_ref "p" "a|b" "Hi" 1) (extract_text_nodes barred_page))
    by (vm_compute; tauto).
  split; [exact H|].
  exact (@bar_in_class_blocks_the_edit mini_adapter barred_page "Bye" _ H eq_refl eq_refl).
Defined.

Lemma edit_reaches_its_element_witness :
  nth_error (extract_text_nodes score_page) 0 = Some (text_ref "p" "" "Score:" 1)
  /\ edited_string "Score: {{ value }}" "Points:" = "Points: {{ value }}"
  /\ apply_text_edits score_page [("TEXT|p||1", "Points:")]
     = decode (update [0] (set_string "Points: {{ value }}") (parse score_page)).
Proof.
  assert (Hskip : decompose_all SKIP_TAGS (parse score_page) = parse score_page)
    by (vm_compute; reflexivity).
  assert (Hkept : forall q, In q (indexed_tags (parse score_page)) ->
                            candidate_of (snd q) <> None).
  { intros q Hq. vm_compute in Hq.
    destruct Hq as [<- | []]; vm_compute; discriminate. }
  assert (Hi : nth_error (indexed_tags (parse score_page)) 0
               = Some ([0], Tag "p" [] [Str NavigableString "Score: {{ value }}"]))
    by (vm_compute; reflexivity).
  assert (Hr : nth_error (extract_text_nodes score_page) 0
               = Some (text_ref "p" "" "Score:" 1)) by (vm_compute; reflexivity).
  assert (Hj : has_jinja "Score: {{ value }}" = true ->
               strip_jinja "Score: {{ value }}" <> "") by (intros _; vm_compute; discriminate).
  assert (Hn : String.length (of_nat (occurrence (text_ref "p" "" "Score:" 1))) <= 4300)
    by (vm_compute; lia).
  assert (He : edited_string "Score: {{ value }}" "Points:" = "Points: {{ value }}")
    by (vm_compute; reflexivity).
  split; [exact Hr|]. split; [exact He|].
  rewrite <- He.
  exact (proj1 (@edit_reaches_its_element mini_adapter score_page "Points:" _ 0 _ _
                  Hskip Hkept Hi Hr eq_refl Hj eq_refl Hn)).
Defined.

Lemma replaced_image_is_rescanned_witness :
  map hint (extract_images (codec := deaf_codec) two_data_images) = ["(data-url)"; "b.png"]
  /\ exists html',
       replace_image_in_html two_data_images (mkImageLocator "img" 1 0) new_url = Return html'
       /\ map hint (extract_images (codec := deaf_codec) html') = ["(data-url)"; "(data-url)"]
       /\ map img_id (extract_images (codec := deaf_codec) html') = ["IMG001"; "IMG002"].
Proof.
  set (e := entry_of (codec := deaf_codec) "IMG002" "img-tag" "b.png"
              (mkImageLocator "img" 1 0)).
  assert (He : In e (extract_images (codec := deaf_codec) two_data_images))
    by (vm_compute; tauto).
  assert (Hi : nth_error (find_all ["img"] (parse two_data_images))
                 (Z.to_nat (a (locator e)))
               = Some ([1], Tag "img" [("src", "b.png")] [])) by (vm_compute; reflexivity).
  assert (Hnew : is_empty (strip new_url) = false) by (vm_compute; reflexivity).
  assert (Hround : parse (decode (update [1] (set_attr "src" new_url) (parse two_data_images)))
                   = update [1] (set_attr "src" new_url) (parse two_data_images))
    by (vm_compute; reflexivity).
  destruct (@replaced_image_is_rescanned mini_adapter deaf_codec two_data_images new_url
              e _ He eq_refl Hi Hnew Hround) as [H1 H2].
  split; [vm_compute; reflexivity|].
  eexists. split; [exact H1|]. rewrite H2. split; vm_compute; reflexivity.
Defined.

Lemma file_image_is_recognised_witness :
  make_data_url_from_file (host := png_host [Byte.x00]) "new.PNG"
  = inr ("data:image/png;base64,AA==", [Byte.x00])
  /\ entry_of (codec := blind_codec) "IMG001" "img-tag" "data:image/png;base64,AA=="
       (mkImageLocator "img" 0 0)
     = mkImageEntry "IMG001" "img-tag" "image/png" "png" None None (Some [Byte.x00])
         "(data-url)" (mkImageLocator "img" 0 0).
Proof.
  assert (H : make_data_url_from_file (host := png_host [Byte.x00]) "new.PNG"
              = inr ("data:image/png;base64,AA==", [Byte.x00])) by (vm_compute; reflexivity).
  assert (Hraw : [Byte.x00] <> []) by discriminate.
  split; [exact H|].
  exact (@file_image_is_recognised (png_host [Byte.x00]) blind_codec "new.PNG" _ _
           "IMG001" "img-tag" (mkImageLocator "img" 0 0) H Hraw eq_refl).
Defined.

Lemma empty_file_is_not_recognised_witness :
  make_data_url_from_file (host := png_host []) "new.PNG" = inr ("data:image/png;base64,", [])
  /\ entry_of (codec := blind_codec) "IMG001" "img-tag" "data:image/png;base64,"
       (mkImageLocator "img" 0 0)
     = mkImageEntry "IMG001" "img-tag" "image/unknown" "?" None None None
         "data:image/png;base64," (mkImageLocator "img" 0 0).
Proof.
  assert (H : make_data_url_from_file (host := png_host []) "new.PNG"
              = inr ("data:image/png;base64,", [])) by (vm_compute; reflexivity).
  split; [exact H|].
  exact (@empty_file_is_not_recognised (png_host []) blind_codec "new.PNG" _ _
           "IMG001" "img-tag" (mkImageLocator "img" 0 0) H eq_refl).
Defined.

Lemma file_replaces_image_witness :
  map hint (extract_images (codec := blind_codec) two_data_images) = ["(data-url)"; "b.png"]
  /\ exists html',
       replace_image_in_html two_data_images (mkImageLocator "img" 1 0)
         "data:image/png;base64,AA==" = Return html'
       /\ map bytes_data (extract_images (codec := blind_codec) html')
          = [Some [Byte.x00]; Some [Byte.x00]]
       /\ map img_id (extract_images (codec := blind_codec) html') = ["IMG001"; "IMG002"].
Proof.
  set (e := entry_of (codec := blind_codec) "IMG002" "img-tag" "b.png"
              (mkImageLocator "img" 1 0)).
  assert (He : In e (extract_images (codec := blind_codec) two_data_images))
    by (vm_compute; tauto).
  assert (Hi : nth_error (find_all ["img"] (parse two_data_images))
                 (Z.to_nat (a (locator e)))
               = Some ([1], Tag "img" [("src", "b.png")] [])) by (vm_compute; reflexivity).
  assert (H : make_data_url_from_file (host := png_host [Byte.x00]) "new.PNG"
              = inr ("data:image/png;base64,AA==", [Byte.x00])) by (vm_compute; reflexivity).
  assert (Hraw : [Byte.x00] <> []) by discriminate.
  assert (Hround : parse (decode (update [1] (set_attr "src" "data:image/png;base64,AA==")
                                    (parse two_data_images)))
                   = update [1] (set_attr "src" "data:image/png;base64,AA==")
                       (parse two_data_images))
    by (vm_compute; reflexivity).
  destruct (@file_replaces_image mini_adapter (png_host [Byte.x00]) blind_codec
              two_data_images "new.PNG" _ _ e _ He eq_refl Hi H Hraw eq_refl Hround)
    as (H1 & H2 & _).
  split; [vm_compute; reflexivity|].
  eexists. split; [exact H1|]. rewrite H2. split; vm_compute; reflexivity.
Defined.

End MoreOnMiniSoup.
